(** * Lowering of the cu IR to LLVM: a shallow embedding of [src/llvm.rs]

    The IR module itself ([crate::ir]) is not part of the sources; its
    data types are modelled from the data model of the specification
    (section 3) and from their uses in [llvm.rs].  The LLVM side is
    modelled by a small first-order syntax of types, values, instructions
    and terminators; every builder call of [llvm.rs] appends one such
    instruction. *)

From Stdlib Require Import List String Ascii ZArith Lia Bool Arith.
Import ListNotations.
#[local] Set Warnings "-register-all".
Open Scope string_scope.
Open Scope list_scope.

(** ** Results: a panic of the Rust code is an [Err] *)

Inductive result (A : Type) : Type :=
| Ok (a : A)
| Err (msg : string).
Arguments Ok {A} a.
Arguments Err {A} msg.

Definition rbind {A B} (m : result A) (k : A -> result B) : result B :=
  match m with Ok a => k a | Err e => Err e end.

Notation "x <-? m ;; k" := (rbind m (fun x => k))
  (at level 61, m at next level, right associativity).

Definition nth_or_panic {A} (l : list A) (i : nat) : result A :=
  match nth_error l i with
  | Some a => Ok a
  | None => Err "index out of bounds"
  end.

(** ** The IR (modelled from the spec's data model) *)

Definition TypeId := nat.

Record FuncType := mkFuncType {
  params : list TypeId;
  ret : TypeId;
  var_args : bool;
}.

Record StructType := mkStructType {
  sname : string;
  fields : list (string * TypeId);
}.

Record Variant := mkVariant { args : list TypeId }.

Record EnumType := mkEnumType {
  ename : string;
  variants : list Variant;
}.

Module Ty.
Inductive type :=
| Bool | I8 | I16 | I32 | I64 | F32 | F64
| Pointer (t : TypeId)
| Func (f : FuncType)
| Struct (s : StructType)
| Array (t : TypeId) (n : nat)
| Tuple (ts : list TypeId)
| Enum (e : EnumType)
| Unit.
End Ty.

Module TypeKind.
Inductive t := Scalar | Aggregate | Unit.
End TypeKind.

Module ScalarKind.
Inductive t := Int | Float | Pointer.
End ScalarKind.

(** Modelled from the spec: [Type::kind] of the missing IR module.
    "Scalar (numeric, pointer, function-value), Aggregate (struct, tuple,
    array, enum), Unit". *)
Definition kind (t : Ty.type) : TypeKind.t :=
  match t with
  | Ty.Bool | Ty.I8 | Ty.I16 | Ty.I32 | Ty.I64 | Ty.F32 | Ty.F64
  | Ty.Pointer _ | Ty.Func _ => TypeKind.Scalar
  | Ty.Struct _ | Ty.Array _ _ | Ty.Tuple _ | Ty.Enum _ => TypeKind.Aggregate
  | Ty.Unit => TypeKind.Unit
  end.

(** Modelled from the spec: [Type::scalar_kind] of the missing IR module
    ("ScalarKind: Int | Float | Pointer"); it panics on non-scalars. *)
Definition scalar_kind (t : Ty.type) : result ScalarKind.t :=
  match t with
  | Ty.Bool | Ty.I8 | Ty.I16 | Ty.I32 | Ty.I64 => Ok ScalarKind.Int
  | Ty.F32 | Ty.F64 => Ok ScalarKind.Float
  | Ty.Pointer _ | Ty.Func _ => Ok ScalarKind.Pointer
  | _ => Err "not a scalar type"
  end.

(** ** LLVM types and the x86-64 data layout *)

Inductive LLVMTypeRef :=
| LVoid
| LInt (bits : nat)
| LFloat
| LDouble
| LPointer (t : LLVMTypeRef)
| LFunction (ret : LLVMTypeRef) (params : list LLVMTypeRef) (var_args : bool)
| LStruct (elems : list LLVMTypeRef)          (* literal (anonymous) struct *)
| LArray (elem : LLVMTypeRef) (n : nat)
| LNamed (id : nat).                     (* named struct, see [named] *)

(** Named structs: their name and body ([None] while opaque). *)
Definition named_table := list (string * option (list LLVMTypeRef)).

Definition align_to (x a : Z) : Z := ((x + a - 1) / a) * a.

(** Size and alignment of a list of struct fields laid out in order. *)
Fixpoint struct_size_align (sa : LLVMTypeRef -> option (Z * Z))
    (fs : list LLVMTypeRef) (off al : Z) : option (Z * Z) :=
  match fs with
  | [] => Some (align_to off al, al)
  | f :: fs' =>
      match sa f with
      | Some (s, a) => struct_size_align sa fs' (align_to off a + s) (Z.max al a)
      | None => None
      end
  end.

(** Offset of field [i] of a struct. *)
Fixpoint struct_field_offset (sa : LLVMTypeRef -> option (Z * Z))
    (fs : list LLVMTypeRef) (i : nat) (off : Z) : option Z :=
  match fs, i with
  | [], _ => None
  | f :: fs', O =>
      match sa f with Some (_, a) => Some (align_to off a) | None => None end
  | f :: fs', S i' =>
      match sa f with
      | Some (s, a) => struct_field_offset sa fs' i' (align_to off a + s)
      | None => None
      end
  end.

(** Size and alignment of a type.  Literal types are measured
    structurally; [fuel] bounds the nesting of named structs, which is at
    most the number of named structs when their bodies are well founded. *)
Fixpoint size_align (fuel : nat) (named : named_table) (t : LLVMTypeRef)
    {struct fuel} : option (Z * Z) :=
  let fix go (t : LLVMTypeRef) : option (Z * Z) :=
    match t with
    | LInt 1 | LInt 8 => Some (1, 1)%Z
    | LInt 16 => Some (2, 2)%Z
    | LInt 32 => Some (4, 4)%Z
    | LInt 64 => Some (8, 8)%Z
    | LInt _ => None
    | LFloat => Some (4, 4)%Z
    | LDouble => Some (8, 8)%Z
    | LPointer _ => Some (8, 8)%Z
    | LStruct fs => struct_size_align go fs 0 1
    | LArray e n =>
        match go e with
        | Some (s, a) => Some (Z.of_nat n * s, a)%Z
        | None => None
        end
    | LNamed k =>
        match fuel with
        | O => None
        | S f =>
            match nth_error named k with
            | Some (_, Some fs) => struct_size_align (size_align f named) fs 0 1
            | _ => None
            end
        end
    | LVoid | LFunction _ _ _ => None
    end in
  go t.

Definition layout (named : named_table) : LLVMTypeRef -> option (Z * Z) :=
  size_align (S (List.length named)) named.

(** [LLVMStoreSizeOfType] for the x86-64 data layout; [None] for unsized
    (opaque, void, function) types, on which LLVM aborts. *)
Definition store_size (named : named_table) (t : LLVMTypeRef) : option Z :=
  option_map fst (layout named t).

(** Body of a struct type, literal or named. *)
Definition struct_body (named : named_table) (t : LLVMTypeRef) : option (list LLVMTypeRef) :=
  match t with
  | LStruct fs => Some fs
  | LNamed k =>
      match nth_error named k with Some (_, b) => b | None => None end
  | _ => None
  end.

(** Byte offset of field [i] of struct type [t] ([LLVMBuildStructGEP2]). *)
Definition field_offset (named : named_table) (t : LLVMTypeRef) (i : nat) : option Z :=
  match struct_body named t with
  | Some fs => struct_field_offset (layout named) fs i 0
  | None => None
  end.

(** [LLVMStructCreateNamed]: a fresh opaque named struct. *)
Definition struct_create_named (named : named_table) (name : string)
    : LLVMTypeRef * named_table :=
  (LNamed (List.length named), named ++ [(name, None)]).

(** [LLVMStructSetBody]. *)
Definition struct_set_body (named : named_table) (t : LLVMTypeRef)
    (body : list LLVMTypeRef) : result named_table :=
  match t with
  | LNamed k =>
      match nth_error named k with
      | Some (n, _) =>
          Ok (firstn k named ++ [(n, Some body)] ++ skipn (S k) named)
      | None => Err "unknown named struct"
      end
  | _ => Err "not a named struct"
  end.

Notation "' p <-? m ;; k" := (rbind m (fun x => match x with p => k end))
  (at level 61, p pattern, m at next level, right associativity).

(** ** TypeBuilder (llvm.rs, [struct TypeBuilder]) *)

Module TypeBuilder.

Record t := mk {
  types : list Ty.type;
  lltypes : list LLVMTypeRef;
  named : named_table;     (* the named structs of the LLVM context *)
}.

Definition irtype (tb : t) (ty : TypeId) : result Ty.type :=
  nth_or_panic (types tb) ty.

Definition lltype (tb : t) (ty : TypeId) : result LLVMTypeRef :=
  nth_or_panic (lltypes tb) ty.

(** The parameter loop of [TypeBuilder::func_type]. *)
Fixpoint func_params (types : list Ty.type) (lltypes : list LLVMTypeRef)
    (ps : list TypeId) : result (list LLVMTypeRef) :=
  match ps with
  | [] => Ok []
  | ty :: ps' =>
      irty <-? nth_or_panic types ty ;;
      match kind irty with
      | TypeKind.Aggregate =>
          sty <-? nth_or_panic lltypes ty ;;
          rest <-? func_params types lltypes ps' ;;
          Ok (LPointer sty :: rest)
      | TypeKind.Unit => func_params types lltypes ps'
      | TypeKind.Scalar =>
          l <-? nth_or_panic lltypes ty ;;
          rest <-? func_params types lltypes ps' ;;
          Ok (l :: rest)
      end
  end.

(** [TypeBuilder::func_type], on the type tables [types] and [lltypes]. *)
Definition func_type (types : list Ty.type) (lltypes : list LLVMTypeRef)
    (func : FuncType) : result LLVMTypeRef :=
  params' <-? func_params types lltypes (params func) ;;
  irret <-? nth_or_panic types (ret func) ;;
  match kind irret with
  | TypeKind.Aggregate =>
      r <-? nth_or_panic lltypes (ret func) ;;
      let sret := LPointer r in
      Ok (LFunction LVoid (params' ++ [sret]) (var_args func))
  | TypeKind.Unit => Ok (LFunction LVoid params' (var_args func))
  | TypeKind.Scalar =>
      r <-? nth_or_panic lltypes (ret func) ;;
      Ok (LFunction r params' (var_args func))
  end.

(** [TypeBuilder::build_type]: returns the cached lowered type when
    [ty] is already in [lltypes], builds it otherwise.  Named structs
    created on the way are added to the context [named].  [fuel] bounds
    the recursion depth (the Rust code overflows its stack on a cyclic
    chain of pointers). *)
Fixpoint build_type (fuel : nat) (types : list Ty.type)
    (lltypes : list LLVMTypeRef) (named : named_table) (ty : TypeId)
    : result (LLVMTypeRef * named_table) :=
  match fuel with
  | O => Err "stack overflow"
  | S f =>
      match nth_error lltypes ty with
      | Some l => Ok (l, named)
      | None =>
          irty <-? nth_or_panic types ty ;;
          match irty with
          | Ty.Bool => Ok (LInt 1, named)
          | Ty.I8 => Ok (LInt 8, named)
          | Ty.I16 => Ok (LInt 16, named)
          | Ty.I32 => Ok (LInt 32, named)
          | Ty.I64 => Ok (LInt 64, named)
          | Ty.F32 => Ok (LFloat, named)
          | Ty.F64 => Ok (LDouble, named)
          | Ty.Pointer p =>
              '(l, named') <-? build_type f types lltypes named p ;;
              Ok (LPointer l, named')
          | Ty.Func fty =>
              l <-? func_type types lltypes fty ;;
              Ok (l, named)
          | Ty.Unit => Ok (LVoid, named)
          | Ty.Struct s => Ok (struct_create_named named (sname s))
          | Ty.Array e n =>
              '(l, named') <-? build_type f types lltypes named e ;;
              Ok (LArray l n, named')
          | Ty.Tuple elem_tys =>
              '(ls, named') <-?
                (fix go (ts : list TypeId) (nm : named_table) :=
                   match ts with
                   | [] => Ok ([], nm)
                   | t0 :: ts' =>
                       '(l, nm1) <-? build_type f types lltypes nm t0 ;;
                       '(ls, nm2) <-? go ts' nm1 ;;
                       Ok (l :: ls, nm2)
                   end) elem_tys named ;;
              Ok (LStruct ls, named')
          | Ty.Enum e => Ok (struct_create_named named (ename e))
          end
      end
  end.

(** [TypeBuilder::set_struct_body]. *)
Definition set_struct_body (tb : t) (id : TypeId) (sty : StructType)
    : result t :=
  l <-? lltype tb id ;;
  elem_types <-?
    (fix go (fs : list (string * TypeId)) : result (list LLVMTypeRef) :=
       match fs with
       | [] => Ok []
       | (_, ty) :: fs' => l <-? lltype tb ty ;; rest <-? go fs' ;; Ok (l :: rest)
       end) (fields sty) ;;
  named' <-? struct_set_body (named tb) l elem_types ;;
  Ok (mk (types tb) (lltypes tb) named').

(** The argument types of one variant, as [build_type] lowers them
    (the loop [for &arg in &variant.args]). *)
Fixpoint build_args (tb : t) (nm : named_table) (xs : list TypeId)
    : result (list LLVMTypeRef * named_table) :=
  match xs with
  | [] => Ok ([], nm)
  | a :: xs' =>
      '(l, nm1) <-? build_type (S (List.length (types tb))) (types tb)
                     (lltypes tb) nm a ;;
      '(ls, nm2) <-? build_args tb nm1 xs' ;;
      Ok (l :: ls, nm2)
  end.

(** The variant loop of [set_enum_body], keeping in [largest] the
    first variant record of maximal store size. *)
Fixpoint enum_largest (tb : t) (nm : named_table) (vs : list Variant)
    (largest : option (Z * LLVMTypeRef))
    : result (option (Z * LLVMTypeRef) * named_table) :=
  match vs with
  | [] => Ok (largest, nm)
  | variant :: vs' =>
      '(xargs, nm1) <-? build_args tb nm (args variant) ;;
      let ty := LStruct xargs in
      match store_size nm1 ty with
      | None => Err "LLVMStoreSizeOfType of an unsized type"
      | Some size =>
          let largest' :=
            match largest with
            | Some (n, other) => if (size <=? n)%Z then Some (n, other)
                                 else Some (size, ty)
            | None => Some (size, ty)
            end in
          enum_largest tb nm1 vs' largest'
      end
  end.

(** [TypeBuilder::set_enum_body]. *)
Definition set_enum_body (tb : t) (id : TypeId) (ety : EnumType) : result t :=
  enum_struct <-? lltype tb id ;;
  let tag_type := LInt 8 in
  '(largest, nm) <-? enum_largest tb (named tb) (variants ety) None ;;
  let fields := match largest with
                | Some (_, ty) => [ty; tag_type]
                | None => [tag_type]
                end in
  named' <-? struct_set_body nm enum_struct fields ;;
  Ok (mk (types tb) (lltypes tb) named').

(** [TypeBuilder::new]: placeholders for every type id first, then the
    struct and enum bodies. *)
Definition new (types : list Ty.type) : result t :=
  let fuel := S (List.length types) in
  '(lltypes, named) <-?
    (fix pass1 (ids : list TypeId) (acc : list LLVMTypeRef) (nm : named_table) :=
       match ids with
       | [] => Ok (acc, nm)
       | id :: ids' =>
           '(l, nm1) <-? build_type fuel types acc nm id ;;
           pass1 ids' (acc ++ [l]) nm1
       end) (seq 0 (List.length types)) [] [] ;;
  (fix pass2 (ids : list TypeId) (tb : t) :=
     match ids with
     | [] => Ok tb
     | id :: ids' =>
         match nth_error types id with
         | Some (Ty.Struct sty) => tb' <-? set_struct_body tb id sty ;; pass2 ids' tb'
         | Some (Ty.Enum ety) => tb' <-? set_enum_body tb id ety ;; pass2 ids' tb'
         | _ => pass2 ids' tb
         end
     end) (seq 0 (List.length types)) (mk types lltypes named).

End TypeBuilder.

(** ** IR expressions and statements (modelled from the spec's data
    model and from the [ExprKind] / [Stmt] arms matched in [llvm.rs]) *)

Inductive Unop := Deref | AddressOf.

Inductive Predicate := Eq | Ne | Ge | Le | Gt | Lt.

Inductive Binop := Add | Sub | Mul | Div | And | Shl | Shr | Cmp (p : Predicate).

Module ExprKind.
Inductive t :=
| Null
| Unit
| Integer (s : string)
| Float (s : string)
| Func (i : nat)
| Type_ (ty : TypeId)
| Unary (op : Unop) (e : Expr)
| Binary (op : Binop) (x y : Expr)
| String (s : string)
| Cast (e : Expr) (ty : TypeId)
| Bool (b : bool)
| Char (c : Z)
| Sizeof (ty : TypeId)
| EnumVariant (i : nat)
| EnumTag (e : Expr)
| Const (i : nat)
| Field (e : Expr) (i : nat)
| Index (p i : Expr)
| Local (i : nat)
| Param (i : nat)
| Call (func : Expr) (args : list Expr)
| Tuple (elems : list Expr)
| Struct (fields : list (nat * Expr))
| Array (elems : list Expr)
| EnumCall (variant : nat) (args : list Expr)
| EnumField (e : Expr) (variant : nat) (i : nat)
with Expr := mkExpr (ty : TypeId) (kind : t).

(** The fields of [struct Expr]. *)
Definition ty (e : Expr) : TypeId := match e with mkExpr t _ => t end.
Definition kind (e : Expr) : t := match e with mkExpr _ k => k end.
End ExprKind.
Import ExprKind (Expr, mkExpr, ty).

Inductive Stmt :=
| Assign (x y : Expr)
| Return (x : Expr)
| SExpr (x : Expr)                     (* [Stmt::Expr] *)
| If (cond : Expr) (body : list Stmt)
| While (cond : Expr) (body : list Stmt)
| For (init : list Stmt) (cond : Expr) (post : list Stmt) (body : list Stmt)
| Break
| Continue.

(** Induction on statements, with the nested statement lists. *)
Section StmtInd.
Variable P : Stmt -> Prop.
Hypothesis HAssign : forall x y, P (Assign x y).
Hypothesis HReturn : forall x, P (Return x).
Hypothesis HSExpr : forall x, P (SExpr x).
Hypothesis HIf : forall c b, Forall P b -> P (If c b).
Hypothesis HWhile : forall c b, Forall P b -> P (While c b).
Hypothesis HFor : forall i c p b, Forall P i -> Forall P p -> Forall P b -> P (For i c p b).
Hypothesis HBreak : P Break.
Hypothesis HContinue : P Continue.

Fixpoint Stmt_ind2 (st : Stmt) : P st :=
  let fix all (ss : list Stmt) : Forall P ss :=
    match ss with
    | [] => Forall_nil P
    | x :: ss' => Forall_cons x (Stmt_ind2 x) (all ss')
    end in
  match st with
  | Assign x y => HAssign x y
  | Return x => HReturn x
  | SExpr x => HSExpr x
  | If c b => HIf c b (all b)
  | While c b => HWhile c b (all b)
  | For i c p b => HFor i c p b (all i) (all p) (all b)
  | Break => HBreak
  | Continue => HContinue
  end.
End StmtInd.

Record FuncDecl := mkFuncDecl { fname : string; fty : FuncType }.

Record FuncBody := mkFuncBody {
  id : nat;
  locals : list TypeId;
  body : list Stmt;                    (* [body.body : Block] *)
}.

(** ** LLVM values, instructions and basic blocks *)

Inductive LLVMValueRef :=
| VReg (n : nat)                       (* result of instruction number [n] *)
| VParam (i : nat)                     (* [LLVMGetParam] *)
| VFunc (i : nat)                      (* a function of the module *)
| VGlobalConst (i : nat)               (* a global constant of the module *)
| VConstInt (t : LLVMTypeRef) (z : Z)
| VConstIntOfString (t : LLVMTypeRef) (s : string)
| VConstRealOfString (t : LLVMTypeRef) (s : string)
| VConstNull (t : LLVMTypeRef)
| VSizeOf (t : LLVMTypeRef).

Inductive ArithOp :=
| OAdd | OSub | OMul | OSDiv | OAnd | OShl | OLShr
| OFAdd | OFSub | OFMul | OFDiv.

Inductive IntPredicate := IntEQ | IntNE | IntSGE | IntSLE | IntSGT | IntSLT.
Inductive RealPredicate := RealOEQ | RealONE | RealOGE | RealOLE | RealOGT | RealOLT.

Inductive CastOp := OSExt | OTrunc | OSIToFP | OFPToSI | OFPExt | OFPTrunc | OPointerCast.

(** Non-terminator instructions. *)
Inductive llinst :=
| Alloca (t : LLVMTypeRef)
| Load (t : LLVMTypeRef) (p : LLVMValueRef)
| Store (v p : LLVMValueRef)
| StructGEP (t : LLVMTypeRef) (p : LLVMValueRef) (i : nat)
| GEP (t : LLVMTypeRef) (p : LLVMValueRef) (idx : list LLVMValueRef)
| InBoundsGEP (t : LLVMTypeRef) (p : LLVMValueRef) (idx : list LLVMValueRef)
| CastI (op : CastOp) (v : LLVMValueRef) (t : LLVMTypeRef)
| Call (fnty : LLVMTypeRef) (f : LLVMValueRef) (args : list LLVMValueRef)
| Arith (op : ArithOp) (x y : LLVMValueRef)
| ICmp (p : IntPredicate) (x y : LLVMValueRef)
| FCmp (p : RealPredicate) (x y : LLVMValueRef)
| PtrDiff (x y : LLVMValueRef)
| GlobalStringPtr (s : string).

(** Terminators; a branch target is a basic block, by its index in the
    function. *)
Inductive llterm :=
| Br (b : nat)
| CondBr (c : LLVMValueRef) (t e : nat)
| Ret (v : LLVMValueRef)
| RetVoid.

Inductive item :=
| Inst (r : nat) (i : llinst)            (* instruction defining [VReg r] *)
| Term (t : llterm).

Definition LLVMBasicBlock := list item.

(** [LLVMGetBasicBlockTerminator]: the last instruction, when it is a
    terminator. *)
Definition get_terminator (bb : LLVMBasicBlock) : option llterm :=
  match rev bb with
  | Term t :: _ => Some t
  | _ => None
  end.

(** [LLVMGetElementType] (sequential types only). *)
Definition get_element_type (t : LLVMTypeRef) : result LLVMTypeRef :=
  match t with
  | LPointer e | LArray e _ => Ok e
  | _ => Err "LLVMGetElementType of a non-sequential type"
  end.

(** [unescape] of llvm.rs: drop the quotes, resolve [\n], [\t], [\\]. *)
Fixpoint unescape_go (s : string) (backslash : bool) : string :=
  match s with
  | EmptyString => EmptyString
  | String.String c s' =>
      let escaped := backslash in
      if (Ascii.eqb c (Ascii.ascii_of_nat 92) && negb escaped)%bool then unescape_go s' true
      else
        let c' := if escaped && Ascii.eqb c "n"%char then Ascii.ascii_of_nat 10
                  else if escaped && Ascii.eqb c "t"%char then Ascii.ascii_of_nat 9
                  else c in
        String.String c' (unescape_go s' false)
  end.

Definition unescape (s : string) : string :=
  unescape_go (substring 1 (String.length s - 2) s) false.

(** ** Expression lowering (llvm.rs, [impl StmtBuilder]) *)

Module Value.
Inductive t := Unit | Scalar (v : LLVMValueRef) | Aggregate (p : LLVMValueRef).
End Value.

(** The cast matrix of [build_scalar] ([ExprKind::Cast]): [Ok None] is
    the identity arm (the value itself), [Ok (Some op)] the builder call
    emitted, [Err] the [unimplemented!] arm. *)
Definition cast_op (src dst : Ty.type) : result (option CastOp) :=
  match src, dst with
  | Ty.I8, Ty.I8 | Ty.I16, Ty.I16 | Ty.I32, Ty.I32 | Ty.I64, Ty.I64
  | Ty.F32, Ty.F32 | Ty.F64, Ty.F64 => Ok None
  | Ty.I8, Ty.I16 | Ty.I8, Ty.I32 | Ty.I8, Ty.I64 | Ty.I16, Ty.I32
  | Ty.I16, Ty.I64 | Ty.I32, Ty.I64 => Ok (Some OSExt)
  | Ty.I64, Ty.I32 | Ty.I64, Ty.I16 | Ty.I64, Ty.I8 | Ty.I32, Ty.I16
  | Ty.I32, Ty.I8 | Ty.I16, Ty.I8 => Ok (Some OTrunc)
  | Ty.I32, Ty.F32 | Ty.I32, Ty.F64 => Ok (Some OSIToFP)
  | Ty.F32, Ty.I32 => Ok (Some OFPToSI)
  | Ty.F32, Ty.F64 => Ok (Some OFPExt)
  | Ty.F64, Ty.F32 => Ok (Some OFPTrunc)
  | Ty.Pointer _, Ty.Pointer _ => Ok (Some OPointerCast)
  | _, _ => Err "unimplemented cast"
  end.

Definition int_predicate (p : Predicate) : IntPredicate :=
  match p with
  | Eq => IntEQ | Ne => IntNE | Ge => IntSGE | Le => IntSLE | Gt => IntSGT | Lt => IntSLT
  end.

Definition real_predicate (p : Predicate) : RealPredicate :=
  match p with
  | Eq => RealOEQ | Ne => RealONE | Ge => RealOGE | Le => RealOLE | Gt => RealOGT
  | Lt => RealOLT
  end.

Module StmtBuilder.

(** The read-only part of [struct StmtBuilder]. *)
Record Env := mkEnv {
  tybld : TypeBuilder.t;
  llfuncs : list LLVMValueRef;
  llconsts : list LLVMValueRef;
  locals : list LLVMValueRef;
  sret : option LLVMValueRef;
}.

(** Instruction emission at the builder's position: a state monad over
    the next register number and the instructions emitted so far. *)
Definition EM (A : Type) : Type :=
  nat -> list (nat * llinst) -> result (A * nat * list (nat * llinst)).

Definition ret {A} (a : A) : EM A := fun n out => Ok (a, n, out).

Definition bind {A B} (m : EM A) (k : A -> EM B) : EM B :=
  fun n out =>
    match m n out with
    | Ok (a, n', out') => k a n' out'
    | Err e => Err e
    end.

Definition fail {A} (msg : string) : EM A := fun _ _ => Err msg.

Definition lift {A} (r : result A) : EM A :=
  fun n out => match r with Ok a => Ok (a, n, out) | Err e => Err e end.

Definition emit (i : llinst) : EM LLVMValueRef :=
  fun n out => Ok (VReg n, S n, out ++ [(n, i)]).

Notation "x <- m ;; k" := (bind m (fun x => k))
  (at level 61, m at next level, right associativity).
Notation "' p <- m ;; k" := (bind m (fun x => match x with p => k end))
  (at level 61, p pattern, m at next level, right associativity).

Section Lowering.
Variable env : Env.

Definition irtype (t : TypeId) : EM Ty.type := lift (TypeBuilder.irtype (tybld env) t).
Definition lltype (t : TypeId) : EM LLVMTypeRef := lift (TypeBuilder.lltype (tybld env) t).

(** [copy]. *)
Definition copy (t : TypeId) (src dst : LLVMValueRef) : EM unit :=
  irty <- irtype t ;;
  match kind irty with
  | TypeKind.Unit => ret tt
  | TypeKind.Aggregate | TypeKind.Scalar =>
      l <- lltype t ;;
      v <- emit (Load l src) ;;
      _ <- emit (Store v dst) ;;
      ret tt
  end.

(** The record type of the arguments of variant [variant] of the enum
    [x.ty] ([variant_ty] in [build_place] and [build_aggregate]). *)
Definition variant_ty (enty : EnumType) (variant : nat) : EM LLVMTypeRef :=
  v <- lift (nth_or_panic (variants enty) variant) ;;
  xargs <- (fix go (xs : list TypeId) : EM (list LLVMTypeRef) :=
              match xs with
              | [] => ret []
              | a :: xs' => l <- lltype a ;; ls <- go xs' ;; ret (l :: ls)
              end) (args v) ;;
  ret (LStruct xargs).

(** The argument loop of [build_call]: each argument is lowered with no
    destination; unit values are dropped, aggregates passed by address,
    scalars by value. *)
Fixpoint call_args (lower : Expr -> EM Value.t) (xs : list Expr)
    : EM (list LLVMValueRef) :=
  match xs with
  | [] => ret []
  | arg :: xs' =>
      a <- lower arg ;;
      rest <- call_args lower xs' ;;
      match a with
      | Value.Unit => ret rest
      | Value.Aggregate p => ret (p :: rest)
      | Value.Scalar v => ret (v :: rest)
      end
  end.

Definition enum_of (t : Ty.type) : EM EnumType :=
  match t with Ty.Enum enty => ret enty | _ => fail "explicit panic" end.

(** [build_place], [build_expr], [build_call], [build_unit],
    [build_aggregate] and [build_scalar], mutually recursive as in the
    source.  Several of them call one another on the same expression, so
    the recursion is bounded by [fuel]. *)
Fixpoint build_place (fuel : nat) (e : Expr) {struct fuel} : EM LLVMValueRef :=
  match fuel with
  | O => fail "out of fuel"
  | S f =>
  match ExprKind.kind e with
  | ExprKind.Local i => lift (nth_or_panic (locals env) i)
  | ExprKind.Param i => ret (VParam i)
  | ExprKind.Index p i =>
      ptr <- lltype (ty p) ;;
      elem <- lift (get_element_type ptr) ;;
      irty <- irtype (ty p) ;;
      p' <- match kind irty with
            | TypeKind.Aggregate => build_place f p
            | TypeKind.Scalar =>
                sk <- lift (scalar_kind irty) ;;
                match sk with
                | ScalarKind.Pointer => build_scalar f p
                | _ => fail "assertion failed"
                end
            | TypeKind.Unit => fail "explicit panic"
            end ;;
      i' <- build_scalar f i ;;
      emit (GEP elem p' [i'])
  | ExprKind.Field x i =>
      irty <- irtype (ty x) ;;
      '(sty_id, p) <- match irty with
                      | Ty.Tuple _ | Ty.Struct _ => p <- build_place f x ;; ret (ty x, p)
                      | Ty.Pointer t => p <- build_scalar f x ;; ret (t, p)
                      | _ => fail "explicit panic"
                      end ;;
      sty <- lltype sty_id ;;
      emit (StructGEP sty p i)
  | ExprKind.Unary Deref p => build_scalar f p
  | ExprKind.Func i => lift (nth_or_panic (llfuncs env) i)
  | ExprKind.EnumField x variant i =>
      irty <- irtype (ty x) ;;
      enty <- enum_of irty ;;
      vty <- variant_ty enty variant ;;
      ety <- lltype (ty x) ;;
      enum_ptr <- build_place f x ;;
      body_ptr <- emit (StructGEP ety enum_ptr 0) ;;
      variant_ptr <- emit (CastI OPointerCast body_ptr (LPointer vty)) ;;
      emit (StructGEP vty variant_ptr i)
  | _ => fail "build place: unimplemented"
  end
  end

with build_expr (fuel : nat) (e : Expr) (dst : option LLVMValueRef) {struct fuel}
    : EM Value.t :=
  match fuel with
  | O => fail "out of fuel"
  | S f =>
      irty <- irtype (ty e) ;;
      match kind irty with
      | TypeKind.Unit =>
          _ <- build_unit f e ;;
          ret Value.Unit
      | TypeKind.Aggregate =>
          p <- match dst with
               | Some p => ret p
               | None => sty <- lltype (ty e) ;; emit (Alloca sty)
               end ;;
          _ <- build_aggregate f e p ;;
          ret (Value.Aggregate p)
      | TypeKind.Scalar =>
          v <- build_scalar f e ;;
          _ <- match dst with
               | Some d => emit (Store v d)
               | None => ret v
               end ;;
          ret (Value.Scalar v)
      end
  end

with build_call (fuel : nat) (func : Expr) (args : list Expr)
    (sret : option LLVMValueRef) {struct fuel} : EM LLVMValueRef :=
  match fuel with
  | O => fail "out of fuel"
  | S f =>
      irty <- irtype (ty func) ;;
      fnty <- match irty with
              | Ty.Func _ => ret (ty func)
              | Ty.Pointer fnty => ret fnty
              | _ => fail "explicit panic"
              end ;;
      fnty <- lltype fnty ;;
      fv <- build_scalar f func ;;
      args2 <- call_args (fun arg => build_expr f arg None) args ;;
      let args2 := match sret with
                   | Some s => args2 ++ [s]
                   | None => args2
                   end in
      emit (Call fnty fv args2)
  end

with build_unit (fuel : nat) (e : Expr) {struct fuel} : EM unit :=
  match fuel with
  | O => fail "out of fuel"
  | S f =>
      match ExprKind.kind e with
      | ExprKind.Unit => ret tt
      | ExprKind.Call func args => _ <- build_call f func args None ;; ret tt
      | _ => fail "expected ()"
      end
  end

with build_aggregate (fuel : nat) (e : Expr) (dst : LLVMValueRef) {struct fuel}
    : EM unit :=
  match fuel with
  | O => fail "out of fuel"
  | S f =>
  match ExprKind.kind e with
  | ExprKind.Tuple elems =>
      tuple_ty <- lltype (ty e) ;;
      (fix go (i : nat) (xs : list Expr) : EM unit :=
         match xs with
         | [] => ret tt
         | x :: xs' =>
             d <- emit (StructGEP tuple_ty dst i) ;;
             _ <- build_expr f x (Some d) ;;
             go (S i) xs'
         end) 0 elems
  | ExprKind.Struct fs =>
      sty <- lltype (ty e) ;;
      (fix go (xs : list (nat * Expr)) : EM unit :=
         match xs with
         | [] => ret tt
         | (i, x) :: xs' =>
             d <- emit (StructGEP sty dst i) ;;
             _ <- build_expr f x (Some d) ;;
             go xs'
         end) fs
  | ExprKind.Array elems =>
      aty <- lltype (ty e) ;;
      (fix go (i : nat) (xs : list Expr) : EM unit :=
         match xs with
         | [] => ret tt
         | x :: xs' =>
             let z := VConstInt (LInt 32) 0 in
             let iv := VConstInt (LInt 32) (Z.of_nat i) in
             d <- emit (InBoundsGEP aty dst [z; iv]) ;;
             _ <- build_expr f x (Some d) ;;
             go (S i) xs'
         end) 0 elems
  | ExprKind.Call func args => _ <- build_call f func args (Some dst) ;; ret tt
  | ExprKind.Param i => copy (ty e) (VParam i) dst
  | ExprKind.Unary Deref p =>
      p' <- build_scalar f p ;;
      copy (ty e) p' dst
  | ExprKind.EnumCall variant args =>
      ety <- lltype (ty e) ;;
      let tag_index := match args with [] => 0 | _ => 1 end in
      tag_ptr <- emit (StructGEP ety dst tag_index) ;;
      let tag_value := VConstInt (LInt 8) (Z.of_nat variant) in
      _ <- emit (Store tag_value tag_ptr) ;;
      match args with
      | [] => ret tt
      | _ =>
          irty <- irtype (ty e) ;;
          enty <- enum_of irty ;;
          vty <- variant_ty enty variant ;;
          body_ptr <- emit (StructGEP ety dst 0) ;;
          variant_ptr <- emit (CastI OPointerCast body_ptr (LPointer vty)) ;;
          (fix go (i : nat) (xs : list Expr) : EM unit :=
             match xs with
             | [] => ret tt
             | arg :: xs' =>
                 arg_ptr <- emit (StructGEP vty variant_ptr i) ;;
                 _ <- build_expr f arg (Some arg_ptr) ;;
                 go (S i) xs'
             end) 0 args
      end
  | ExprKind.EnumField _ _ _ => fail "unimplemented"
  | ExprKind.Null | ExprKind.Unit | ExprKind.Integer _ | ExprKind.Float _
  | ExprKind.Func _ | ExprKind.Type_ _ | ExprKind.Unary _ _ | ExprKind.Binary _ _ _
  | ExprKind.String _ | ExprKind.Cast _ _ | ExprKind.Bool _ | ExprKind.Char _
  | ExprKind.Sizeof _ | ExprKind.EnumVariant _ | ExprKind.EnumTag _ =>
      fail "got scalar expression in aggregate place"
  | ExprKind.Const _ => fail "unimplemented"
  | ExprKind.Field _ _ | ExprKind.Index _ _ | ExprKind.Local _ =>
      p <- build_place f e ;;
      copy (ty e) p dst
  end
  end

with build_scalar (fuel : nat) (e : Expr) {struct fuel} : EM LLVMValueRef :=
  match fuel with
  | O => fail "out of fuel"
  | S f =>
  match ExprKind.kind e with
  | ExprKind.Index _ _ | ExprKind.Field _ _ | ExprKind.EnumField _ _ _ =>
      p <- build_place f e ;;
      elem_type <- lltype (ty e) ;;
      emit (Load elem_type p)
  | ExprKind.Float s => l <- lltype (ty e) ;; ret (VConstRealOfString l s)
  | ExprKind.Integer s => l <- lltype (ty e) ;; ret (VConstIntOfString l s)
  | ExprKind.Local i =>
      l <- lltype (ty e) ;;
      p <- lift (nth_or_panic (locals env) i) ;;
      emit (Load l p)
  | ExprKind.Param i => ret (VParam i)
  | ExprKind.Func i => lift (nth_or_panic (llfuncs env) i)
  | ExprKind.Binary op x y =>
      irty <- irtype (ty x) ;;
      k <- lift (scalar_kind irty) ;;
      x' <- build_scalar f x ;;
      y' <- build_scalar f y ;;
      match op, k with
      | Add, ScalarKind.Int => emit (Arith OAdd x' y')
      | Sub, ScalarKind.Int => emit (Arith OSub x' y')
      | Mul, ScalarKind.Int => emit (Arith OMul x' y')
      | Div, ScalarKind.Int => emit (Arith OSDiv x' y')
      | And, ScalarKind.Int => emit (Arith OAnd x' y')
      | Shl, ScalarKind.Int => emit (Arith OShl x' y')
      | Shr, ScalarKind.Int => emit (Arith OLShr x' y')
      | Add, ScalarKind.Float => emit (Arith OFAdd x' y')
      | Sub, ScalarKind.Float => emit (Arith OFSub x' y')
      | Mul, ScalarKind.Float => emit (Arith OFMul x' y')
      | Div, ScalarKind.Float => emit (Arith OFDiv x' y')
      | Add, ScalarKind.Pointer =>
          ptr <- lltype (ty e) ;;
          elem <- lift (get_element_type ptr) ;;
          emit (GEP elem x' [y'])
      | Sub, ScalarKind.Pointer => emit (PtrDiff x' y')
      | Cmp pred, ScalarKind.Float => emit (FCmp (real_predicate pred) x' y')
      | Cmp pred, _ => emit (ICmp (int_predicate pred) x' y')
      | _, _ => fail "unimplemented binary operator"
      end
  | ExprKind.String s => emit (GlobalStringPtr (unescape s))
  | ExprKind.Call func args => build_call f func args None
  | ExprKind.Cast x t =>
      dst_ty <- irtype t ;;
      src_ty <- irtype (ty x) ;;
      dst_llty <- lltype t ;;
      v <- build_scalar f x ;;
      op <- lift (cast_op src_ty dst_ty) ;;
      match op with
      | None => ret v
      | Some op => emit (CastI op v dst_llty)
      end
  | ExprKind.Bool true => ret (VConstInt (LInt 1) 1)
  | ExprKind.Bool false => ret (VConstInt (LInt 1) 0)
  | ExprKind.Unary AddressOf x => build_place f x
  | ExprKind.Unary Deref p =>
      l <- lltype (ty e) ;;
      p' <- build_scalar f p ;;
      emit (Load l p')
  | ExprKind.Sizeof t => l <- lltype t ;; ret (VSizeOf l)
  | ExprKind.Const i => lift (nth_or_panic (llconsts env) i)
  | ExprKind.Null => l <- lltype (ty e) ;; ret (VConstNull l)
  | ExprKind.Char c => l <- lltype (ty e) ;; ret (VConstInt l c)
  | ExprKind.EnumVariant i =>
      irty <- irtype (ty e) ;;
      match irty with
      | Ty.I8 => l <- lltype (ty e) ;; ret (VConstInt l (Z.of_nat i))
      | _ => fail "assertion failed"
      end
  | ExprKind.EnumTag en =>
      p <- build_place f en ;;
      enty <- lltype (ty en) ;;
      tag_ptr <- emit (StructGEP enty p 1) ;;
      emit (Load (LInt 8) tag_ptr)
  | _ => fail "expected scalar"
  end
  end.

End Lowering.

(** Fuel for the lowering of one expression: four nested calls of the
    builder per node of the expression are enough. *)
Fixpoint expr_size (e : Expr) : nat :=
  match e with
  | mkExpr _ k =>
      match k with
      | ExprKind.Unary _ x | ExprKind.Cast x _ | ExprKind.EnumTag x
      | ExprKind.Field x _ | ExprKind.EnumField x _ _ => S (expr_size x)
      | ExprKind.Binary _ x y | ExprKind.Index x y => S (expr_size x + expr_size y)
      | ExprKind.Call x xs =>
          S (expr_size x + (fix go l := match l with
                                       | [] => 0
                                       | y :: l' => expr_size y + go l'
                                       end) xs)
      | ExprKind.Tuple xs | ExprKind.Array xs | ExprKind.EnumCall _ xs =>
          S ((fix go l := match l with
                          | [] => 0
                          | y :: l' => expr_size y + go l'
                          end) xs)
      | ExprKind.Struct fs =>
          S ((fix go l := match l with
                          | [] => 0
                          | (_, y) :: l' => expr_size y + go l'
                          end) fs)
      | _ => 1
      end
  end.

Definition expr_fuel (e : Expr) : nat := 4 * expr_size e + 4.

(** ** Statement lowering *)

(** The mutable part of [struct StmtBuilder], with the function under
    construction: its basic blocks (by index), the current block, the
    next register number, and the two target stacks (the head of the
    list is the top of the Rust [Vec]). *)
Record State := mkState {
  blocks : list LLVMBasicBlock;
  block : nat;
  next : nat;
  break_dest : list nat;
  continue_dest : list nat;
}.

Fixpoint modify_nth {A} (i : nat) (f : A -> A) (l : list A) : list A :=
  match l, i with
  | [], _ => []
  | x :: l', O => f x :: l'
  | x :: l', S i' => x :: modify_nth i' f l'
  end.

(** [LLVMAppendBasicBlock]. *)
Definition append_block (s : State) : nat * State :=
  (List.length (blocks s),
   mkState (blocks s ++ [[]]) (block s) (next s) (break_dest s) (continue_dest s)).

(** [position_at_end]. *)
Definition position_at_end (b : nat) (s : State) : State :=
  mkState (blocks s) b (next s) (break_dest s) (continue_dest s).

(** A terminator built at the end of the current block. *)
Definition build_term (t : llterm) (s : State) : State :=
  mkState (modify_nth (block s) (fun bb => bb ++ [Term t]) (blocks s))
    (block s) (next s) (break_dest s) (continue_dest s).

Definition current (s : State) : LLVMBasicBlock := nth (block s) (blocks s) [].

Definition push_dests (brk cont : nat) (s : State) : State :=
  mkState (blocks s) (block s) (next s) (brk :: break_dest s) (cont :: continue_dest s).

Definition pop_dests (s : State) : State :=
  mkState (blocks s) (block s) (next s) (tl (break_dest s)) (tl (continue_dest s)).

(** Runs an expression lowering at the end of the current block. *)
Definition run_expr {A} (m : EM A) (s : State) : result (A * State) :=
  match m (next s) [] with
  | Ok (a, n, out) =>
      Ok (a, mkState (modify_nth (block s)
                        (fun bb => bb ++ map (fun '(r, i) => Inst r i) out) (blocks s))
               (block s) n (break_dest s) (continue_dest s))
  | Err e => Err e
  end.

(** [build_block]: the statements in order. *)
Fixpoint build_block_with (f : Stmt -> State -> result State)
    (ss : list Stmt) (s : State) : result State :=
  match ss with
  | [] => Ok s
  | st :: ss' => s' <-? f st s ;; build_block_with f ss' s'
  end.

Section Statements.
Variable env : Env.

(** [build_stmt]. *)
Fixpoint build_stmt (st : Stmt) (s : State) {struct st} : result State :=
  match st with
  | Break =>
      match break_dest s with
      | b :: _ => Ok (build_term (Br b) s)
      | [] => Err "can't break outside of loop"
      end
  | Continue =>
      match continue_dest s with
      | b :: _ => Ok (build_term (Br b) s)
      | [] => Err "can't continue outside of loop"
      end
  | For init cond post body =>
      s1 <-? build_block_with build_stmt init s ;;
      let '(head, s2) := append_block s1 in
      let '(then_, s3) := append_block s2 in
      let '(tail, s4) := append_block s3 in
      let '(done, s5) := append_block s4 in
      let s6 := build_term (Br head) s5 in
      let s7 := position_at_end head s6 in
      '(c, s8) <-? run_expr (build_scalar env (expr_fuel cond) cond) s7 ;;
      let s9 := build_term (CondBr c then_ done) s8 in
      let s10 := push_dests done tail (position_at_end then_ s9) in
      s11 <-? build_block_with build_stmt body s10 ;;
      let s12 := pop_dests s11 in
      let s13 := match get_terminator (current s12) with
                 | None => build_term (Br tail) s12
                 | Some _ => s12
                 end in
      let s14 := position_at_end tail s13 in
      s15 <-? build_block_with build_stmt post s14 ;;
      let s16 := build_term (Br head) s15 in
      Ok (position_at_end done s16)
  | While cond body =>
      let '(head, s1) := append_block s in
      let '(then_, s2) := append_block s1 in
      let '(done, s3) := append_block s2 in
      let s4 := build_term (Br head) s3 in
      let s5 := position_at_end head s4 in
      '(c, s6) <-? run_expr (build_scalar env (expr_fuel cond) cond) s5 ;;
      let s7 := build_term (CondBr c then_ done) s6 in
      let s8 := push_dests done head (position_at_end then_ s7) in
      s9 <-? build_block_with build_stmt body s8 ;;
      let s10 := pop_dests s9 in
      let s11 := match get_terminator (current s10) with
                 | None => build_term (Br head) s10
                 | Some _ => s10
                 end in
      Ok (position_at_end done s11)
  | If cond body =>
      '(c, s1) <-? run_expr (build_scalar env (expr_fuel cond) cond) s ;;
      let '(then_, s2) := append_block s1 in
      let '(done, s3) := append_block s2 in
      let s4 := build_term (CondBr c then_ done) s3 in
      let s5 := position_at_end then_ s4 in
      s6 <-? build_block_with build_stmt body s5 ;;
      let s7 := match get_terminator (current s6) with
                | None => build_term (Br done) s6
                | Some _ => s6
                end in
      Ok (position_at_end done s7)
  | Assign x y =>
      '(_, s1) <-? run_expr (p <- build_place env (expr_fuel x) x ;;
                             build_expr env (expr_fuel y) y (Some p)) s ;;
      Ok s1
  | Return x =>
      '(v, s1) <-? run_expr (build_expr env (expr_fuel x) x (sret env)) s ;;
      match v with
      | Value.Unit => Ok (build_term RetVoid s1)
      | Value.Aggregate _ => Ok (build_term RetVoid s1)
      | Value.Scalar v => Ok (build_term (Ret v) s1)
      end
  | SExpr x =>
      '(_, s1) <-? run_expr (build_expr env (expr_fuel x) x None) s ;;
      Ok s1
  end.

Definition build_block (ss : list Stmt) (s : State) : result State :=
  build_block_with build_stmt ss s.

End Statements.
End StmtBuilder.

(** ** [build_func_body] *)

Definition last_param (fnty : LLVMTypeRef) : LLVMValueRef :=
  match fnty with
  | LFunction _ ps _ => VParam (List.length ps - 1)
  | _ => VParam 0
  end.

(** The allocas of the local slots, in the entry block. *)
Fixpoint alloca_locals (tb : TypeBuilder.t) (tys : list TypeId)
    : StmtBuilder.EM (list LLVMValueRef) :=
  match tys with
  | [] => StmtBuilder.ret []
  | t :: tys' =>
      StmtBuilder.bind (StmtBuilder.lift (TypeBuilder.lltype tb t)) (fun l =>
      StmtBuilder.bind (StmtBuilder.emit (Alloca l)) (fun p =>
      StmtBuilder.bind (alloca_locals tb tys') (fun ps =>
      StmtBuilder.ret (p :: ps))))
  end.

(** [build_func_body] up to and including [b.build_block(&body.body)]:
    the entry block with the allocas of the locals, then the statements;
    the result is the builder's state. *)
Definition func_body_state (tb : TypeBuilder.t) (llfuncs llconsts : list LLVMValueRef)
    (func : FuncDecl) (fb : FuncBody) : result StmtBuilder.State :=
  _ <-? nth_or_panic llfuncs (id fb) ;;
  lt <-? TypeBuilder.func_type (TypeBuilder.types tb) (TypeBuilder.lltypes tb) (fty func) ;;
  retty <-? TypeBuilder.irtype tb (ret (fty func)) ;;
  let sret := match kind retty with
              | TypeKind.Aggregate => Some (last_param lt)
              | TypeKind.Unit | TypeKind.Scalar => None
              end in
  match alloca_locals tb (locals fb) 0 [] with
  | Err e => Err e
  | Ok (lcls, n, out) =>
      let entry := map (fun '(r, i) => Inst r i) out in
      let env := StmtBuilder.mkEnv tb llfuncs llconsts lcls sret in
      let s0 := StmtBuilder.mkState [entry] 0 n [] [] in
      StmtBuilder.build_block env (body fb) s0
  end.

(** Lowers one function body: the statements, then [ret void] when the
    final block has no terminator.  The result is the list of its basic
    blocks, the entry block first. *)
Definition build_func_body (tb : TypeBuilder.t) (llfuncs llconsts : list LLVMValueRef)
    (func : FuncDecl) (fb : FuncBody) : result (list LLVMBasicBlock) :=
  s <-? func_body_state tb llfuncs llconsts func fb ;;
  let s' := match get_terminator (StmtBuilder.current s) with
            | None => StmtBuilder.build_term RetVoid s
            | Some _ => s
            end in
  Ok (StmtBuilder.blocks s').

(** ** The calling convention as the specification states it *)

(** The ABI slot of one parameter: none for a Unit-typed parameter, a
    pointer to its lowered type for an Aggregate-typed one, the lowered
    type itself for a Scalar-typed one. *)
Definition abi_slot (types : list Ty.type) (lltypes : list LLVMTypeRef)
    (t : TypeId) : option (list LLVMTypeRef) :=
  match nth_error types t, nth_error lltypes t with
  | Some T, Some l =>
      Some (match kind T with
            | TypeKind.Unit => []
            | TypeKind.Aggregate => [LPointer l]
            | TypeKind.Scalar => [l]
            end)
  | _, _ => None
  end.

Fixpoint abi_params (types : list Ty.type) (lltypes : list LLVMTypeRef)
    (ps : list TypeId) : option (list LLVMTypeRef) :=
  match ps with
  | [] => Some []
  | p :: ps' =>
      match abi_slot types lltypes p, abi_params types lltypes ps' with
      | Some sl, Some rest => Some (sl ++ rest)
      | _, _ => None
      end
  end.

(** The signature: Unit return gives [void]; Scalar return a direct
    return of the lowered type; Aggregate return [void] and one trailing
    pointer parameter (the indirect return slot). *)
Definition abi_signature (types : list Ty.type) (lltypes : list LLVMTypeRef)
    (f : FuncType) : option LLVMTypeRef :=
  match abi_params types lltypes (params f), nth_error types (ret f),
        nth_error lltypes (ret f) with
  | Some ps, Some R, Some r =>
      Some (match kind R with
            | TypeKind.Unit => LFunction LVoid ps (var_args f)
            | TypeKind.Scalar => LFunction r ps (var_args f)
            | TypeKind.Aggregate => LFunction LVoid (ps ++ [LPointer r]) (var_args f)
            end)
  | _, _, _ => None
  end.

(** ** Enum layout as the specification states it *)

Fixpoint lookups {A} (l : list A) (xs : list nat) : option (list A) :=
  match xs with
  | [] => Some []
  | x :: xs' =>
      match nth_error l x, lookups l xs' with
      | Some a, Some r => Some (a :: r)
      | _, _ => None
      end
  end.

(** The anonymous sequential record of a variant's arguments. *)
Definition variant_record (lltypes : list LLVMTypeRef) (v : Variant)
    : option LLVMTypeRef :=
  option_map LStruct (lookups lltypes (args v)).

(** Its target storage size. *)
Definition variant_size (named : named_table) (lltypes : list LLVMTypeRef)
    (v : Variant) : option Z :=
  match variant_record lltypes v with
  | Some r => store_size named r
  | None => None
  end.

(** The body of the [k]-th named struct of a context ([None] while it
    is opaque or when there is no such struct). *)
Definition named_body (named : named_table) (k : nat) : option (list LLVMTypeRef) :=
  match nth_error named k with
  | Some (_, b) => b
  | None => None
  end.

(** ** Calls as the specification states them *)

(** An emission only appends to the instructions already emitted. *)
Definition grows {A} (m : StmtBuilder.EM A) : Prop :=
  forall n out a n' out', m n out = Ok (a, n', out') -> exists suf, out' = out ++ suf.

(** Lowers the expressions of a list in order. *)
Fixpoint lower_all {A B} (lower : A -> StmtBuilder.EM B) (xs : list A)
    : StmtBuilder.EM (list B) :=
  match xs with
  | [] => StmtBuilder.ret []
  | x :: xs' =>
      StmtBuilder.bind (lower x) (fun v =>
      StmtBuilder.bind (lower_all lower xs') (fun vs =>
      StmtBuilder.ret (v :: vs)))
  end.

(** The ABI slots of lowered argument values: none for a unit value,
    the address of an aggregate, the value of a scalar. *)
Fixpoint arg_slots (vs : list Value.t) : list LLVMValueRef :=
  match vs with
  | [] => []
  | Value.Unit :: vs' => arg_slots vs'
  | Value.Aggregate p :: vs' => p :: arg_slots vs'
  | Value.Scalar v :: vs' => v :: arg_slots vs'
  end.

(** ** Casts as the specification states them (with the conversions
    between integers and floats the code has: i32 to either float width,
    f32 to i32) *)

Definition int_rank (t : Ty.type) : option nat :=
  match t with
  | Ty.I8 => Some 0 | Ty.I16 => Some 1 | Ty.I32 => Some 2 | Ty.I64 => Some 3
  | _ => None
  end.

(** [Some None]: identity; [Some (Some op)]: the conversion emitted;
    [None]: no cast. *)
Definition spec_cast (src dst : Ty.type) : option (option CastOp) :=
  match int_rank src, int_rank dst with
  | Some a, Some b =>
      Some (if Nat.eqb a b then None
            else if Nat.ltb a b then Some OSExt else Some OTrunc)
  | _, _ =>
      match src, dst with
      | Ty.F32, Ty.F32 | Ty.F64, Ty.F64 => Some None
      | Ty.I32, Ty.F32 | Ty.I32, Ty.F64 => Some (Some OSIToFP)
      | Ty.F32, Ty.I32 => Some (Some OFPToSI)
      | Ty.F32, Ty.F64 => Some (Some OFPExt)
      | Ty.F64, Ty.F32 => Some (Some OFPTrunc)
      | Ty.Pointer _, Ty.Pointer _ => Some (Some OPointerCast)
      | _, _ => None
      end
  end.

(** ** Statement lists without dead code *)

Definition is_jump (st : Stmt) : bool :=
  match st with Return _ | Break | Continue => true | _ => false end.

(** No statement follows a jump: only the last statement of the list
    may be a jump, and only when [jump_last] holds. *)
Fixpoint wf_list (wf : Stmt -> bool) (jump_last : bool) (ss : list Stmt) : bool :=
  match ss with
  | [] => true
  | x :: ss' =>
      wf x &&
      match ss' with
      | [] => jump_last || negb (is_jump x)
      | _ :: _ => negb (is_jump x) && wf_list wf jump_last ss'
      end
  end.

(** The bodies of [if], [while] and [for] may end in a jump; the
    initializer and the post statement of a [for] may not. *)
Fixpoint wf_stmt (st : Stmt) : bool :=
  match st with
  | If _ b | While _ b => wf_list wf_stmt true b
  | For i _ p b => wf_list wf_stmt false i && wf_list wf_stmt false p && wf_list wf_stmt true b
  | _ => true
  end.

(** A basic block of instructions closed by exactly one terminator. *)
Fixpoint terminated_once (bb : LLVMBasicBlock) : bool :=
  match bb with
  | [] => false
  | [Term _] => true
  | Inst _ _ :: bb' => terminated_once bb'
  | Term _ :: _ :: _ => false
  end.

(** ** Execution of straight-line code

    A small semantics of the instructions used by enum construction,
    tag reads and integer casts, on a byte-addressed little-endian
    memory; it is the x86-64 meaning of the LLVM code built above.
    Reading bytes never written yields [RUndef]. *)

Inductive rv := RInt (w : nat) (z : Z) | RPtr (a : Z) | RUndef.

Record istate := mkIState {
  regs : list (nat * rv);
  mem : list (Z * Z);                 (* address, byte; latest first *)
  brk : Z;                            (* next free stack address *)
}.

Definition wrap (w : nat) (z : Z) : Z := Z.modulo z (2 ^ Z.of_nat w).

(** The signed reading of a [w]-bit pattern. *)
Definition signed (w : nat) (z : Z) : Z :=
  if (z <? 2 ^ (Z.of_nat w - 1))%Z then z else (z - 2 ^ Z.of_nat w)%Z.

Definition digit (c : ascii) : option Z :=
  let n := Z.of_nat (nat_of_ascii c) in
  if ((48 <=? n) && (n <=? 57))%Z then Some (n - 48)%Z else None.

Fixpoint parse_digits (s : string) (acc : Z) : option Z :=
  match s with
  | EmptyString => Some acc
  | String.String c s' =>
      match digit c with
      | Some d => parse_digits s' (10 * acc + d)%Z
      | None => None
      end
  end.

(** A decimal literal, as [LLVMConstIntOfStringAndSize] reads it with
    radix 10 (a leading minus sign allowed); [None] for any other text. *)
Definition parse_decimal (s : string) : option Z :=
  match s with
  | EmptyString => None
  | String.String c s' =>
      if Ascii.eqb c "-"%char then
        match s' with
        | EmptyString => None
        | _ => option_map Z.opp (parse_digits s' 0)
        end
      else parse_digits s 0
  end.

Definition int_width (t : LLVMTypeRef) : option nat :=
  match t with LInt w => Some w | _ => None end.

Definition byte_count (w : nat) : nat := (w + 7) / 8.

Definition eval_value (st : istate) (v : LLVMValueRef) : option rv :=
  match v with
  | VReg n =>
      match find (fun p => Nat.eqb (fst p) n) (regs st) with
      | Some (_, x) => Some x
      | None => None
      end
  | VConstInt (LInt w) z => Some (RInt w (wrap w z))
  | VConstIntOfString (LInt w) s =>
      option_map (fun z => RInt w (wrap w z)) (parse_decimal s)
  | _ => None
  end.

Definition load_byte (st : istate) (a : Z) : option Z :=
  match find (fun p => Z.eqb (fst p) a) (mem st) with
  | Some (_, b) => Some b
  | None => None
  end.

Fixpoint store_bytes (a : Z) (n : nat) (z : Z) (m : list (Z * Z)) : list (Z * Z) :=
  match n with
  | O => m
  | S n' => store_bytes (a + 1)%Z n' (z / 256)%Z ((a, z mod 256)%Z :: m)
  end.

Fixpoint load_bytes (st : istate) (a : Z) (n : nat) : option Z :=
  match n with
  | O => Some 0%Z
  | S n' =>
      match load_byte st a, load_bytes st (a + 1)%Z n' with
      | Some b, Some rest => Some (b + 256 * rest)%Z
      | _, _ => None
      end
  end.

Definition set_reg (r : nat) (x : rv) (st : istate) : istate :=
  mkIState ((r, x) :: regs st) (mem st) (brk st).

(** One instruction. *)
Definition exec_inst (named : named_table) (r : nat) (i : llinst) (st : istate)
    : option istate :=
  match i with
  | Alloca t =>
      match layout named t with
      | Some (sz, al) =>
          let a := align_to (brk st) al in
          Some (mkIState ((r, RPtr a) :: regs st) (mem st) (a + Z.max sz 1)%Z)
      | None => None
      end
  | StructGEP t p k =>
      match eval_value st p, field_offset named t k with
      | Some (RPtr a), Some off => Some (set_reg r (RPtr (a + off)%Z) st)
      | _, _ => None
      end
  | CastI OPointerCast v _ =>
      match eval_value st v with
      | Some (RPtr a) => Some (set_reg r (RPtr a) st)
      | _ => None
      end
  | CastI OTrunc v (LInt w) =>
      match eval_value st v with
      | Some (RInt _ z) => Some (set_reg r (RInt w (wrap w z)) st)
      | _ => None
      end
  | CastI OSExt v (LInt w) =>
      match eval_value st v with
      | Some (RInt w0 z) => Some (set_reg r (RInt w (wrap w (signed w0 z))) st)
      | _ => None
      end
  | Store v p =>
      match eval_value st v, eval_value st p with
      | Some (RInt w z), Some (RPtr a) =>
          Some (mkIState (regs st) (store_bytes a (byte_count w) z (mem st)) (brk st))
      | _, _ => None
      end
  | Load t p =>
      match int_width t, eval_value st p with
      | Some w, Some (RPtr a) =>
          match load_bytes st a (byte_count w) with
          | Some z => Some (set_reg r (RInt w z) st)
          | None => Some (set_reg r RUndef st)
          end
      | _, _ => None
      end
  | _ => None
  end.

(** Runs a block up to its first terminator; the result is the value
    returned by a [Ret] ([None] for [ret void]) and the final state. *)
Fixpoint exec_block (named : named_table) (bb : LLVMBasicBlock) (st : istate)
    : option (option rv * istate) :=
  match bb with
  | [] => None
  | Inst r i :: bb' =>
      match exec_inst named r i st with
      | Some st' => exec_block named bb' st'
      | None => None
      end
  | Term (Ret v) :: _ => option_map (fun x => (Some x, st)) (eval_value st v)
  | Term RetVoid :: _ => Some (None, st)
  | Term _ :: _ => None
  end.

Definition init_istate : istate := mkIState [] [] 4096.

(** ** Facts about statement lowering

    Predicates used to state what [build_stmt] does to the blocks of
    the function under construction. *)

Module StmtFacts.
Import StmtBuilder.

(** The basic-block items of the instructions emitted by an expression. *)
Definition insts (out : list (nat * llinst)) : LLVMBasicBlock :=
  map (fun '(r, i) => Inst r i) out.

(** From [s] to [s']: blocks are only added, the blocks other than the
    current one are left alone, the current one only grows at its end,
    and the builder ends in the old current block or in a new one. *)
Definition wframe (s s' : State) : Prop :=
  block s < List.length (blocks s) /\
  List.length (blocks s) <= List.length (blocks s') /\
  block s' < List.length (blocks s') /\
  (forall i, i < List.length (blocks s) -> i <> block s ->
             nth i (blocks s') [] = nth i (blocks s) []) /\
  (block s' = block s \/ List.length (blocks s) <= block s') /\
  (exists suf, nth (block s) (blocks s') [] = current s ++ suf).

Definition frame_ok (env : Env) (st : Stmt) : Prop :=
  forall s s', block s < List.length (blocks s) -> build_stmt env st s = Ok s' ->
  wframe s s' /\ break_dest s' = break_dest s /\ continue_dest s' = continue_dest s.

Definition is_inst (it : item) : bool :=
  match it with Inst _ _ => true | Term _ => false end.

(** A block still open: instructions only. *)
Definition open_bb (bb : LLVMBasicBlock) : bool := forallb is_inst bb.

(** Whether a statement list ends in a jump. *)
Fixpoint last_jump (ss : list Stmt) : bool :=
  match ss with
  | [] => false
  | [x] => is_jump x
  | _ :: ss' => last_jump ss'
  end.

(** From [s] to [s']: every block that lowering created or left behind
    is terminated exactly once, except the current block of [s'], which
    is terminated when [j] holds and open otherwise. *)
Definition closes (s s' : State) (j : bool) : Prop :=
  (forall i, i < List.length (blocks s') -> i <> block s' ->
     List.length (blocks s) <= i \/ i = block s ->
     terminated_once (nth i (blocks s') []) = true) /\
  (if j then terminated_once (current s') = true else open_bb (current s') = true).

Definition closes_ok (env : Env) (st : Stmt) : Prop :=
  wf_stmt st = true -> forall s s', block s < List.length (blocks s) ->
  open_bb (current s) = true -> build_stmt env st s = Ok s' -> closes s s' (is_jump st).

End StmtFacts.

(** ** String literals: the inverse of [unescape]

    [escape_literal] writes a string with the three escapes [unescape]
    resolves; it is used to state the round trip. *)
Fixpoint escape_literal (s : string) : string :=
  match s with
  | EmptyString => EmptyString
  | String.String c s' =>
      if Ascii.eqb c (Ascii.ascii_of_nat 92) then
        String.String (Ascii.ascii_of_nat 92) (String.String (Ascii.ascii_of_nat 92) (escape_literal s'))
      else if Ascii.eqb c (Ascii.ascii_of_nat 10) then
        String.String (Ascii.ascii_of_nat 92) (String.String "n"%char (escape_literal s'))
      else if Ascii.eqb c (Ascii.ascii_of_nat 9) then
        String.String (Ascii.ascii_of_nat 92) (String.String "t"%char (escape_literal s'))
      else String.String c (escape_literal s')
  end.

(** A literal between two delimiters (the quotes of the source text). *)
Definition delimit (q1 q2 : ascii) (s : string) : string :=
  String.String q1 (s ++ String.String q2 EmptyString).

(** ** Module constants ([build_consts], [ConstBuilder]) *)

(** [struct Const] of the IR: a constant expression. *)
Record Const := mkConst { cexpr : Expr }.

Module ConstBuilder.
(** [ConstBuilder::build]: only integer literals are supported. *)
Definition build (types : TypeBuilder.t) (c : Const) : result LLVMValueRef :=
  match ExprKind.kind (cexpr c) with
  | ExprKind.Integer s =>
      lltype <-? TypeBuilder.lltype types (ty (cexpr c)) ;;
      Ok (VConstIntOfString lltype s)
  | _ => Err "explicit panic"
  end.
End ConstBuilder.

(** [v[i] = x] on a [Vec]: panics out of bounds. *)
Definition set_slot {A} (l : list A) (i : nat) (x : A) : result (list A) :=
  if Nat.ltb i (List.length l) then Ok (firstn i l ++ x :: skipn (S i) l)
  else Err "index out of bounds".

(** The final loop of [build_consts]: [c.unwrap()] on every slot. *)
Fixpoint unwrap_all {A} (l : list (option A)) : result (list A) :=
  match l with
  | [] => Ok []
  | Some a :: l' => r <-? unwrap_all l' ;; Ok (a :: r)
  | None :: _ => Err "called Option::unwrap() on a None value"
  end.

(** [build_consts]: a slot per constant, filled in order, then
    unwrapped. *)
Definition build_consts (types : TypeBuilder.t) (consts : list Const)
    : result (list LLVMValueRef) :=
  slots <-?
    (fix go (id : nat) (cs : list Const) (slots : list (option LLVMValueRef)) :=
       match cs with
       | [] => Ok slots
       | c :: cs' =>
           v <-? ConstBuilder.build types c ;;
           slots' <-? set_slot slots id (Some v) ;;
           go (S id) cs' slots'
       end) 0 consts (repeat None (List.length consts)) ;;
  unwrap_all slots.

(** ** The module ([build]) *)

(** [struct Module2] of the IR. *)
Record Module2 := mkModule2 {
  mtypes : list Ty.type;
  mconsts : list Const;
  mfunc_decls : list FuncDecl;
  mfunc_bodys : list FuncBody;
}.

(** The lowered module: the functions declared, by link name and type
    (function [i] is [VFunc i]), and the basic blocks appended to
    function [id] by each body, in the order of the bodies. *)
Record LLModule := mkLLModule {
  functions : list (string * LLVMTypeRef);
  bodies : list (nat * list LLVMBasicBlock);
}.

(** The link name of a declaration: [readdir] is renamed on macOS. *)
Definition link_name (macos : bool) (name : string) : string :=
  if macos && String.eqb name "readdir" then "readdir$INODE64" else name.

(** [build], for a target that is macOS when [macos] holds. *)
Definition build (macos : bool) (module : Module2) : result LLModule :=
  type_bld <-? TypeBuilder.new (mtypes module) ;;
  llconsts <-? build_consts type_bld (mconsts module) ;;
  decls <-?
    (fix go (ds : list FuncDecl) : result (list (string * LLVMTypeRef)) :=
       match ds with
       | [] => Ok []
       | func_decl :: ds' =>
           lltype <-? TypeBuilder.func_type (TypeBuilder.types type_bld)
                        (TypeBuilder.lltypes type_bld) (fty func_decl) ;;
           rest <-? go ds' ;;
           Ok ((link_name macos (fname func_decl), lltype) :: rest)
       end) (mfunc_decls module) ;;
  let llfuncs := map VFunc (seq 0 (List.length decls)) in
  bs <-?
    (fix go (bs : list FuncBody) : result (list (nat * list LLVMBasicBlock)) :=
       match bs with
       | [] => Ok []
       | func_body :: bs' =>
           func_decl <-? nth_or_panic (mfunc_decls module) (id func_body) ;;
           bbs <-? build_func_body type_bld llfuncs llconsts func_decl func_body ;;
           rest <-? go bs' ;;
           Ok ((id func_body, bbs) :: rest)
       end) (mfunc_bodys module) ;;
  Ok (mkLLModule decls bs).

(** ** The two passes of [TypeBuilder::new], as functions of their own *)

Module TypeBuilderPasses.

Fixpoint pass1 (types : list Ty.type) (fuel : nat) (ids : list TypeId)
    (acc : list LLVMTypeRef) (nm : named_table)
    : result (list LLVMTypeRef * named_table) :=
  match ids with
  | [] => Ok (acc, nm)
  | id :: ids' =>
      '(l, nm1) <-? TypeBuilder.build_type fuel types acc nm id ;;
      pass1 types fuel ids' (acc ++ [l]) nm1
  end.

Fixpoint pass2 (types : list Ty.type) (ids : list TypeId) (tb : TypeBuilder.t)
    : result TypeBuilder.t :=
  match ids with
  | [] => Ok tb
  | id :: ids' =>
      match nth_error types id with
      | Some (Ty.Struct sty) =>
          tb' <-? TypeBuilder.set_struct_body tb id sty ;; pass2 types ids' tb'
      | Some (Ty.Enum ety) =>
          tb' <-? TypeBuilder.set_enum_body tb id ety ;; pass2 types ids' tb'
      | _ => pass2 types ids' tb
      end
  end.

End TypeBuilderPasses.

(** ** Binary operators: the dispatch table of [build_scalar] *)



(** ** Function entry *)

(** The allocas of the local slots, as the entry block lists them. *)
Definition alloca_items (tys : list LLVMTypeRef) : LLVMBasicBlock :=
  map (fun '(r, t) => Inst r (Alloca t)) (combine (seq 0 (List.length tys)) tys).

(** ** The older code generator ([src/codegen.rs])

    [codegen.rs] lowers a smaller IR (integers, pointers, functions and
    unit; locals, parameters, additions and subtractions, strings and
    calls; assignments, returns and expression statements) into a single
    basic block per function.  Its IR is modelled from its uses in the
    file. *)

Module Codegen.

Module Ty.
Inductive type := I8 | I32 | Pointer (t : TypeId) | Func (f : FuncType) | Unit.
End Ty.

Inductive Binop := Add | Sub.

Module ExprKind.
Inductive t :=
| Unit
| Type_ (ty : TypeId)
| Integer (s : string)
| Local (i : nat)
| Binary (op : Binop) (x y : Expr)
| String (s : string)
| Call (func : Expr) (args : list Expr)
| Func (i : nat)
| Param (i : nat)
with Expr := mkExpr (ty : TypeId) (kind : t).

Definition ty (e : Expr) : TypeId := match e with mkExpr t _ => t end.
Definition kind (e : Expr) : t := match e with mkExpr _ k => k end.
End ExprKind.
Import ExprKind (Expr, mkExpr).

Inductive Stmt :=
| Assign (x y : Expr)
| Return (x : Expr)
| SExpr (x : Expr).                    (* [Stmt::Expr] *)

Record FuncBody := mkFuncBody {
  id : nat;
  locals : list TypeId;
  stmts : list Stmt;
}.

(** Values, instructions and the single basic block. *)
Inductive value :=
| Reg (n : nat)
| ParamV (i : nat)                      (* [LLVMGetParam] *)
| FuncV (i : nat)                       (* a function of the module *)
| ConstInt (t : LLVMTypeRef) (n : Z)    (* [LLVMConstInt], [n] as a [u64] *)
| Undef (t : LLVMTypeRef).              (* [LLVMGetUndef] *)

Inductive inst :=
| Alloca (t : LLVMTypeRef)
| Load (t : LLVMTypeRef) (p : value)
| Store (v p : value)
| AddI (x y : value)
| SubI (x y : value)
| GlobalStringPtr (s : string)
| Call (fnty : LLVMTypeRef) (f : value) (args : list value).

Inductive term := Ret (v : value) | RetVoid.

Inductive item := Inst (r : nat) (i : inst) | Term (t : term).

(** [build_type] and [build_func_type]; [fuel] bounds the depth of the
    recursion (a cyclic chain of pointers overflows the Rust stack). *)
Fixpoint map_result {A B} (f : A -> result B) (l : list A) : result (list B) :=
  match l with
  | [] => Ok []
  | x :: l' => y <-? f x ;; ys <-? map_result f l' ;; Ok (y :: ys)
  end.

Definition func_type_with (bt : TypeId -> result LLVMTypeRef) (ty : FuncType)
    : result LLVMTypeRef :=
  ps <-? map_result bt (params ty) ;;
  r <-? bt (ret ty) ;;
  Ok (LFunction r ps (var_args ty)).

Fixpoint build_type (fuel : nat) (types : list Ty.type) (ty : TypeId)
    : result LLVMTypeRef :=
  match fuel with
  | O => Err "stack overflow"
  | S f =>
      irty <-? nth_or_panic types ty ;;
      match irty with
      | Ty.I8 => Ok (LInt 8)
      | Ty.I32 => Ok (LInt 32)
      | Ty.Pointer t =>
          l <-? build_type f types t ;;
          Ok (LPointer l)
      | Ty.Func fty => func_type_with (build_type f types) fty
      | Ty.Unit => Ok LVoid
      end
  end.

Definition type_fuel (types : list Ty.type) : nat := S (List.length types).

Definition build_func_type (types : list Ty.type) (ty : FuncType) : result LLVMTypeRef :=
  func_type_with (build_type (type_fuel types) types) ty.

(** [s.parse::<i64>()]: an optional sign, at least one decimal digit,
    and a value within the range of [i64]. *)
Definition i64_in_range (z : Z) : option Z :=
  if ((- 2 ^ 63 <=? z) && (z <? 2 ^ 63))%Z then Some z else None.

Definition parse_i64 (s : string) : option Z :=
  match s with
  | EmptyString => None
  | String.String c s' =>
      if Ascii.eqb c "+"%char then
        match s' with
        | EmptyString => None
        | _ => match parse_digits s' 0 with Some z => i64_in_range z | None => None end
        end
      else if Ascii.eqb c "-"%char then
        match s' with
        | EmptyString => None
        | _ => match parse_digits s' 0 with Some z => i64_in_range (- z) | None => None end
        end
      else match parse_digits s 0 with Some z => i64_in_range z | None => None end
  end.

(** [unescape] of codegen.rs (the same text as the one of llvm.rs). *)
Definition unescape (s : string) : string :=
  unescape_go (substring 1 (String.length s - 2) s) false.

(** Emission into the current block: a state monad over the next
    register number and the block. *)
Definition CM (A : Type) : Type :=
  nat -> list item -> result (A * nat * list item).

Definition ret {A} (a : A) : CM A := fun n bb => Ok (a, n, bb).

Definition bind {A B} (m : CM A) (k : A -> CM B) : CM B :=
  fun n bb =>
    match m n bb with
    | Ok (a, n', bb') => k a n' bb'
    | Err e => Err e
    end.

Definition fail {A} (msg : string) : CM A := fun _ _ => Err msg.

Definition lift {A} (r : result A) : CM A :=
  fun n bb => match r with Ok a => Ok (a, n, bb) | Err e => Err e end.

Definition emit (i : inst) : CM value := fun n bb => Ok (Reg n, S n, bb ++ [Inst n i]).

Definition emit_term (t : term) : CM unit := fun n bb => Ok (tt, n, bb ++ [Term t]).

Notation "x <- m ;; k" := (bind m (fun x => k))
  (at level 61, m at next level, right associativity).

(** The arguments [b, funcs, types, llfuncs, llfunc, locals] shared by
    the lowering functions. *)
Record Env := mkEnv {
  types : list Ty.type;
  llfuncs : list value;
  local_slots : list value;              (* [locals: &[LLVMValueRef]] *)
}.

Section Lowering.
Variable env : Env.

Definition lltype (t : TypeId) : CM LLVMTypeRef :=
  lift (build_type (type_fuel (types env)) (types env) t).

Definition irtype (t : TypeId) : CM Ty.type := lift (nth_or_panic (types env) t).

(** [build_value]. *)
Fixpoint build_value (e : Expr) : CM value :=
  match e with
  | mkExpr t k =>
      match k with
      | ExprKind.Unit => ret (Undef LVoid)
      | ExprKind.Type_ _ => fail "not implemented"
      | ExprKind.Integer s =>
          l <- lltype t ;;
          match parse_i64 s with
          | Some i => ret (ConstInt l (Z.modulo i (2 ^ 64)))
          | None => fail "unable to parse as integer"
          end
      | ExprKind.Local i =>
          l <- lltype t ;;
          p <- lift (nth_or_panic (local_slots env) i) ;;
          emit (Load l p)
      | ExprKind.Binary op x y =>
          x' <- build_value x ;;
          y' <- build_value y ;;
          match op with
          | Add => emit (AddI x' y')
          | Sub => emit (SubI x' y')
          end
      | ExprKind.String s => emit (GlobalStringPtr (unescape s))
      | ExprKind.Call func args =>
          fty <- irtype (ExprKind.ty func) ;;
          fnty <- match fty with
                  | Ty.Func f => lift (build_func_type (types env) f)
                  | _ => fail "explicit panic"
                  end ;;
          fv <- build_value func ;;
          args' <- (fix go (xs : list Expr) : CM (list value) :=
                      match xs with
                      | [] => ret []
                      | a :: xs' => v <- build_value a ;; vs <- go xs' ;; ret (v :: vs)
                      end) args ;;
          emit (Call fnty fv args')
      | ExprKind.Func i => lift (nth_or_panic (llfuncs env) i)
      | ExprKind.Param i => ret (ParamV i)
      end
  end.

(** [build_value_into]. *)
Definition build_value_into (e : Expr) (dst : value) : CM unit :=
  irty <- irtype (ExprKind.ty e) ;;
  match irty with
  | Ty.Unit => _ <- build_value e ;; ret tt
  | _ => v <- build_value e ;; _ <- emit (Store v dst) ;; ret tt
  end.

(** [build_alloca]. *)
Definition build_alloca (t : TypeId) : CM value :=
  irty <- irtype t ;;
  match irty with
  | Ty.Unit => ret (Undef LVoid)
  | _ => l <- lltype t ;; emit (Alloca l)
  end.

(** [build_place]: locals only. *)
Definition build_place (e : Expr) : CM value :=
  match ExprKind.kind e with
  | ExprKind.Local i => lift (nth_or_panic (local_slots env) i)
  | _ => fail "not implemented"
  end.

(** [build_stmt]. *)
Definition build_stmt (st : Stmt) : CM unit :=
  match st with
  | Assign x y =>
      p <- build_place x ;;
      build_value_into x p
  | Return x =>
      v <- build_value x ;;
      irty <- irtype (ExprKind.ty x) ;;
      match irty with
      | Ty.Unit => emit_term RetVoid
      | _ => emit_term (Ret v)
      end
  | SExpr x =>
      tmp <- build_alloca (ExprKind.ty x) ;;
      build_value_into x tmp
  end.

Fixpoint build_stmts (ss : list Stmt) : CM unit :=
  match ss with
  | [] => ret tt
  | st :: ss' => _ <- build_stmt st ;; build_stmts ss'
  end.

End Lowering.

(** The allocas of the locals. *)
Fixpoint alloca_locals (types : list Ty.type) (tys : list TypeId) : CM (list value) :=
  match tys with
  | [] => ret []
  | t :: tys' =>
      l <- lift (build_type (type_fuel types) types t) ;;
      p <- emit (Alloca l) ;;
      ps <- alloca_locals types tys' ;;
      ret (p :: ps)
  end.

(** [build_func_body]: the entry block of function [body.id]. *)
Definition build_func_body (funcs : list FuncDecl) (types : list Ty.type)
    (llfuncs : list value) (body : FuncBody) : result (list item) :=
  _ <-? nth_or_panic funcs (id body) ;;
  _ <-? nth_or_panic llfuncs (id body) ;;
  match alloca_locals types (locals body) 0 [] with
  | Err e => Err e
  | Ok (lcls, n, bb) =>
      match build_stmts (mkEnv types llfuncs lcls) (stmts body) n bb with
      | Ok (_, _, bb') => Ok bb'
      | Err e => Err e
      end
  end.

(** The terminators of a block, and the [return] statements of a body. *)
Definition count_terms (bb : list item) : nat :=
  List.length (filter (fun it => match it with Term _ => true | Inst _ _ => false end) bb).

Definition count_returns (ss : list Stmt) : nat :=
  List.length (filter (fun st => match st with Return _ => true | _ => false end) ss).

(** [m] appends to the block, adding [k] terminators, whenever it succeeds. *)
Definition adds_terms {A} (m : CM A) (k : nat) : Prop :=
  forall n bb a n' bb', m n bb = Ok (a, n', bb') ->
  exists ext, bb' = bb ++ ext /\ count_terms ext = k.

(** The entry block: the allocas of the locals, registers [0, 1, ...]. *)
Definition alloca_block (ls : list LLVMTypeRef) : list item :=
  map (fun '(r, l) => Inst r (Alloca l)) (combine (seq 0 (List.length ls)) ls).

End Codegen.

(** The name of the named struct [build_type] creates for a type: the
    struct and enum types get one, no other type does. *)
Definition named_type_name (t : Ty.type) : option string :=
  match t with
  | Ty.Struct s => Some (sname s)
  | Ty.Enum e => Some (ename e)
  | _ => None
  end.

(** * Examples

    Concrete inputs on which the definitions are evaluated. *)

(** [enum E { A, B(i32) }] and the types used beside it:
    0 = E, 1 = i32, 2 = (), 3 = bool, 4 = i8. *)
Definition ex_enum : EnumType := mkEnumType "E" [mkVariant []; mkVariant [1]].

Definition ex_types : list Ty.type := [Ty.Enum ex_enum; Ty.I32; Ty.Unit; Ty.Bool; Ty.I8].

(** The type builder of [ex_types] after the first pass of
    [TypeBuilder::new] (placeholders only, the enum still opaque). *)
Definition ex_tb0 : TypeBuilder.t :=
  TypeBuilder.mk ex_types [LNamed 0; LInt 32; LVoid; LInt 1; LInt 8] [("E", None)].

Definition ex_tb : TypeBuilder.t :=
  match TypeBuilder.new ex_types with Ok t => t | Err _ => ex_tb0 end.

(** [enum N { A, B }]: no variant takes an argument. *)
Definition nullary_enum : EnumType := mkEnumType "N" [mkVariant []; mkVariant []].

(** A function of type [fn() -> T], and the run of its body (a single
    basic block) from an empty stack; [None] when lowering fails or the
    body is not one block. *)
Definition ex_fd (t : TypeId) : FuncDecl := mkFuncDecl "f" (mkFuncType [] t false).

Definition run_body (tb : TypeBuilder.t) (t : TypeId) (lcls : list TypeId)
    (ss : list Stmt) : option (option rv) :=
  match build_func_body tb [VFunc 0] [] (ex_fd t) (mkFuncBody 0 lcls ss) with
  | Ok [bb] => option_map fst (exec_block (TypeBuilder.named tb) bb init_istate)
  | _ => None
  end.

(** [x = E::B(7); x = E::A; return tag(x);] with [x] local 0 of type E. *)
Definition ex_local : Expr := mkExpr 0 (ExprKind.Local 0).

Definition enum_tag_body : list Stmt :=
  [Assign ex_local (mkExpr 0 (ExprKind.EnumCall 1 [mkExpr 1 (ExprKind.Integer "7")]));
   Assign ex_local (mkExpr 0 (ExprKind.EnumCall 0 []));
   Return (mkExpr 4 (ExprKind.EnumTag ex_local))].

(** [return (lit : src) as dst;]. *)
Definition cast_body (lit : string) (src dst : TypeId) : list Stmt :=
  [Return (mkExpr dst (ExprKind.Cast (mkExpr src (ExprKind.Integer lit)) dst))].

(** A call [g(5, ())] of [g : fn(i32, ()) -> (i32, i32)]:
    0 = (i32, i32), 1 = i32, 2 = the function type, 3 = (). *)
Definition call_types : list Ty.type :=
  [Ty.Tuple [1; 1]; Ty.I32; Ty.Func (mkFuncType [1; 3] 0 false); Ty.Unit].

Definition call_tb : TypeBuilder.t :=
  match TypeBuilder.new call_types with
  | Ok t => t
  | Err _ => TypeBuilder.mk call_types [] []
  end.

Definition call_env : StmtBuilder.Env := StmtBuilder.mkEnv call_tb [VFunc 0] [] [] None.

Definition call_e : Expr :=
  mkExpr 0 (ExprKind.Call (mkExpr 2 (ExprKind.Func 0))
              [mkExpr 1 (ExprKind.Integer "5"); mkExpr 3 ExprKind.Unit]).

(** [return (1.5 : f64) as i32;] with 0 = f64, 1 = i32. *)
Definition f64_types : list Ty.type := [Ty.F64; Ty.I32].

Definition f64_tb : TypeBuilder.t :=
  match TypeBuilder.new f64_types with
  | Ok t => t
  | Err _ => TypeBuilder.mk f64_types [] []
  end.

Definition f64_to_i32_body : list Stmt :=
  [Return (mkExpr 1 (ExprKind.Cast (mkExpr 0 (ExprKind.Float "1.5")) 1))].

(** [true] and [()] (types 3 and 2 of [ex_types]). *)
Definition ex_true : Expr := mkExpr 3 (ExprKind.Bool true).

Definition ex_unit : Expr := mkExpr 2 ExprKind.Unit.

(** [for (;true;) { while (true) { break; } }] (resp. [continue]). *)
Definition nested_break_body : list Stmt := [For [] ex_true [] [While ex_true [Break]]].

Definition nested_continue_body : list Stmt := [For [] ex_true [] [While ex_true [Continue]]].

(** The blocks of [nested_break_body]: 0 entry, 1 head, 2 body, 3 tail
    and 4 done of the [for]; 5 head, 6 body and 7 done of the [while].
    The [break] (block 6) jumps to 7, the [while]'s done block, which
    falls through to the [for]'s tail. *)
Definition nested_break_blocks : list LLVMBasicBlock :=
  [[Term (Br 1)]; [Term (CondBr (VConstInt (LInt 1) 1) 2 4)]; [Term (Br 5)];
   [Term (Br 1)]; [Term RetVoid]; [Term (CondBr (VConstInt (LInt 1) 1) 6 7)];
   [Term (Br 7)]; [Term (Br 3)]].

(** [if (true) { return; }] and its blocks: entry, then, after. *)
Definition if_return_body : list Stmt := [If ex_true [Return ex_unit]].

Definition if_return_blocks : list LLVMBasicBlock :=
  [[Term (CondBr (VConstInt (LInt 1) 1) 1 2)]; [Term RetVoid]; [Term RetVoid]].

(** [return; return;]. *)
Definition dead_return_body : list Stmt := [Return ex_unit; Return ex_unit].

(** [while (true) { break; }] lowered from a fresh one-block state. *)
Definition ex_env : StmtBuilder.Env := StmtBuilder.mkEnv ex_tb [VFunc 0] [] [] None.

Definition ex_s0 : StmtBuilder.State := StmtBuilder.mkState [[]] 0 0 [] [].

Definition ex_while : Stmt := While ex_true [Break].

Definition ex_while_state : StmtBuilder.State :=
  match StmtBuilder.build_stmt ex_env ex_while ex_s0 with
  | Ok s => s
  | Err _ => ex_s0
  end.

Definition ex_for : Stmt := For [] ex_true [] [Continue].

Definition ex_for_state : StmtBuilder.State :=
  match StmtBuilder.build_stmt ex_env ex_for ex_s0 with
  | Ok s => s
  | Err _ => ex_s0
  end.

(** The state after the statements of an empty function of type
    [fn() -> i32]: the entry block, empty. *)
Definition empty_i32_state : StmtBuilder.State := StmtBuilder.mkState [[]] 0 0 [] [].


(** ** Inputs for the properties of the whole program *)

(** [struct S { a: i32, p: *S }] reached first through a pointer:
    0 = *S, 1 = S, 2 = i32, 3 = *i32. *)
Definition fwd_struct : StructType := mkStructType "S" [("a", 2); ("p", 0)].

Definition fwd_types : list Ty.type :=
  [Ty.Pointer 1; Ty.Struct fwd_struct; Ty.I32; Ty.Pointer 2].

Definition fwd_tb : TypeBuilder.t :=
  match TypeBuilder.new fwd_types with
  | Ok t => t
  | Err _ => TypeBuilder.mk fwd_types [] []
  end.

(** A pointer to itself; a function type whose return type comes
    after it. *)
Definition self_ptr_types : list Ty.type := [Ty.Pointer 0].

Definition later_ret : FuncType := mkFuncType [] 1 false.

Definition later_ret_types : list Ty.type := [Ty.Func later_ret; Ty.I32].

(** [fn g(i32) -> (i32, i32)] over [call_types], with a local of type
    i32 and an empty body. *)
Definition g_decl : FuncDecl := mkFuncDecl "g" (mkFuncType [1] 0 false).

Definition g_body : FuncBody := mkFuncBody 0 [1] [].

Definition g_state : StmtBuilder.State :=
  match func_body_state call_tb [VFunc 0] [] g_decl g_body with
  | Ok s => s
  | Err _ => ex_s0
  end.

Definition g_blocks : list LLVMBasicBlock :=
  match build_func_body call_tb [VFunc 0] [] g_decl g_body with
  | Ok b => b
  | Err _ => []
  end.






(** Inputs of [codegen.rs]: 0 = i32, 1 = (), 2 = *i32,
    3 = fn(i32, ()) -> i32; the body [x = 5; return x;] of
    [fn f() -> i32] with [x] its local 0. *)
Module CodegenExamples.
Import Codegen.
Import Codegen.ExprKind (Expr, mkExpr).

Definition cg_types : list Ty.type :=
  [Ty.I32; Ty.Unit; Ty.Pointer 0; Ty.Func (mkFuncType [0; 1] 0 false)].

Definition cg_funcs : list FuncDecl := [mkFuncDecl "f" (mkFuncType [] 0 false)].

Definition cg_x : Expr := mkExpr 0 (ExprKind.Local 0).

Definition cg_five : Expr := mkExpr 0 (ExprKind.Integer "5").

Definition cg_body : FuncBody := mkFuncBody 0 [0] [Assign cg_x cg_five; Return cg_x].

Definition cg_block : list item :=
  match build_func_body cg_funcs cg_types [FuncV 0] cg_body with
  | Ok bb => bb
  | Err _ => []
  end.

(** The environment of the body once its local has its slot [Reg 0]. *)
Definition cg_env : Env := mkEnv cg_types [FuncV 0] [Reg 0].

(** [2^63], one past the largest [i64]. *)
Definition i64_past_max : string := "9223372036854775808".

End CodegenExamples.

(** * Proofs *)

Lemma nth_or_panic_lt {A} (l : list A) n :
  n < List.length l -> exists a, nth_or_panic l n = Ok a /\ nth_error l n = Some a.
Proof.
  intros H. unfold nth_or_panic.
  destruct (nth_error l n) eqn:E.
  - eauto.
  - apply nth_error_None in E. lia.
Qed.

Lemma func_params_abi types lltypes ps :
  Forall (fun t => t < List.length types /\ t < List.length lltypes) ps ->
  exists ls, TypeBuilder.func_params types lltypes ps = Ok ls /\
             abi_params types lltypes ps = Some ls.
Proof.
  induction 1 as [|p ps [H1 H2] _ [ls [IH1 IH2]]]; [now exists []|].
  destruct (nth_or_panic_lt types p H1) as [T [HT1 HT2]].
  destruct (nth_or_panic_lt lltypes p H2) as [l [Hl1 Hl2]].
  cbn. rewrite HT1. cbn. unfold abi_slot. rewrite HT2, Hl2, IH2.
  destruct (kind T); cbn; rewrite ?Hl1; cbn; rewrite ?IH1; cbn; eauto.
Qed.

(** C3: for every function type, [func_type] synthesizes the ABI
    signature of the specification: Unit parameters dropped, Aggregate
    parameters passed as a pointer to their lowered type, Scalar
    parameters by value; Unit return gives void, Scalar return a direct
    return, Aggregate return void plus one trailing pointer parameter. *)
Theorem func_type_abi types lltypes (f : FuncType) :
  Forall (fun t => t < List.length types /\ t < List.length lltypes)
    (ret f :: params f) ->
  exists t, TypeBuilder.func_type types lltypes f = Ok t /\
            abi_signature types lltypes f = Some t.
Proof.
  intros H. inversion H as [|x xs [Hr1 Hr2] Hps]; subst.
  destruct (func_params_abi types lltypes (params f) Hps) as [ls [E1 E2]].
  destruct (nth_or_panic_lt types (ret f) Hr1) as [R [HR1 HR2]].
  destruct (nth_or_panic_lt lltypes (ret f) Hr2) as [r [Hr3 Hr4]].
  unfold TypeBuilder.func_type, abi_signature.
  rewrite E1, E2, HR2, Hr4. cbn. rewrite HR1. cbn.
  destruct (kind R); cbn; rewrite ?Hr3; cbn; eauto.
Qed.

Lemma build_args_lookups tb nm xs ls nm' :
  List.length (TypeBuilder.lltypes tb) = List.length (TypeBuilder.types tb) ->
  TypeBuilder.build_args tb nm xs = Ok (ls, nm') ->
  nm' = nm /\ lookups (TypeBuilder.lltypes tb) xs = Some ls.
Proof.
  intros Hlen. revert nm ls nm'.
  induction xs as [|a xs IH]; intros nm ls nm' H; cbn in H.
  - injection H as <- <-. auto.
  - destruct (nth_error (TypeBuilder.lltypes tb) a) as [l|] eqn:Ea.
    + cbn in H.
      destruct (TypeBuilder.build_args tb nm xs) as [[ls0 nm0]|] eqn:E; [|discriminate].
      cbn in H. injection H as <- <-.
      destruct (IH _ _ _ E) as [-> IH2]. cbn. rewrite Ea, IH2. auto.
    + apply nth_error_None in Ea.
      unfold nth_or_panic in H.
      destruct (nth_error (TypeBuilder.types tb) a) eqn:Eb.
      * assert (nth_error (TypeBuilder.types tb) a <> None) as Hn by congruence.
        apply nth_error_Some in Hn. lia.
      * discriminate.
Qed.

Lemma enum_largest_first_max tb nm vs acc res nm' :
  List.length (TypeBuilder.lltypes tb) = List.length (TypeBuilder.types tb) ->
  TypeBuilder.enum_largest tb nm vs acc = Ok (res, nm') ->
  nm' = nm /\
  match res with
  | None => acc = None /\ vs = []
  | Some (n, t) =>
      (res = acc /\
       Forall (fun v => exists s, variant_size nm (TypeBuilder.lltypes tb) v = Some s
                                  /\ (s <= n)%Z) vs)
      \/
      (exists pre v post,
         vs = pre ++ v :: post /\
         variant_record (TypeBuilder.lltypes tb) v = Some t /\
         variant_size nm (TypeBuilder.lltypes tb) v = Some n /\
         (forall n0 t0, acc = Some (n0, t0) -> (n0 < n)%Z) /\
         Forall (fun v => exists s, variant_size nm (TypeBuilder.lltypes tb) v = Some s
                                    /\ (s < n)%Z) pre /\
         Forall (fun v => exists s, variant_size nm (TypeBuilder.lltypes tb) v = Some s
                                    /\ (s <= n)%Z) post)
  end.
Proof.
  intros Hlen. revert nm acc res nm'.
  induction vs as [|v vs IH]; intros nm acc res nm' H; cbn in H.
  - injection H as <- <-. split; [reflexivity|].
    destruct acc as [[n t]|]; [left; auto|auto].
  - destruct (TypeBuilder.build_args tb nm (args v)) as [[xargs nm1]|] eqn:Ea;
      [|discriminate].
    cbn in H. destruct (build_args_lookups _ _ _ _ _ Hlen Ea) as [-> Hl].
    assert (Hrec : variant_record (TypeBuilder.lltypes tb) v = Some (LStruct xargs))
      by (unfold variant_record; rewrite Hl; reflexivity).
    destruct (store_size nm (LStruct xargs)) as [s0|] eqn:Es; [|discriminate].
    assert (Hsz : variant_size nm (TypeBuilder.lltypes tb) v = Some s0)
      by (unfold variant_size; rewrite Hrec; exact Es).
    set (acc' := match acc with
                 | Some (n, other) => if (s0 <=? n)%Z then Some (n, other)
                                      else Some (s0, LStruct xargs)
                 | None => Some (s0, LStruct xargs)
                 end) in H.
    assert (Hacc' : exists n1 t1, acc' = Some (n1, t1) /\ (s0 <= n1)%Z /\
                      forall n0 t0, acc = Some (n0, t0) -> (n0 <= n1)%Z).
    { unfold acc'. destruct acc as [[n0 t0]|].
      - destruct (Z.leb_spec s0 n0); eexists _, _; (split; [reflexivity|]);
          (split; [lia|]); intros ? ? [= <- <-]; lia.
      - eexists _, _; (split; [reflexivity|]); split; [lia|]; discriminate. }
    destruct Hacc' as (n1 & t1 & Ha & Hs & Hn).
    destruct (IH _ _ _ _ H) as [-> Hres]. split; [reflexivity|].
    destruct res as [[n t]|].
    2:{ destruct Hres as [Hacc _]. congruence. }
    destruct Hres as [[Heq Hall] | (pre & w & post & -> & Hw1 & Hw2 & Hlt & Hpre & Hpost)].
    + (* the result is [acc'] *)
      rewrite Ha in Heq. injection Heq as -> ->.
      unfold acc' in Ha. destruct acc as [[n0 t0]|].
      * destruct (Z.leb_spec s0 n0).
        -- left. split; [now rewrite Ha|].
           constructor; [exists s0; split; [exact Hsz|lia]|exact Hall].
        -- right. injection Ha as <- <-. exists [], v, vs.
           repeat split; auto. intros ? ? [= <- <-]; lia.
      * right. injection Ha as <- <-. exists [], v, vs.
        repeat split; auto. discriminate.
    + (* replaced later *)
      specialize (Hlt n1 t1 Ha).
      right. exists (v :: pre), w, post.
      split; [reflexivity|]. split; [exact Hw1|]. split; [exact Hw2|].
      split; [|split; [|exact Hpost]].
      * intros n0 t0 E. specialize (Hn n0 t0 E). clear - Hn Hlt. lia.
      * constructor; [|exact Hpre]. exists s0. split; [exact Hsz|].
        clear - Hs Hlt. lia.
Qed.

Lemma struct_set_body_ok nm l body nm' :
  struct_set_body nm l body = Ok nm' ->
  exists k, l = LNamed k /\ named_body nm' k = Some body.
Proof.
  destruct l as [| | | | | | | |k]; cbn; try discriminate.
  destruct (nth_error nm k) as [[n b]|] eqn:E; [|discriminate].
  intros [= <-]. exists k. split; [reflexivity|].
  assert (Hk : k < List.length nm)
    by (apply nth_error_Some; congruence).
  unfold named_body. rewrite nth_error_app2.
  - rewrite length_firstn. replace (k - Nat.min k (List.length nm)) with 0 by lia.
    reflexivity.
  - rewrite length_firstn. lia.
Qed.

(** C2 (as the code has it): the body [set_enum_body] gives the named
    struct of an enum is the tag byte alone when the enum has no
    variant at all; otherwise it is the argument record of the first
    variant reaching the maximal store size, followed by the tag byte.
    A variant without arguments contributes the empty record, so an
    enum whose variants all lack arguments still gets a payload field. *)
Theorem set_enum_body_layout tb id ety tb' :
  List.length (TypeBuilder.lltypes tb) = List.length (TypeBuilder.types tb) ->
  TypeBuilder.set_enum_body tb id ety = Ok tb' ->
  exists k,
    nth_error (TypeBuilder.lltypes tb) id = Some (LNamed k) /\
    TypeBuilder.types tb' = TypeBuilder.types tb /\
    TypeBuilder.lltypes tb' = TypeBuilder.lltypes tb /\
    match variants ety with
    | [] => named_body (TypeBuilder.named tb') k = Some [LInt 8]
    | _ :: _ =>
        exists pre v post n r,
          variants ety = pre ++ v :: post /\
          variant_record (TypeBuilder.lltypes tb) v = Some r /\
          variant_size (TypeBuilder.named tb) (TypeBuilder.lltypes tb) v = Some n /\
          Forall (fun w => exists s,
            variant_size (TypeBuilder.named tb) (TypeBuilder.lltypes tb) w = Some s
            /\ (s < n)%Z) pre /\
          Forall (fun w => exists s,
            variant_size (TypeBuilder.named tb) (TypeBuilder.lltypes tb) w = Some s
            /\ (s <= n)%Z) post /\
          named_body (TypeBuilder.named tb') k = Some [r; LInt 8]
    end.
Proof.
  intros Hlen H. unfold TypeBuilder.set_enum_body, TypeBuilder.lltype in H.
  destruct (nth_or_panic (TypeBuilder.lltypes tb) id) as [l|] eqn:El; [|discriminate].
  cbn in H.
  destruct (TypeBuilder.enum_largest tb (TypeBuilder.named tb) (variants ety) None)
    as [[res nm]|] eqn:Ee; [|discriminate].
  cbn in H.
  destruct (struct_set_body nm l _) as [nm'|] eqn:Es; [|discriminate].
  cbn in H. injection H as <-.
  destruct (struct_set_body_ok _ _ _ _ Es) as [k [-> Hb]].
  exists k. unfold nth_or_panic in El.
  destruct (nth_error (TypeBuilder.lltypes tb) id) eqn:En; [|discriminate].
  injection El as ->. repeat split; [reflexivity..|]. cbn.
  destruct (enum_largest_first_max _ _ _ _ _ _ Hlen Ee) as [-> Hres].
  destruct (variants ety) as [|v0 vs0] eqn:Hv.
  - cbn in Ee. injection Ee as <-. exact Hb.
  - destruct res as [[n t]|].
    + destruct Hres as [[Heq _] | (pre & v & post & Hvs & Hr & Hs & _ & Hpre & Hpost)];
        [discriminate|].
      exists pre, v, post, n, t. repeat split; assumption.
    + destruct Hres as [_ Habs]. discriminate.
Qed.

(** ** Expression lowering only appends instructions *)

Module ExprProofs.
Import StmtBuilder.

Lemma bind_ok {A B} (m : EM A) (k : A -> EM B) n out r :
  bind m k n out = Ok r ->
  exists a n1 o1, m n out = Ok (a, n1, o1) /\ k a n1 o1 = Ok r.
Proof.
  unfold bind. destruct (m n out) as [[[a n1] o1]|]; [eauto|discriminate].
Qed.

Lemma grows_ret {A} (a : A) : grows (ret a).
Proof. intros n out a' n' out' [= <- <- <-]. exists []. now rewrite app_nil_r. Qed.

Lemma grows_fail {A} msg : grows (A:=A) (fail msg).
Proof. intros n out a' n' out' H. discriminate. Qed.

Lemma grows_lift {A} (r : result A) : grows (lift r).
Proof.
  intros n out a' n' out' H. unfold lift in H. destruct r; [|discriminate].
  injection H as <- <- <-. exists []. now rewrite app_nil_r.
Qed.

Lemma grows_emit i : grows (emit i).
Proof. intros n out a' n' out' [= <- <- <-]. eauto. Qed.

Lemma grows_bind {A B} (m : EM A) (k : A -> EM B) :
  grows m -> (forall a, grows (k a)) -> grows (bind m k).
Proof.
  intros Hm Hk n out b n' out' H.
  apply bind_ok in H as (a & n1 & o1 & E1 & E2).
  destruct (Hm _ _ _ _ _ E1) as [s1 ->]. destruct (Hk _ _ _ _ _ _ E2) as [s2 ->].
  exists (s1 ++ s2). now rewrite app_assoc.
Qed.

Ltac grow :=
  repeat match goal with
  | |- grows (bind _ _) => apply grows_bind; [|intros ?]
  | |- grows (ret _) => apply grows_ret
  | |- grows (fail _) => apply grows_fail
  | |- grows (lift _) => apply grows_lift
  | |- grows (emit _) => apply grows_emit
  | |- grows (irtype _ _) => apply grows_lift
  | |- grows (lltype _ _) => apply grows_lift
  | |- grows (match ?x with _ => _ end) => destruct x
  end.

Lemma grows_copy env t src dst : grows (copy env t src dst).
Proof. unfold copy. grow. Qed.

Lemma grows_variant_ty env enty variant : grows (variant_ty env enty variant).
Proof.
  unfold variant_ty. grow. induction (args a); cbn; grow; auto.
Qed.

Lemma grows_call_args lower xs :
  (forall x, grows (lower x)) -> grows (call_args lower xs).
Proof. intros H. induction xs; cbn; grow; auto. Qed.

Lemma grows_enum_of t : grows (enum_of t).
Proof. unfold enum_of. grow. Qed.

Lemma grows_build env : forall fuel,
  (forall e, grows (build_place env fuel e)) /\
  (forall e d, grows (build_expr env fuel e d)) /\
  (forall f a s, grows (build_call env fuel f a s)) /\
  (forall e, grows (build_unit env fuel e)) /\
  (forall e d, grows (build_aggregate env fuel e d)) /\
  (forall e, grows (build_scalar env fuel e)).
Proof.
  induction fuel as [|f (IP & IE & IC & IU & IA & IS)];
    [repeat split; intros; apply grows_fail|].
  repeat split; intros; cbn; grow;
    auto using grows_copy, grows_variant_ty, grows_call_args, grows_enum_of.

  all: lazymatch goal with
  | |- grows (?F ?i ?xs) =>
      let G := fresh "G" in
      set (G := F); generalize i; subst G; induction xs; intros; cbn; grow; auto
  | |- grows (?F ?xs) => induction xs as [|[? ?] ?]; cbn; grow; auto
  end.
Qed.

Lemma call_args_slots lower xs n out :
  call_args lower xs n out =
  bind (lower_all lower xs) (fun vs => ret (arg_slots vs)) n out.
Proof.
  revert n out. induction xs as [|x xs IH]; intros n out; [reflexivity|].
  cbn. unfold bind. destruct (lower x n out) as [[[v n1] o1]|]; [|reflexivity].
  rewrite IH. unfold bind. destruct (lower_all lower xs n1 o1) as [[[vs n2] o2]|];
    [|reflexivity].
  destruct v; reflexivity.
Qed.

Ltac peel H a m o E := apply bind_ok in H as (a & m & o & E & H).

(** C4: lowering, by [build_expr], a call whose type is Aggregate
    yields the aggregate value [p], where [p] is the destination when
    one is given and otherwise a register allocated by an [alloca]
    emitted first; the last instruction emitted is the call, whose
    arguments are the ABI slots of the arguments lowered in order with
    no destination (unit values dropped, aggregates by address, scalars
    by value) followed by exactly one more, [p]. *)
Theorem build_expr_call_sret env fuel e func args dst n out v n' out' R :
  ExprKind.kind e = ExprKind.Call func args ->
  TypeBuilder.irtype (tybld env) (ty e) = Ok R ->
  kind R = TypeKind.Aggregate ->
  build_expr env fuel e dst n out = Ok (v, n', out') ->
  exists p fnty fv vals n2 o2 n3 o3,
    v = Value.Aggregate p /\
    match dst with
    | Some d => p = d
    | None => exists sty suf,
        TypeBuilder.lltype (tybld env) (ty e) = Ok sty /\
        p = VReg n /\ o2 = out ++ (n, Alloca sty) :: suf
    end /\
    lower_all (fun a => build_expr env (fuel - 3) a None) args n2 o2 = Ok (vals, n3, o3) /\
    out' = o3 ++ [(n3, Call fnty fv (arg_slots vals ++ [p]))] /\
    n' = S n3.
Proof.
  intros Hk HR HA H.
  destruct fuel as [|f]; [discriminate|].
  cbn [build_expr] in H. peel H R' n0 o0 E0.
  unfold irtype, lift in E0. rewrite HR in E0. injection E0 as <- <- <-.
  rewrite HA in H. peel H p n1 o1 Ep. peel H u n2 o2 Ea.
  unfold ret in H. injection H as <- <- <-.
  destruct f as [|f]; [discriminate|].
  cbn [build_aggregate] in Ea. rewrite Hk in Ea. cbn beta iota in Ea.
  peel Ea u' n3 o3 Ec. unfold ret in Ea. injection Ea as <- <- <-.
  destruct f as [|f]; [discriminate|].
  cbn [build_call] in Ec.
  peel Ec Fty n4 o4 E4. peel Ec fty0 n5 o5 E5. peel Ec fnty n6 o6 E6.
  peel Ec fv n7 o7 E7. peel Ec la n8 o8 E8.
  rewrite call_args_slots in E8. peel E8 vals n9 o9 E9.
  unfold ret in E8. injection E8 as <- <- <-.
  cbn beta iota in Ec. unfold emit in Ec. injection Ec as <- <- <-.
  exists p, fnty, fv, vals, n7, o7, n9, o9.
  replace (S (S (S f)) - 3) with f by lia.
  repeat split; try assumption.
  destruct dst as [d|]; [injection Ep as <- _ _; reflexivity|].
  peel Ep sty n10 o10 E10. unfold emit in Ep. injection Ep as <- <- <-.
  unfold lltype, lift in E10.
  destruct (TypeBuilder.lltype (tybld env) (ty e)) as [sty'|] eqn:Elt; [|discriminate].
  injection E10 as <- <- <-.
  exists sty'.
  destruct (grows_lift _ _ _ _ _ _ E4) as [s1 ->].
  assert (Hg : grows (match Fty with
                      | Ty.Func _ => ret (ty func)
                      | Ty.Pointer fnty => ret fnty
                      | _ => fail "explicit panic"
                      end)) by (destruct Fty; grow).
  destruct (Hg _ _ _ _ _ E5) as [s2 ->].
  destruct (grows_lift _ _ _ _ _ _ E6) as [s3 ->].
  destruct (proj2 (proj2 (proj2 (proj2 (proj2 (grows_build env f))))) _ _ _ _ _ _ E7)
    as [s4 ->].
  exists (s1 ++ s2 ++ s3 ++ s4). split; [reflexivity|]. split; [reflexivity|].
  now rewrite <- !app_assoc.
Qed.

End ExprProofs.

(** ** Statement lowering: frames, loop shapes and terminators *)

Module StmtProofs.
Import StmtBuilder StmtFacts.

Lemma rbind_ok {A B} (m : result A) (k : A -> result B) r :
  rbind m k = Ok r -> exists a, m = Ok a /\ k a = Ok r.
Proof. destruct m as [a|e]; cbn; [eauto|discriminate]. Qed.

Lemma length_modify_nth {A} i (f : A -> A) l :
  List.length (modify_nth i f l) = List.length l.
Proof. revert i; induction l; intros [|i]; cbn; auto. Qed.

Lemma nth_modify_nth_eq {A} i (f : A -> A) l d :
  i < List.length l -> nth i (modify_nth i f l) d = f (nth i l d).
Proof. revert i; induction l; intros [|i] H; cbn in *; try lia; auto with arith. Qed.

Lemma nth_modify_nth_neq {A} i k (f : A -> A) l d :
  i <> k -> nth i (modify_nth k f l) d = nth i l d.
Proof.
  revert i k; induction l; intros [|i] [|k] H; cbn; auto; try lia.
Qed.

Lemma nth_app_new {A} i (l : list A) x d :
  i < List.length l -> nth i (l ++ [x]) d = nth i l d.
Proof. intros H. now rewrite app_nth1. Qed.

Lemma append_block_eq s h s' :
  append_block s = (h, s') ->
  h = List.length (blocks s) /\ blocks s' = blocks s ++ [[]] /\ block s' = block s /\
  next s' = next s /\ break_dest s' = break_dest s /\ continue_dest s' = continue_dest s.
Proof. intros [= <- <-]. cbn. auto 7. Qed.

Lemma run_expr_eq {A} (m : EM A) s a s' :
  run_expr m s = Ok (a, s') ->
  exists out n, m (next s) [] = Ok (a, n, out) /\
    blocks s' = modify_nth (block s) (fun bb => bb ++ map (fun '(r, i) => Inst r i) out) (blocks s) /\
    block s' = block s /\ next s' = n /\
    break_dest s' = break_dest s /\ continue_dest s' = continue_dest s.
Proof.
  unfold run_expr. destruct (m (next s) []) as [[[a0 n] out]|]; [|discriminate].
  intros [= <- <-]. exists out, n. cbn. auto 7.
Qed.


Lemma wframe_refl s : block s < List.length (blocks s) -> wframe s s.
Proof.
  intros H. repeat split; auto. exists []. now rewrite app_nil_r.
Qed.

Lemma wframe_trans s1 s2 s3 : wframe s1 s2 -> wframe s2 s3 -> wframe s1 s3.
Proof.
  intros (B0 & L1 & B1 & U1 & M1 & [x1 P1]) (_ & L2 & B2 & U2 & M2 & [x2 P2]).
  split; [exact B0|]. split; [lia|]. split; [exact B2|]. split.
  - intros i Hi Hn.
    assert (i <> block s2) by (destruct M1 as [E|E]; [rewrite E; exact Hn|lia]).
    rewrite U2 by (auto; lia). now apply U1.
  - split; [destruct M1, M2; [left; congruence|right; lia..]|].
    destruct M1 as [E|M1].
    + unfold current in P2. rewrite E in P2. rewrite P2, P1.
      exists (x1 ++ x2). now rewrite app_assoc.
    + exists x1. rewrite U2; [exact P1|lia|lia].
Qed.

Lemma wframe_term s0 s t : wframe s0 s -> wframe s0 (build_term t s).
Proof.
  intros W. apply (wframe_trans _ s); [exact W|].
  destruct W as (_ & _ & B & _).
  cbn. unfold wframe, current; cbn. rewrite length_modify_nth.
  repeat split; auto.
  - intros i Hi Hn. now rewrite nth_modify_nth_neq.
  - exists [Term t]. now rewrite nth_modify_nth_eq.
Qed.

Lemma wframe_run {A} s0 s (m : EM A) a s' :
  wframe s0 s -> run_expr m s = Ok (a, s') -> wframe s0 s'.
Proof.
  intros W H. apply (wframe_trans _ s); [exact W|].
  destruct W as (_ & _ & B & _).
  destruct (run_expr_eq _ _ _ _ H) as (out & n & _ & Hb & Hk & _).
  unfold wframe, current. rewrite Hb, Hk, length_modify_nth.
  repeat split; auto.
  - intros i Hi Hn. now rewrite nth_modify_nth_neq.
  - eexists. now rewrite nth_modify_nth_eq.
Qed.

Lemma wframe_append s0 s h s' :
  wframe s0 s -> append_block s = (h, s') -> wframe s0 s'.
Proof.
  intros W H. apply (wframe_trans _ s); [exact W|].
  destruct W as (_ & _ & B & _).
  destruct (append_block_eq _ _ _ H) as (_ & Hb & Hk & _).
  unfold wframe, current. rewrite Hb, Hk, length_app. cbn.
  repeat split; auto; try lia.
  - intros i Hi Hn. now rewrite nth_app_new.
  - exists []. rewrite nth_app_new; auto. now rewrite app_nil_r.
Qed.

Lemma wframe_pos s0 s b :
  wframe s0 s -> List.length (blocks s0) <= b < List.length (blocks s) ->
  wframe s0 (position_at_end b s).
Proof.
  intros (B0 & L & B & U & M & P) Hb. unfold wframe, current in *; cbn.
  repeat split; auto; lia.
Qed.

Lemma wframe_block s s' : wframe s s' -> block s' < List.length (blocks s').
Proof. now intros (_ & _ & B & _). Qed.

Lemma wframe_length s s' : wframe s s' -> List.length (blocks s) <= List.length (blocks s').
Proof. now intros (_ & L & _). Qed.

Section Frame.
Variable env : Env.


Lemma build_block_frame ss : Forall (frame_ok env) ss ->
  forall s s', block s < List.length (blocks s) ->
  build_block_with (build_stmt env) ss s = Ok s' ->
  wframe s s' /\ break_dest s' = break_dest s /\ continue_dest s' = continue_dest s.
Proof.
  induction 1 as [|st ss Hst _ IH]; intros s s' B H; cbn in H.
  - injection H as <-. auto using wframe_refl.
  - apply rbind_ok in H as (s1 & E1 & H).
    destruct (Hst _ _ B E1) as (W1 & K1 & C1).
    destruct (IH _ _ (wframe_block _ _ W1) H) as (W2 & K2 & C2).
    split; [eapply wframe_trans; eauto|]. split; congruence.
Qed.

Lemma run_expr_len {A} (m : EM A) s a s' :
  run_expr m s = Ok (a, s') ->
  List.length (blocks s') = List.length (blocks s) /\ block s' = block s /\
  break_dest s' = break_dest s /\ continue_dest s' = continue_dest s.
Proof.
  intros H. destruct (run_expr_eq _ _ _ _ H) as (out & n & _ & Hb & Hk & _ & K & C).
  rewrite Hb, length_modify_nth. auto.
Qed.

Lemma append_block_len s h s' :
  append_block s = (h, s') ->
  h = List.length (blocks s) /\ List.length (blocks s') = S (List.length (blocks s)) /\
  block s' = block s /\ break_dest s' = break_dest s /\ continue_dest s' = continue_dest s.
Proof.
  intros H. destruct (append_block_eq _ _ _ H) as (Hh & Hb & Hk & _ & K & C).
  rewrite Hb, length_app, Nat.add_1_r. auto.
Qed.

Lemma term_len t s : List.length (blocks (build_term t s)) = List.length (blocks s).
Proof. cbn. apply length_modify_nth. Qed.

Lemma build_stmt_frame st : frame_ok env st.
Proof.
  induction st as [x y|x|x|c0 b0 Hb|c0 b0 Hb|i0 c0 p0 b0 Hi Hp Hb| |] using Stmt_ind2; intros s s' B H; cbn [build_stmt] in H.
  - apply rbind_ok in H as ([u s1] & E & H). injection H as <-.
    destruct (run_expr_len _ _ _ _ E) as (_ & _ & K & C).
    split; [eapply wframe_run; eauto using wframe_refl|auto].
  - apply rbind_ok in H as ([v s1] & E & H).
    destruct (run_expr_len _ _ _ _ E) as (_ & _ & K & C).
    assert (W : wframe s s1) by (eapply wframe_run; eauto using wframe_refl).
    destruct v; injection H as <-; (split; [apply wframe_term; exact W | cbn; auto]).
  - apply rbind_ok in H as ([u s1] & E & H). injection H as <-.
    destruct (run_expr_len _ _ _ _ E) as (_ & _ & K & C).
    split; [eapply wframe_run; eauto using wframe_refl|auto].
  - (* If *)
    apply rbind_ok in H as ([c s1] & E1 & H). cbn beta iota in H.
    destruct (append_block s1) as [then_ s2] eqn:A2.
    destruct (append_block s2) as [done s3] eqn:A3.
    apply rbind_ok in H as (s6 & E6 & H). injection H as <-.
    destruct (run_expr_len _ _ _ _ E1) as (L1 & _ & K1 & C1).
    destruct (append_block_len _ _ _ A2) as (H2 & L2 & _ & K2 & C2).
    destruct (append_block_len _ _ _ A3) as (H3 & L3 & _ & K3 & C3).
    assert (W1 : wframe s s1) by (eapply wframe_run; eauto using wframe_refl).
    assert (W3 : wframe s s3) by (eapply wframe_append; [eapply wframe_append|]; eauto).
    assert (W5 : wframe s (position_at_end then_ (build_term (CondBr c then_ done) s3)))
      by (apply wframe_pos; [apply wframe_term; exact W3|rewrite term_len; lia]).
    destruct (build_block_frame _ Hb _ _ (wframe_block _ _ W5) E6) as (W6 & K6 & C6).
    assert (W6' := wframe_trans _ _ _ W5 W6).
    assert (L6 := wframe_length _ _ W6). cbn in L6. rewrite ?length_modify_nth in L6.
    cbn in K6, C6.
    destruct (get_terminator (current s6)).
    + split; [apply wframe_pos; [exact W6'|lia]|cbn; split; congruence].
    + split; [apply wframe_pos; [apply wframe_term; exact W6'|rewrite term_len; lia]|].
      cbn; split; congruence.
  - (* While *)
    destruct (append_block s) as [head s1] eqn:A1.
    destruct (append_block s1) as [then_ s2] eqn:A2.
    destruct (append_block s2) as [done s3] eqn:A3.
    apply rbind_ok in H as ([c s6] & E6 & H). cbn beta iota in H.
    apply rbind_ok in H as (s9 & E9 & H). injection H as <-.
    destruct (append_block_len _ _ _ A1) as (H1 & L1 & _ & K1 & C1).
    destruct (append_block_len _ _ _ A2) as (H2 & L2 & _ & K2 & C2).
    destruct (append_block_len _ _ _ A3) as (H3 & L3 & _ & K3 & C3).
    assert (W3 : wframe s s3)
      by (eapply wframe_append; [eapply wframe_append; [eapply wframe_append|]|];
          eauto using wframe_refl).
    assert (W5 : wframe s (position_at_end head (build_term (Br head) s3)))
      by (apply wframe_pos; [apply wframe_term; exact W3|rewrite term_len; lia]).
    destruct (run_expr_len _ _ _ _ E6) as (L6 & _ & K6 & C6). cbn in L6, K6, C6.
    rewrite ?length_modify_nth in L6.
    assert (W6 := wframe_run _ _ _ _ _ W5 E6).
    assert (W8 : wframe s (push_dests done head
                   (position_at_end then_ (build_term (CondBr c then_ done) s6))))
      by (apply wframe_pos; [apply wframe_term; exact W6|rewrite term_len; lia]).
    destruct (build_block_frame _ Hb _ _ (wframe_block _ _ W8) E9) as (W9 & K9 & C9).
    assert (W9' := wframe_trans _ _ _ W8 W9).
    assert (L9 := wframe_length _ _ W9). cbn in L9. rewrite ?length_modify_nth in L9.
    cbn in K9, C9.
    destruct (get_terminator (current (pop_dests s9))).
    + split; [apply wframe_pos; [exact W9'|cbn; lia]|cbn; rewrite K9, C9; cbn; split; congruence].
    + split; [apply wframe_pos; [apply wframe_term; exact W9'|cbn; rewrite length_modify_nth; lia]|].
      cbn; rewrite K9, C9; cbn; split; congruence.
  - (* For *)
    apply rbind_ok in H as (s1 & E1 & H).
    destruct (build_block_frame _ Hi _ _ B E1) as (W1 & K1 & C1).
    destruct (append_block s1) as [head s2] eqn:A2.
    destruct (append_block s2) as [then_ s3] eqn:A3.
    destruct (append_block s3) as [tail s4] eqn:A4.
    destruct (append_block s4) as [done s5] eqn:A5.
    apply rbind_ok in H as ([c s8] & E8 & H). cbn beta iota in H.
    apply rbind_ok in H as (s11 & E11 & H).
    apply rbind_ok in H as (s15 & E15 & H). injection H as <-.
    destruct (append_block_len _ _ _ A2) as (H2 & L2 & _ & K2 & C2).
    destruct (append_block_len _ _ _ A3) as (H3 & L3 & _ & K3 & C3).
    destruct (append_block_len _ _ _ A4) as (H4 & L4 & _ & K4 & C4).
    destruct (append_block_len _ _ _ A5) as (H5 & L5 & _ & K5 & C5).
    assert (LW1 := wframe_length _ _ W1).
    assert (W5 : wframe s s5)
      by (eapply wframe_append; [eapply wframe_append;
            [eapply wframe_append; [eapply wframe_append|]|]|]; eauto).
    assert (W7 : wframe s (position_at_end head (build_term (Br head) s5)))
      by (apply wframe_pos; [apply wframe_term; exact W5|rewrite term_len; lia]).
    destruct (run_expr_len _ _ _ _ E8) as (L8 & _ & K8 & C8). cbn in L8, K8, C8.
    rewrite ?length_modify_nth in L8.
    assert (W8 := wframe_run _ _ _ _ _ W7 E8).
    assert (W10 : wframe s (push_dests done tail
                   (position_at_end then_ (build_term (CondBr c then_ done) s8))))
      by (apply wframe_pos; [apply wframe_term; exact W8|rewrite term_len; lia]).
    destruct (build_block_frame _ Hb _ _ (wframe_block _ _ W10) E11) as (W11 & K11 & C11).
    assert (W11' := wframe_trans _ _ _ W10 W11).
    assert (L11 := wframe_length _ _ W11). cbn in L11. rewrite ?length_modify_nth in L11.
    cbn in K11, C11.
    set (s13 := match get_terminator (current (pop_dests s11)) with
                | Some _ => pop_dests s11
                | None => build_term (Br tail) (pop_dests s11)
                end) in E15.
    assert (W13 : wframe s s13 /\ List.length (blocks s13) = List.length (blocks s11) /\
                  break_dest s13 = break_dest s /\ continue_dest s13 = continue_dest s).
    { unfold s13. destruct (get_terminator (current (pop_dests s11))).
      - split; [exact W11'|cbn; rewrite K11, C11; cbn; split; [reflexivity|split; congruence]].
      - split; [apply wframe_term; exact W11'|].
        cbn; rewrite length_modify_nth, K11, C11; cbn; split; [reflexivity|split; congruence]. }
    destruct W13 as (W13 & L13 & K13 & C13).
    assert (W14 : wframe s (position_at_end tail s13))
      by (apply wframe_pos; [exact W13|lia]).
    destruct (build_block_frame _ Hp _ _ (wframe_block _ _ W14) E15) as (W15 & K15 & C15).
    assert (W15' := wframe_trans _ _ _ W14 W15).
    assert (L15 := wframe_length _ _ W15). cbn in L15, K15, C15.
    split.
    + apply wframe_pos; [apply wframe_term; exact W15'|rewrite term_len; lia].
    + cbn. split; congruence.
  - (* Break *)
    destruct (break_dest s) as [|b l] eqn:Eb; [discriminate|]. injection H as <-.
    split; [apply wframe_term, wframe_refl, B|cbn; rewrite Eb; split; reflexivity].
  - destruct (continue_dest s) as [|b l] eqn:Eb; [discriminate|]. injection H as <-.
    split; [apply wframe_term, wframe_refl, B|cbn; rewrite Eb; split; reflexivity].
Qed.
End Frame.


Ltac lens := repeat (rewrite length_modify_nth || rewrite length_app); cbn; lia.

Ltac nths := repeat first
    [ rewrite nth_modify_nth_neq by lia
    | rewrite nth_modify_nth_eq by lens
    | rewrite app_nth1 by lens ].

Lemma while_shape env cond body s s' :
  block s < List.length (blocks s) ->
  build_stmt env (While cond body) s = Ok s' ->
  let head := List.length (blocks s) in
  let then_ := S head in
  let done := S (S head) in
  exists c n out s8 s9,
    nth (block s) (blocks s') [] = current s ++ [Term (Br head)] /\
    build_scalar env (expr_fuel cond) cond (next s) [] = Ok (c, n, out) /\
    nth head (blocks s') [] = insts out ++ [Term (CondBr c then_ done)] /\
    block s8 = then_ /\ List.length (blocks s8) = S done /\ current s8 = [] /\ next s8 = n /\
    break_dest s8 = done :: break_dest s /\ continue_dest s8 = head :: continue_dest s /\
    build_block env body s8 = Ok s9 /\
    nth (block s9) (blocks s') [] =
      current s9 ++ match get_terminator (current s9) with
                    | None => [Term (Br head)]
                    | Some _ => []
                    end /\
    (forall i, i <> block s9 -> nth i (blocks s') [] = nth i (blocks s9) []) /\
    List.length (blocks s') = List.length (blocks s9) /\
    block s' = done /\ current s' = [] /\
    break_dest s' = break_dest s /\ continue_dest s' = continue_dest s.
Proof.
  intros B H head then_ done. subst head then_ done.
  set (L := List.length (blocks s)).
  cbn [build_stmt] in H.
  destruct (append_block s) as [h1 s1] eqn:A1.
  destruct (append_block s1) as [h2 s2] eqn:A2.
  destruct (append_block s2) as [h3 s3] eqn:A3.
  destruct (append_block_eq _ _ _ A1) as (-> & B1 & K1 & N1 & D1 & C1).
  destruct (append_block_eq _ _ _ A2) as (-> & B2 & K2 & N2 & D2 & C2).
  destruct (append_block_eq _ _ _ A3) as (-> & B3 & K3 & N3 & D3 & C3).
  assert (E1 : List.length (blocks s1) = S L) by (rewrite B1, length_app; cbn; lia).
  assert (E2 : List.length (blocks s2) = S (S L)) by (rewrite B2, length_app; cbn; lia).
  rewrite E1, E2 in H. fold L in H.
  apply rbind_ok in H as ([c s6] & E6 & H). cbn beta iota in H.
  apply rbind_ok in H as (s9 & E9 & H). injection H as <-.
  destruct (run_expr_eq _ _ _ _ E6) as (out & n & Ec & B6 & K6 & N6 & D6 & C6).
  cbn in Ec, B6, K6, N6, D6, C6.
  rewrite K3, K2, K1 in B6. rewrite N3, N2, N1 in Ec.
  rewrite B3, B2, B1 in B6.
  match type of E9 with build_block_with _ _ ?x = _ => set (s8 := x) in E9 end.
  assert (Fb : Forall (frame_ok env) body)
    by (apply Forall_forall; intros; apply build_stmt_frame).
  assert (L6 : List.length (blocks s6) = S (S (S L)))
    by (rewrite B6, !length_modify_nth, !length_app; cbn; lia).
  assert (B8 : block s8 < List.length (blocks s8))
    by (unfold s8; cbn; rewrite length_modify_nth; lia).
  destruct (build_block_frame env body Fb s8 s9 B8 E9)
    as ((_ & L9 & Bl9 & U9 & M9 & _) & K9 & C9).
  unfold s8 in L9, U9, M9, K9, C9; cbn in L9, U9, M9, K9, C9.
  rewrite length_modify_nth, L6 in L9, U9, M9.
  exists c, n, out, s8, s9.
  assert (Hs' : forall i, i <> block s9 ->
     nth i (blocks (position_at_end (S (S L))
        match get_terminator (current (pop_dests s9)) with
        | Some _ => pop_dests s9
        | None => build_term (Br L) (pop_dests s9)
        end)) [] = nth i (blocks s9) []).
  { intros i Hi. destruct (get_terminator (current (pop_dests s9))); cbn; [reflexivity|].
    now rewrite nth_modify_nth_neq. }
  assert (Hsf : nth (block s9) (blocks (position_at_end (S (S L))
        match get_terminator (current (pop_dests s9)) with
        | Some _ => pop_dests s9
        | None => build_term (Br L) (pop_dests s9)
        end)) [] = current s9 ++ match get_terminator (current s9) with
                    | None => [Term (Br L)]
                    | Some _ => []
                    end).
  { unfold current; cbn.
    destruct (get_terminator (nth (block s9) (blocks s9) [])); cbn.
    - now rewrite app_nil_r.
    - now rewrite nth_modify_nth_eq. }
  set (sf := position_at_end (S (S L)) _) in Hs', Hsf |- *.
  assert (Bsf : break_dest sf = tl (break_dest s9) /\ continue_dest sf = tl (continue_dest s9)
                /\ block sf = S (S L)).
  { unfold sf. destruct (get_terminator _); cbn; auto. }
  destruct Bsf as (Dsf & Csf & Ksf).
  assert (Bs9 : block s9 <> block s /\ block s9 <> L /\ block s9 <> S (S L)).
  { destruct M9 as [M9|M9]; rewrite M9 || idtac; lia. }
  assert (Ls : List.length (blocks s6) = S (S (S L))) by exact L6.
  split; [|split; [exact Ec|split]].
  { rewrite Hs' by lia. rewrite U9 by lia. unfold s8; cbn. rewrite B6. nths.
    reflexivity. }
  { rewrite Hs' by lia. rewrite U9 by lia. unfold s8; cbn. rewrite B6, K6. cbn. nths.
    rewrite app_nth2 by lia. fold L. rewrite Nat.sub_diag. reflexivity. }
  assert (S8 : block s8 = S L /\ current s8 = [] /\ next s8 = n /\
     break_dest s8 = S (S L) :: break_dest s /\ continue_dest s8 = L :: continue_dest s).
  { unfold s8, current; cbn. rewrite N6, D6, C6, D3, D2, D1, C3, C2, C1, K6, B6.
    repeat split. nths. rewrite app_nth2 by (rewrite ?length_app; cbn; lia).
    rewrite ?length_app. cbn [Datatypes.length]. fold L.
    now replace (S L - (L + 1)) with 0 by lia. }
  destruct S8 as (S81 & S82 & S83 & S84 & S85).
  split; [assumption|].
  split; [unfold s8; cbn; rewrite length_modify_nth; exact L6|].
  do 5 (split; [assumption|]).
  split; [exact Hsf|].
  split; [exact Hs'|].
  split; [unfold sf; destruct (get_terminator _); cbn; rewrite ?length_modify_nth; reflexivity|].
  split; [rewrite Ksf; reflexivity|].
  split.
  { unfold current. rewrite Ksf, Hs' by lia. rewrite U9 by lia. rewrite K6, B6. nths.
    rewrite app_nth2 by (rewrite ?length_app; cbn; lia).
    rewrite ?length_app. cbn [Datatypes.length]. fold L.
    now replace (S (S L) - (L + 1 + 1)) with 0 by lia. }
  rewrite Dsf, Csf, K9, C9. cbn. rewrite D6, C6, D3, D2, D1, C3, C2, C1. auto.
Qed.

Lemma for_shape env init cond post body s s' :
  block s < List.length (blocks s) ->
  build_stmt env (For init cond post body) s = Ok s' ->
  exists s1 c n out s10 s11 s14 s15,
    build_block env init s = Ok s1 /\
    let head := List.length (blocks s1) in
    let then_ := S head in
    let tail := S (S head) in
    let done := S (S (S head)) in
    nth (block s1) (blocks s') [] = current s1 ++ [Term (Br head)] /\
    build_scalar env (expr_fuel cond) cond (next s1) [] = Ok (c, n, out) /\
    nth head (blocks s') [] = insts out ++ [Term (CondBr c then_ done)] /\
    block s10 = then_ /\ List.length (blocks s10) = S done /\
    (forall i, i < head -> i <> block s1 -> nth i (blocks s10) [] = nth i (blocks s1) []) /\
    current s10 = [] /\ next s10 = n /\
    break_dest s10 = done :: break_dest s /\ continue_dest s10 = tail :: continue_dest s /\
    build_block env body s10 = Ok s11 /\
    nth (block s11) (blocks s') [] =
      current s11 ++ match get_terminator (current s11) with
                     | None => [Term (Br tail)]
                     | Some _ => []
                     end /\
    (forall i, i <> block s11 -> nth i (blocks s14) [] = nth i (blocks s11) []) /\
    List.length (blocks s14) = List.length (blocks s11) /\
    block s14 = tail /\ current s14 = [] /\ next s14 = next s11 /\
    break_dest s14 = break_dest s /\ continue_dest s14 = continue_dest s /\
    build_block env post s14 = Ok s15 /\
    nth (block s15) (blocks s') [] = current s15 ++ [Term (Br head)] /\
    (forall i, i <> block s15 -> nth i (blocks s') [] = nth i (blocks s15) []) /\
    List.length (blocks s') = List.length (blocks s15) /\
    block s' = done /\ current s' = [] /\
    break_dest s' = break_dest s /\ continue_dest s' = continue_dest s.
Proof.
  intros B H. cbn [build_stmt] in H.
  apply rbind_ok in H as (s1 & E1 & H).
  assert (Fi : Forall (frame_ok env) init)
    by (apply Forall_forall; intros; apply build_stmt_frame).
  assert (Fb : Forall (frame_ok env) body)
    by (apply Forall_forall; intros; apply build_stmt_frame).
  assert (Fp : Forall (frame_ok env) post)
    by (apply Forall_forall; intros; apply build_stmt_frame).
  destruct (build_block_frame env init Fi s s1 B E1) as (W1 & KD1 & KC1).
  pose proof (wframe_block _ _ W1) as Bl1.
  exists s1.
  set (L := List.length (blocks s1)) in *.
  assert (HL : L = List.length (blocks s1)) by reflexivity.
  destruct (append_block s1) as [h2 s2] eqn:A2.
  destruct (append_block s2) as [h3 s3] eqn:A3.
  destruct (append_block s3) as [h4 s4] eqn:A4.
  destruct (append_block s4) as [h5 s5] eqn:A5.
  destruct (append_block_eq _ _ _ A2) as (-> & B2 & K2 & N2 & D2 & C2).
  destruct (append_block_eq _ _ _ A3) as (-> & B3 & K3 & N3 & D3 & C3).
  destruct (append_block_eq _ _ _ A4) as (-> & B4 & K4 & N4 & D4 & C4).
  destruct (append_block_eq _ _ _ A5) as (-> & B5 & K5 & N5 & D5 & C5).
  assert (E3 : List.length (blocks s2) = S L) by (rewrite B2, length_app; cbn; lia).
  assert (E4 : List.length (blocks s3) = S (S L)) by (rewrite B3, length_app, E3; cbn; lia).
  assert (E5 : List.length (blocks s4) = S (S (S L))) by (rewrite B4, length_app, E4; cbn; lia).
  rewrite E3, E4, E5 in H. fold L in H.
  apply rbind_ok in H as ([c s8] & E8 & H). cbn beta iota in H.
  apply rbind_ok in H as (s11 & E11 & H).
  apply rbind_ok in H as (s15 & E15 & H). injection H as <-.
  destruct (run_expr_eq _ _ _ _ E8) as (out & n & Ec & B8 & K8 & N8 & D8 & C8).
  cbn in Ec, B8, K8, N8, D8, C8.
  rewrite K5, K4, K3, K2 in B8. rewrite N5, N4, N3, N2 in Ec.
  rewrite B5, B4, B3, B2 in B8.
  exists c, n, out.
  match type of E11 with build_block_with _ _ ?x = _ => set (s10 := x) in E11 end.
  assert (L8 : List.length (blocks s8) = S (S (S (S L))))
    by (rewrite B8, !length_modify_nth, !length_app; cbn; lia).
  assert (B10 : block s10 < List.length (blocks s10))
    by (unfold s10; cbn; rewrite length_modify_nth; lia).
  destruct (build_block_frame env body Fb s10 s11 B10 E11)
    as ((_ & L11 & Bl11 & U11 & M11 & _) & K11 & C11).
  unfold s10 in L11, U11, M11, K11, C11; cbn in L11, U11, M11, K11, C11.
  rewrite length_modify_nth, L8 in L11, U11, M11.
  match type of E15 with build_block_with _ _ ?x = _ => set (s14 := x) in E15 end.
  assert (Hs14 : forall i, i <> block s11 -> nth i (blocks s14) [] = nth i (blocks s11) []).
  { intros i Hi. unfold s14, current; cbn.
    destruct (get_terminator _); cbn; [reflexivity|]. now rewrite nth_modify_nth_neq. }
  assert (Hs14' : nth (block s11) (blocks s14) [] =
     current s11 ++ match get_terminator (current s11) with
                    | None => [Term (Br (S (S L)))]
                    | Some _ => []
                    end).
  { unfold s14, current; cbn.
    destruct (get_terminator (nth (block s11) (blocks s11) [])); cbn.
    - now rewrite app_nil_r.
    - now rewrite nth_modify_nth_eq. }
  assert (S14 : List.length (blocks s14) = List.length (blocks s11) /\ block s14 = S (S L) /\
                next s14 = next s11 /\
                break_dest s14 = tl (break_dest s11) /\ continue_dest s14 = tl (continue_dest s11)).
  { unfold s14; destruct (get_terminator _); cbn; rewrite ?length_modify_nth; auto. }
  destruct S14 as (L14 & K14 & N14 & D14 & C14).
  assert (B14 : block s14 < List.length (blocks s14)) by lia.
  destruct (build_block_frame env post Fp s14 s15 B14 E15)
    as ((_ & L15 & Bl15 & U15 & M15 & _) & K15 & C15).
  rewrite K14, L14 in U15, M15.
  assert (Bs11 : block s11 <> block s1 /\ block s11 <> L /\ block s11 <> S (S L) /\
                 block s11 <> S (S (S L))).
  { destruct M11 as [M|M]; rewrite M || idtac; lia. }
  assert (Bs15 : block s15 <> block s1 /\ block s15 <> L /\ block s15 <> block s11 /\
                 block s15 <> S (S (S L))).
  { destruct M15 as [M|M]; rewrite M || idtac; lia. }
  exists s10, s11, s14, s15.
  split; [exact E1|]. cbv zeta.
  split.
  { cbn. rewrite nth_modify_nth_neq by lia. rewrite U15 by lia. rewrite Hs14 by lia.
    rewrite U11 by lia. rewrite K8, B8. nths. reflexivity. }
  split; [exact Ec|].
  split.
  { cbn. rewrite nth_modify_nth_neq by lia. rewrite U15 by lia. rewrite Hs14 by lia.
    rewrite U11 by lia. rewrite K8, B8. nths.
    rewrite app_nth2 by lia. fold L. rewrite Nat.sub_diag. reflexivity. }
  assert (S10 : block s10 = S L /\ current s10 = [] /\ next s10 = n /\
     break_dest s10 = S (S (S L)) :: break_dest s /\
     continue_dest s10 = S (S L) :: continue_dest s).
  { unfold s10, current; cbn.
    rewrite N8, D8, C8, D5, D4, D3, D2, C5, C4, C3, C2, KD1, KC1, K8, B8.
    repeat split. nths. rewrite app_nth2 by (rewrite ?length_app; cbn; lia).
    rewrite ?length_app. cbn [Datatypes.length]. fold L.
    now replace (S L - (L + 1)) with 0 by lia. }
  destruct S10 as (S101 & S102 & S103 & S104 & S105).
  split; [assumption|].
  split; [unfold s10; cbn; rewrite length_modify_nth; exact L8|].
  split; [intros i Hi Hn; unfold s10; cbn; rewrite K8, B8; nths; reflexivity|].
  do 5 (split; [assumption|]).
  split.
  { cbn. rewrite nth_modify_nth_neq by lia. rewrite U15 by lia. exact Hs14'. }
  split; [exact Hs14|].
  split; [exact L14|].
  split; [exact K14|].
  split.
  { unfold current. rewrite K14, Hs14 by lia. rewrite U11 by lia. rewrite K8, B8. nths.
    rewrite app_nth2 by (rewrite ?length_app; cbn; lia).
    rewrite ?length_app. cbn [Datatypes.length]. fold L.
    now replace (S (S L) - (L + 1 + 1)) with 0 by lia. }
  split; [exact N14|].
  split.
  { rewrite D14, K11. cbn. rewrite D8, D5, D4, D3, D2. exact KD1. }
  split.
  { rewrite C14, C11. cbn. rewrite C8, C5, C4, C3, C2. exact KC1. }
  split; [exact E15|].
  split.
  { cbn. rewrite nth_modify_nth_eq by exact Bl15. reflexivity. }
  split; [intros i Hi; cbn; now rewrite nth_modify_nth_neq|].
  split; [cbn; now rewrite length_modify_nth|].
  split; [reflexivity|].
  split.
  { unfold current; cbn. rewrite nth_modify_nth_neq by lia. rewrite U15 by lia.
    rewrite Hs14 by lia. rewrite U11 by lia. rewrite K8, B8. nths.
    rewrite app_nth2 by (rewrite ?length_app; cbn; lia).
    rewrite ?length_app. cbn [Datatypes.length]. fold L.
    now replace (S (S (S L)) - (L + 1 + 1 + 1)) with 0 by lia. }
  cbn. rewrite K15, C15, D14, C14, K11, C11. cbn.
  rewrite D8, D5, D4, D3, D2, C8, C5, C4, C3, C2. auto.
Qed.

Lemma if_shape env cond body s s' :
  block s < List.length (blocks s) ->
  build_stmt env (If cond body) s = Ok s' ->
  let then_ := List.length (blocks s) in
  let done := S then_ in
  exists c n out s5 s6,
    build_scalar env (expr_fuel cond) cond (next s) [] = Ok (c, n, out) /\
    nth (block s) (blocks s') [] = current s ++ insts out ++ [Term (CondBr c then_ done)] /\
    block s5 = then_ /\ List.length (blocks s5) = S done /\ current s5 = [] /\ next s5 = n /\
    break_dest s5 = break_dest s /\ continue_dest s5 = continue_dest s /\
    build_block env body s5 = Ok s6 /\
    nth (block s6) (blocks s') [] =
      current s6 ++ match get_terminator (current s6) with
                    | None => [Term (Br done)]
                    | Some _ => []
                    end /\
    (forall i, i <> block s6 -> nth i (blocks s') [] = nth i (blocks s6) []) /\
    List.length (blocks s') = List.length (blocks s6) /\
    block s' = done /\ current s' = [] /\
    break_dest s' = break_dest s /\ continue_dest s' = continue_dest s.
Proof.
  intros B H then_ done. subst then_ done.
  set (L := List.length (blocks s)).
  assert (B' : block s < List.length (blocks s)) by exact B.
  cbn [build_stmt] in H.
  apply rbind_ok in H as ([c s1] & E1 & H). cbn beta iota in H.
  destruct (run_expr_eq _ _ _ _ E1) as (out & n & Ec & B1 & K1 & N1 & D1 & C1).
  destruct (append_block s1) as [h2 s2] eqn:A2.
  destruct (append_block s2) as [h3 s3] eqn:A3.
  destruct (append_block_eq _ _ _ A2) as (-> & B2 & K2 & N2 & D2 & C2).
  destruct (append_block_eq _ _ _ A3) as (-> & B3 & K3 & N3 & D3 & C3).
  assert (E2 : List.length (blocks s1) = L) by (rewrite B1, length_modify_nth; reflexivity).
  assert (E3 : List.length (blocks s2) = S L) by (rewrite B2, length_app, E2; cbn; lia).
  rewrite E2, E3 in H.
  apply rbind_ok in H as (s6 & E6 & H). injection H as <-.
  match type of E6 with build_block_with _ _ ?x = _ => set (s5 := x) in E6 end.
  assert (Fb : Forall (frame_ok env) body)
    by (apply Forall_forall; intros; apply build_stmt_frame).
  assert (L5 : List.length (blocks s5) = S (S L))
    by (unfold s5; cbn; rewrite length_modify_nth, B3, length_app, E3; cbn; lia).
  assert (B5 : block s5 < List.length (blocks s5)) by (rewrite L5; unfold s5; cbn; lia).
  destruct (build_block_frame env body Fb s5 s6 B5 E6)
    as ((_ & L6 & Bl6 & U6 & M6 & _) & K6 & C6).
  rewrite L5 in L6, U6, M6.
  assert (K5 : block s5 = L) by reflexivity.
  rewrite K5 in U6, M6.
  exists c, n, out, s5, s6.
  set (sf := position_at_end (S L) _).
  assert (Hs' : forall i, i <> block s6 -> nth i (blocks sf) [] = nth i (blocks s6) []).
  { intros i Hi. unfold sf, current; cbn.
    destruct (get_terminator _); cbn; [reflexivity|]. now rewrite nth_modify_nth_neq. }
  assert (Bs6 : block s6 <> block s /\ block s6 <> S L).
  { destruct M6 as [M|M]; rewrite M || idtac; lia. }
  split; [exact Ec|].
  split.
  { rewrite Hs' by lia. rewrite U6 by lia. unfold s5; cbn. rewrite K3, K2, K1.
    nths. rewrite B3, B2, B1. nths. unfold current, insts. now rewrite app_assoc. }
  split; [reflexivity|].
  split; [exact L5|].
  split.
  { unfold s5, current; cbn. rewrite K3, K2, K1. nths. rewrite B3, B2.
    rewrite app_nth1 by (rewrite ?length_app, E2; cbn; lia).
    rewrite app_nth2 by (rewrite E2; lia). rewrite E2, Nat.sub_diag. reflexivity. }
  split; [unfold s5; cbn; rewrite N3, N2, N1; reflexivity|].
  split; [unfold s5; cbn; rewrite D3, D2, D1; reflexivity|].
  split; [unfold s5; cbn; rewrite C3, C2, C1; reflexivity|].
  split; [exact E6|].
  split.
  { unfold sf, current; cbn.
    destruct (get_terminator (nth (block s6) (blocks s6) [])); cbn.
    - now rewrite app_nil_r.
    - now rewrite nth_modify_nth_eq. }
  split; [exact Hs'|].
  split; [unfold sf; destruct (get_terminator _); cbn; rewrite ?length_modify_nth; reflexivity|].
  split; [reflexivity|].
  split.
  { unfold current at 1. cbn [block sf position_at_end]. rewrite Hs' by lia.
    rewrite U6 by lia. unfold s5; cbn. rewrite K3, K2, K1. nths. rewrite B3.
    rewrite app_nth2 by lia. now rewrite E3, Nat.sub_diag. }
  assert (Bsf : break_dest sf = break_dest s6 /\ continue_dest sf = continue_dest s6).
  { unfold sf. destruct (get_terminator _); cbn; auto. }
  destruct Bsf as [-> ->]. rewrite K6, C6. unfold s5; cbn. rewrite D3, D2, D1, C3, C2, C1. auto.
Qed.


Lemma open_get_terminator bb : open_bb bb = true -> get_terminator bb = None.
Proof.
  unfold open_bb, get_terminator. intros H.
  destruct (rev bb) as [|[r i|t] l] eqn:E; auto.
  assert (In (Term t) bb) by (apply in_rev; rewrite E; left; reflexivity).
  rewrite forallb_forall in H. apply H in H0. discriminate.
Qed.

Lemma open_close bb t : open_bb bb = true -> terminated_once (bb ++ [Term t]) = true.
Proof.
  induction bb as [|[r i|t'] bb IH]; cbn; intros H; auto; try discriminate.
Qed.

Lemma closed_shape bb : terminated_once bb = true ->
  exists pre t, bb = pre ++ [Term t] /\ open_bb pre = true.
Proof.
  induction bb as [|[r i|t] bb IH]; cbn; intros H; try discriminate.
  - destruct bb as [|x bb]; [discriminate|].
    destruct (IH H) as (pre & t & E & O).
    exists (Inst r i :: pre), t. rewrite E. auto.
  - destruct bb; [|discriminate]. exists [], t. auto.
Qed.

Lemma closed_get_terminator bb : terminated_once bb = true -> get_terminator bb <> None.
Proof.
  intros H. destruct (closed_shape bb H) as (pre & t & -> & _).
  unfold get_terminator. rewrite rev_app_distr. cbn. discriminate.
Qed.

Lemma open_app a b : open_bb (a ++ b) = open_bb a && open_bb b.
Proof. apply forallb_app. Qed.

Lemma open_insts out : open_bb (insts out) = true.
Proof. induction out as [|[r i] out IH]; cbn; auto. Qed.

Lemma close_fallthrough (j : bool) bb t :
  (if j then terminated_once bb = true else open_bb bb = true) ->
  terminated_once (bb ++ match get_terminator bb with
                         | None => [Term t]
                         | Some _ => []
                         end) = true.
Proof.
  destruct j; intros H.
  - destruct (get_terminator bb) eqn:G.
    + now rewrite app_nil_r.
    + now apply closed_get_terminator in H.
  - rewrite open_get_terminator by exact H. now apply open_close.
Qed.

Lemma closes_refl s : block s < List.length (blocks s) -> open_bb (current s) = true ->
  closes s s false.
Proof. intros B O. split; [intros i Hi Hn [H|H]; lia | exact O]. Qed.

Lemma closes_trans s s1 s' j :
  closes s s1 false -> wframe s1 s' -> closes s1 s' j -> closes s s' j.
Proof.
  intros [C1 _] (B1 & L1 & _ & U & _) [C2 O2]. split; [|exact O2].
  intros i Hi Hn Hd.
  destruct (Nat.lt_ge_cases i (List.length (blocks s1))) as [Lt|Ge]; [|apply C2; auto].
  destruct (Nat.eq_dec i (block s1)) as [->|Ne]; [apply C2; auto|].
  rewrite U by auto. apply C1; auto.
Qed.

Lemma closes_run {A} s (m : EM A) a s1 :
  block s < List.length (blocks s) -> open_bb (current s) = true ->
  run_expr m s = Ok (a, s1) -> closes s s1 false.
Proof.
  intros B O H. destruct (run_expr_eq _ _ _ _ H) as (out & n & _ & Hb & Hk & _).
  split.
  - rewrite Hb, Hk, length_modify_nth. intros i Hi Hn [Hd|Hd]; lia.
  - unfold current. rewrite Hb, Hk, nth_modify_nth_eq by exact B.
    rewrite open_app. fold (current s). rewrite O. apply open_insts.
Qed.

Lemma closes_term s s1 t :
  closes s s1 false -> block s1 = block s -> List.length (blocks s1) = List.length (blocks s) ->
  block s < List.length (blocks s) -> closes s (build_term t s1) true.
Proof.
  intros [_ O] K L B. split.
  - cbn. rewrite length_modify_nth, L, K. intros i Hi Hn [Hd|Hd]; lia.
  - unfold current; cbn. rewrite nth_modify_nth_eq by lia. now apply open_close.
Qed.

Lemma run_expr_frame {A} s (m : EM A) a s1 :
  run_expr m s = Ok (a, s1) ->
  block s1 = block s /\ List.length (blocks s1) = List.length (blocks s).
Proof.
  intros H. destruct (run_expr_eq _ _ _ _ H) as (out & n & _ & Hb & Hk & _).
  now rewrite Hb, Hk, length_modify_nth.
Qed.

Section Closed.
Variable env : Env.


Lemma build_block_closes ss : Forall (closes_ok env) ss -> forall jl,
  wf_list wf_stmt jl ss = true -> forall s s', block s < List.length (blocks s) ->
  open_bb (current s) = true -> build_block env ss s = Ok s' ->
  closes s s' (last_jump ss) /\ (jl = false -> last_jump ss = false).
Proof.
  induction 1 as [|st ss Hst Fss IH]; intros jl W s s' B O H; cbn in H.
  - injection H as <-. split; [now apply closes_refl|reflexivity].
  - apply rbind_ok in H as (s1 & E1 & H). cbn [wf_list] in W.
    apply andb_prop in W as [Wst W].
    pose proof (Hst Wst s s1 B O E1) as C1.
    destruct ss as [|x ss'].
    + cbn in H. injection H as <-. cbn [last_jump]. split; [exact C1|].
      intros ->. destruct (is_jump st); [discriminate|reflexivity].
    + apply andb_prop in W as [Nj W]. destruct (is_jump st) eqn:J; [discriminate|].
      destruct (build_stmt_frame env st s s1 B E1) as (W1 & _).
      pose proof (wframe_block _ _ W1) as B1.
      destruct (IH jl W s1 s' B1 (proj2 C1) H) as [C2 J2].
      assert (Ff : Forall (frame_ok env) (x :: ss'))
        by (apply Forall_forall; intros; apply build_stmt_frame).
      destruct (build_block_frame env _ Ff s1 s' B1 H) as (W2 & _).
      split; [|exact J2].
      apply (closes_trans _ s1); auto.
Qed.

Lemma build_stmt_closes st : closes_ok env st.
Proof.
  induction st as [x y|x|x|c0 b0 Hb|c0 b0 Hb|i0 c0 p0 b0 Hi Hp Hb| |] using Stmt_ind2;
    intros Wf s s' B O H.
  - (* Assign *)
    cbn [build_stmt] in H. apply rbind_ok in H as ([a s1] & E1 & H). injection H as <-.
    eapply closes_run; eauto.
  - (* Return *)
    cbn [build_stmt] in H. apply rbind_ok in H as ([v s1] & E1 & H).
    pose proof (closes_run _ _ _ _ B O E1) as C1.
    destruct (run_expr_frame _ _ _ _ E1) as [K1 L1].
    destruct v; injection H as <-; apply closes_term; auto.
  - (* SExpr *)
    cbn [build_stmt] in H. apply rbind_ok in H as ([a s1] & E1 & H). injection H as <-.
    eapply closes_run; eauto.
  - (* If *)
    destruct (if_shape env c0 b0 s s' B H)
      as (c & n & out & s5 & s6 & _ & Hb0 & K5 & L5 & C5 & _ & _ & _ & E6 & H6 & U6 & L6 & K' & C' & _).
    cbn in Wf.
    assert (B5 : block s5 < List.length (blocks s5)) by lia.
    assert (O5 : open_bb (current s5) = true) by now rewrite C5.
    destruct (build_block_closes b0 Hb true Wf s5 s6 B5 O5 E6) as [[C6 J6] _].
    split; [|rewrite C'; reflexivity].
    intros i Hi Hn Hd.
    destruct (Nat.eq_dec i (block s)) as [->|N1].
    { rewrite Hb0, app_assoc. apply open_close. rewrite open_app, O. apply open_insts. }
    destruct (Nat.eq_dec i (block s6)) as [->|N2].
    { rewrite H6. now apply close_fallthrough with (j := last_jump b0). }
    rewrite U6 by exact N2. apply C6; [lia|exact N2|].
    destruct (Nat.eq_dec i (block s5)); [right; assumption|left; lia].
  - (* While *)
    destruct (while_shape env c0 b0 s s' B H)
      as (c & n & out & s8 & s9 & Hb0 & _ & Hh & K8 & L8 & C8 & _ & _ & _ & E9 & H9 & U9 & L9 & K' & C' & _).
    cbn in Wf.
    assert (B8 : block s8 < List.length (blocks s8)) by lia.
    assert (O8 : open_bb (current s8) = true) by now rewrite C8.
    destruct (build_block_closes b0 Hb true Wf s8 s9 B8 O8 E9) as [[C9 J9] _].
    split; [|rewrite C'; reflexivity].
    intros i Hi Hn Hd.
    destruct (Nat.eq_dec i (block s)) as [->|N1].
    { rewrite Hb0. now apply open_close. }
    destruct (Nat.eq_dec i (List.length (blocks s))) as [->|N0].
    { rewrite Hh. apply open_close, open_insts. }
    destruct (Nat.eq_dec i (block s9)) as [->|N2].
    { rewrite H9. now apply close_fallthrough with (j := last_jump b0). }
    rewrite U9 by exact N2. apply C9; [lia|exact N2|].
    destruct (Nat.eq_dec i (block s8)); [right; assumption|left; lia].
  - (* For *)
    destruct (for_shape env i0 c0 p0 b0 s s' B H)
      as (s1 & c & n & out & s10 & s11 & s14 & s15 & E1 & Hf).
    cbv zeta in Hf.
    destruct Hf as (H1 & _ & Hh & K10 & L10 & U10 & C10 & _ & _ & _ & E11 & H11 & U14 & L14 &
                    K14 & C14 & _ & _ & _ & E15 & H15 & Us & Ls & K' & C' & _).
    cbn [wf_stmt] in Wf. apply andb_prop in Wf as [Wf Wb]. apply andb_prop in Wf as [Wi Wp].
    destruct (build_block_closes i0 Hi false Wi s s1 B O E1) as [Cs J1].
    rewrite (J1 eq_refl) in Cs. destruct Cs as [Ci Oi].
    assert (Fa : forall l, Forall (frame_ok env) l)
      by (intros; apply Forall_forall; intros; apply build_stmt_frame).
    destruct (build_block_frame env i0 (Fa i0) s s1 B E1) as (W1 & _).
    pose proof (wframe_block _ _ W1) as B1.
    set (L := List.length (blocks s1)) in *.
    assert (HL : L = List.length (blocks s1)) by reflexivity.
    assert (B10 : block s10 < List.length (blocks s10)) by lia.
    assert (O10 : open_bb (current s10) = true) by now rewrite C10.
    destruct (build_block_closes b0 Hb true Wb s10 s11 B10 O10 E11) as [[Cb Ob] _].
    destruct (build_block_frame env b0 (Fa b0) s10 s11 B10 E11)
      as ((_ & L11 & Bl11 & U11 & M11 & _) & _).
    assert (B14 : block s14 < List.length (blocks s14)) by lia.
    assert (O14 : open_bb (current s14) = true) by now rewrite C14.
    destruct (build_block_closes p0 Hp false Wp s14 s15 B14 O14 E15) as [Cp J15].
    rewrite (J15 eq_refl) in Cp. destruct Cp as [Cp Op].
    destruct (build_block_frame env p0 (Fa p0) s14 s15 B14 E15)
      as ((_ & L15 & Bl15 & U15 & M15 & _) & _).
    split; [|rewrite C'; reflexivity].
    intros i Hi' Hn Hd. rewrite K' in Hn.
    assert (N15 : block s15 = S (S L) \/ List.length (blocks s14) <= block s15)
      by (destruct M15 as [M|M]; [left; lia|right; exact M]).
    assert (N11 : block s11 = S L \/ List.length (blocks s10) <= block s11)
      by (destruct M11 as [M|M]; [left; lia|right; exact M]).
    destruct (Nat.lt_ge_cases i L) as [Lt|Ge].
    + destruct (Nat.eq_dec i (block s1)) as [->|N1].
      { rewrite H1. now apply open_close. }
      rewrite Us by lia. rewrite U15 by lia. rewrite U14 by lia. rewrite U11 by lia.
      rewrite U10 by lia. apply Ci; auto.
    + destruct (Nat.eq_dec i L) as [->|N0].
      { rewrite Hh. apply open_close, open_insts. }
      destruct (Nat.eq_dec i (block s15)) as [->|N2].
      { rewrite H15. now apply open_close. }
      destruct (Nat.eq_dec i (block s11)) as [->|N3].
      { rewrite H11. now apply close_fallthrough with (j := last_jump b0). }
      rewrite Us by exact N2.
      destruct (Nat.eq_dec i (S (S L))) as [E|NE].
      { apply Cp; [lia|exact N2|right; lia]. }
      destruct (Nat.lt_ge_cases i (List.length (blocks s14))) as [Lt14|Ge14].
      2:{ apply Cp; [lia|exact N2|left; exact Ge14]. }
      rewrite U15 by lia. rewrite U14 by exact N3.
      apply Cb; [lia|exact N3|].
      destruct (Nat.eq_dec i (S L)) as [E|NE']; [right; lia|left; lia].
  - (* Break *)
    cbn [build_stmt] in H. destruct (break_dest s) as [|b l]; [discriminate|].
    injection H as <-. apply closes_term; auto. now apply closes_refl.
  - (* Continue *)
    cbn [build_stmt] in H. destruct (continue_dest s) as [|b l]; [discriminate|].
    injection H as <-. apply closes_term; auto. now apply closes_refl.
Qed.

End Closed.

Lemma func_body_state_eq tb llfuncs llconsts func fb s :
  func_body_state tb llfuncs llconsts func fb = Ok s ->
  exists env out n, build_block env (body fb) (mkState [insts out] 0 n [] []) = Ok s.
Proof.
  unfold func_body_state. intros H.
  apply rbind_ok in H as (? & _ & H).
  apply rbind_ok in H as (? & _ & H).
  apply rbind_ok in H as (? & _ & H).
  destruct (alloca_locals _ _ _ _) as [[[lcls n] out]|e]; [|discriminate].
  eexists _, out, n. exact H.
Qed.

Lemma func_body_state_block tb llfuncs llconsts func fb s :
  func_body_state tb llfuncs llconsts func fb = Ok s ->
  block s < List.length (blocks s).
Proof.
  intros H. destruct (func_body_state_eq _ _ _ _ _ _ H) as (env & out & n & E).
  assert (F : Forall (frame_ok env) (body fb))
    by (apply Forall_forall; intros; apply build_stmt_frame).
  destruct (build_block_frame env _ F (mkState [insts out] 0 n [] []) _ (le_n 1) E)
    as (W & _).
  exact (wframe_block _ _ W).
Qed.

(** C6: [break] (resp. [continue]) branches to the top of the break
    (resp. continue) target stack and fails with an internal error on an
    empty stack; every statement leaves both stacks as it found them;
    the body of a [while] is lowered with the loop's done block (where
    lowering resumes after the loop) pushed on the break stack and its
    head on the continue stack, the body of a [for] with its done block
    and its tail block (the start of the post statements); so in
    [for (;true;) { while (true) { break; } }] the [break] jumps to the
    [while]'s done block (7), not to the [for]'s (4). *)
Theorem break_continue_innermost :
  (forall env s, build_stmt env Break s =
     match break_dest s with
     | b :: _ => Ok (build_term (Br b) s)
     | [] => Err "can't break outside of loop"
     end) /\
  (forall env s, build_stmt env Continue s =
     match continue_dest s with
     | b :: _ => Ok (build_term (Br b) s)
     | [] => Err "can't continue outside of loop"
     end) /\
  (forall env st s s', block s < List.length (blocks s) -> build_stmt env st s = Ok s' ->
     break_dest s' = break_dest s /\ continue_dest s' = continue_dest s) /\
  (forall env cond body s s', block s < List.length (blocks s) ->
     build_stmt env (While cond body) s = Ok s' ->
     exists s8 s9, build_block env body s8 = Ok s9 /\
       break_dest s8 = block s' :: break_dest s /\
       continue_dest s8 = List.length (blocks s) :: continue_dest s) /\
  (forall env init cond post body s s', block s < List.length (blocks s) ->
     build_stmt env (For init cond post body) s = Ok s' ->
     exists s1 s10 s11 s14 s15,
       build_block env init s = Ok s1 /\ build_block env body s10 = Ok s11 /\
       build_block env post s14 = Ok s15 /\ current s14 = [] /\
       break_dest s10 = block s' :: break_dest s /\
       continue_dest s10 = block s14 :: continue_dest s) /\
  build_func_body ex_tb [VFunc 0] [] (ex_fd 2) (mkFuncBody 0 [] nested_break_body)
    = Ok nested_break_blocks /\
  build_func_body ex_tb [VFunc 0] [] (ex_fd 2) (mkFuncBody 0 [] [Break])
    = Err "can't break outside of loop" /\
  build_func_body ex_tb [VFunc 0] [] (ex_fd 2) (mkFuncBody 0 [] [Continue])
    = Err "can't continue outside of loop".
Proof.
  split; [reflexivity|]. split; [reflexivity|].
  split.
  { intros env st s s' B H. now destruct (build_stmt_frame env st s s' B H) as (_ & K & C). }
  split.
  { intros env cond body s s' B H.
    destruct (while_shape env cond body s s' B H)
      as (c & n & out & s8 & s9 & _ & _ & _ & _ & _ & _ & _ & D8 & C8 & E9 & _ & _ & _ & K' & _).
    exists s8, s9. rewrite K'. auto. }
  split.
  { intros env init cond post body s s' B H.
    destruct (for_shape env init cond post body s s' B H)
      as (s1 & c & n & out & s10 & s11 & s14 & s15 & E1 & Hf).
    cbv zeta in Hf.
    destruct Hf as (_ & _ & _ & _ & _ & _ & _ & _ & D10 & C10 & E11 & _ & _ & _ &
                    K14 & C14 & _ & _ & _ & E15 & _ & _ & _ & K' & _).
    exists s1, s10, s11, s14, s15. rewrite K', K14. auto 7. }
  split; [vm_compute; reflexivity|].
  split; vm_compute; reflexivity.
Qed.

(** C7: when no statement follows a [return], [break] or [continue] in
    the same list (and the initializer and post statements of a [for]
    do not end in one), every basic block of the lowered function ends
    in exactly one terminator and has no other: the fallthrough branches
    added after [if], [while] and [for] bodies are skipped exactly when
    the body's last block is already terminated. *)
Theorem build_func_body_terminated tb llfuncs llconsts func fb bbs :
  wf_list wf_stmt true (body fb) = true ->
  build_func_body tb llfuncs llconsts func fb = Ok bbs ->
  forallb terminated_once bbs = true.
Proof.
  intros Wf H. unfold build_func_body in H.
  apply rbind_ok in H as (s & Hs & H). injection H as <-.
  destruct (func_body_state_eq _ _ _ _ _ _ Hs) as (env & out & n & E).
  assert (Fc : Forall (closes_ok env) (body fb))
    by (apply Forall_forall; intros; apply build_stmt_closes).
  assert (Ff : Forall (frame_ok env) (body fb))
    by (apply Forall_forall; intros; apply build_stmt_frame).
  destruct (build_block_closes env _ Fc true Wf (mkState [insts out] 0 n [] []) s (le_n 1)
              (open_insts out) E)
    as [[C O] _].
  destruct (build_block_frame env _ Ff (mkState [insts out] 0 n [] []) _ (le_n 1) E)
    as (W & _).
  pose proof (wframe_block _ _ W) as B.
  apply forallb_forall. intros bb Hin.
  set (s' := match get_terminator (current s) with
             | None => build_term RetVoid s
             | Some _ => s
             end) in Hin.
  assert (Hs' : forall i, nth i (blocks s') [] =
     if Nat.eqb i (block s)
     then current s ++ match get_terminator (current s) with
                       | None => [Term RetVoid]
                       | Some _ => []
                       end
     else nth i (blocks s) []).
  { intros i. unfold s', current.
    destruct (Nat.eqb_spec i (block s)) as [->|Ne];
      destruct (get_terminator (nth (block s) (blocks s) [])); cbn;
      rewrite ?app_nil_r; auto.
    - now rewrite nth_modify_nth_eq.
    - now rewrite nth_modify_nth_neq. }
  assert (Ls' : List.length (blocks s') = List.length (blocks s))
    by (unfold s'; destruct (get_terminator _); cbn; rewrite ?length_modify_nth; reflexivity).
  clearbody s'.
  apply (In_nth _ _ []) in Hin as (i & Hi & <-).
  rewrite Hs'. destruct (Nat.eqb_spec i (block s)) as [->|Ne].
  - now apply close_fallthrough with (j := last_jump (body fb)).
  - apply C; cbn; [rewrite <- Ls'; exact Hi|exact Ne|lia].
Qed.

(** C8: lowering [while (cond) body] from a state whose current block is
    [b] appends three blocks, head, then and done: [b] branches to head;
    head evaluates [cond] and branches to then or done; the body is
    lowered from then with done on the break stack and head on the
    continue stack; the body's last block, when not already terminated,
    branches back to head; lowering resumes in done.  Lowering
    [for (init; cond; post) body] lowers [init] once from [b], then
    appends head, then, tail and done: the block where [init] ended
    branches to head; head evaluates [cond] and branches to then or
    done; the body is lowered from then with done on the break stack
    and tail on the continue stack; its last block, when not already
    terminated, branches to tail; [post] is lowered from tail (with the
    stacks of the enclosing code) and its last block branches to head;
    lowering resumes in done. *)
Theorem loop_shapes :
  (forall env cond body s s',
    block s < List.length (blocks s) ->
    build_stmt env (While cond body) s = Ok s' ->
    let head := List.length (blocks s) in
    let then_ := S head in
    let done := S (S head) in
    exists c n out s8 s9,
      nth (block s) (blocks s') [] = current s ++ [Term (Br head)] /\
      build_scalar env (expr_fuel cond) cond (next s) [] = Ok (c, n, out) /\
      nth head (blocks s') [] = insts out ++ [Term (CondBr c then_ done)] /\
      block s8 = then_ /\ current s8 = [] /\ next s8 = n /\
      break_dest s8 = done :: break_dest s /\ continue_dest s8 = head :: continue_dest s /\
      build_block env body s8 = Ok s9 /\
      nth (block s9) (blocks s') [] =
        current s9 ++ match get_terminator (current s9) with
                      | None => [Term (Br head)]
                      | Some _ => []
                      end /\
      block s' = done /\ current s' = [] /\
      break_dest s' = break_dest s /\ continue_dest s' = continue_dest s) /\
  (forall env init cond post body s s',
    block s < List.length (blocks s) ->
    build_stmt env (For init cond post body) s = Ok s' ->
    exists s1 c n out s10 s11 s14 s15,
      build_block env init s = Ok s1 /\
      let head := List.length (blocks s1) in
      let then_ := S head in
      let tail := S (S head) in
      let done := S (S (S head)) in
      nth (block s1) (blocks s') [] = current s1 ++ [Term (Br head)] /\
      build_scalar env (expr_fuel cond) cond (next s1) [] = Ok (c, n, out) /\
      nth head (blocks s') [] = insts out ++ [Term (CondBr c then_ done)] /\
      block s10 = then_ /\ current s10 = [] /\ next s10 = n /\
      break_dest s10 = done :: break_dest s /\ continue_dest s10 = tail :: continue_dest s /\
      build_block env body s10 = Ok s11 /\
      nth (block s11) (blocks s') [] =
        current s11 ++ match get_terminator (current s11) with
                       | None => [Term (Br tail)]
                       | Some _ => []
                       end /\
      block s14 = tail /\ current s14 = [] /\ next s14 = next s11 /\
      break_dest s14 = break_dest s /\ continue_dest s14 = continue_dest s /\
      build_block env post s14 = Ok s15 /\
      nth (block s15) (blocks s') [] = current s15 ++ [Term (Br head)] /\
      block s' = done /\ current s' = [] /\
      break_dest s' = break_dest s /\ continue_dest s' = continue_dest s).
Proof.
  split.
  - intros env cond body s s' B H head then_ done.
    destruct (while_shape env cond body s s' B H)
      as (c & n & out & s8 & s9 & H1 & H2 & H3 & H4 & _ & H5 & H6 & H7 & H8 & H9 & H10 &
          _ & _ & H11 & H12 & H13 & H14).
    exists c, n, out, s8, s9. tauto.
  - intros env init cond post body s s' B H.
    destruct (for_shape env init cond post body s s' B H)
      as (s1 & c & n & out & s10 & s11 & s14 & s15 & E1 & Hf).
    cbv zeta in Hf.
    destruct Hf as (H1 & H2 & H3 & H4 & _ & _ & H5 & H6 & H7 & H8 & H9 & H10 & _ & _ &
                    H11 & H12 & H13 & H14 & H15 & H16 & H17 & _ & _ & H18 & H19 & H20 & H21).
    exists s1, c, n, out, s10, s11, s14, s15. cbv zeta. tauto.
Qed.

(** C10: when the builder's state after the statements of a function
    body has an unterminated current block, [build_func_body] appends
    [ret void] to that block and returns the blocks; nothing depends on
    the function's declared return type. *)
Theorem build_func_body_implicit_ret tb llfuncs llconsts func fb s :
  func_body_state tb llfuncs llconsts func fb = Ok s ->
  get_terminator (current s) = None ->
  block s < List.length (blocks s) /\
  build_func_body tb llfuncs llconsts func fb =
    Ok (modify_nth (block s) (fun bb => bb ++ [Term RetVoid]) (blocks s)).
Proof.
  intros Hs G. split; [exact (func_body_state_block _ _ _ _ _ _ Hs)|].
  unfold build_func_body. rewrite Hs. cbn -[get_terminator current]. now rewrite G.
Qed.

End StmtProofs.

Module LiteralProofs.

Lemma unescape_go_escape s : unescape_go (escape_literal s) false = s.
Proof.
  induction s as [|c s IH]; [reflexivity|].
  cbn [escape_literal].
  destruct (Ascii.eqb_spec c (Ascii.ascii_of_nat 92)) as [->|H92];
    [cbn; now rewrite IH|].
  destruct (Ascii.eqb_spec c (Ascii.ascii_of_nat 10)) as [->|H10];
    [cbn; now rewrite IH|].
  destruct (Ascii.eqb_spec c (Ascii.ascii_of_nat 9)) as [->|H9];
    [cbn; now rewrite IH|].
  cbn [unescape_go]. apply Ascii.eqb_neq in H92. rewrite H92. cbn. now rewrite IH.
Qed.

Lemma string_length_app s t : String.length (s ++ t) = String.length s + String.length t.
Proof. induction s; cbn; auto. Qed.

Lemma substring_prefix s t : substring 0 (String.length s) (s ++ t) = s.
Proof. induction s; cbn; [destruct t|]; f_equal; auto. Qed.

Lemma substring_delimit q1 q2 s :
  substring 1 (String.length (delimit q1 q2 s) - 2) (delimit q1 q2 s) = s.
Proof.
  unfold delimit. cbn [String.length]. rewrite string_length_app. cbn [String.length].
  replace (S (String.length s + 1) - 2) with (String.length s) by lia.
  cbn [substring]. apply substring_prefix.
Qed.

(** X1: [unescape] of [llvm.rs] and of [codegen.rs] undo the escaping
    of [escape_literal]: a literal written with its backslashes, newlines
    and tabs escaped, between any two delimiters, unescapes to itself. *)
Theorem unescape_round_trip q1 q2 s :
  unescape (delimit q1 q2 (escape_literal s)) = s /\
  Codegen.unescape (delimit q1 q2 (escape_literal s)) = s.
Proof.
  unfold unescape, Codegen.unescape. rewrite substring_delimit, unescape_go_escape.
  auto.
Qed.

Lemma map_result_Forall2 {A B} (f : A -> result B) l vs :
  Codegen.map_result f l = Ok vs <-> Forall2 (fun x y => f x = Ok y) l vs.
Proof.
  revert vs. induction l as [|x l IH]; intros vs; cbn.
  - split; [intros [= <-]; constructor|intros H; inversion H; reflexivity].
  - destruct (f x) as [y|e] eqn:Ef; cbn.
    + destruct (Codegen.map_result f l) as [ys|e] eqn:El; cbn.
      * split; [intros [= <-]; constructor; [exact Ef|now apply IH]|].
        intros H. inversion H as [|? y' ? ys' Hy Hys]; subst.
        rewrite Ef in Hy. injection Hy as ->. apply IH in Hys. congruence.
      * split; [discriminate|]. intros H. inversion H as [|? y' ? ys' Hy Hys]; subst.
        apply IH in Hys. congruence.
    + split; [discriminate|]. intros H. inversion H; subst. congruence.
Qed.

Lemma unwrap_all_some {A} (l : list A) : unwrap_all (map Some l) = Ok l.
Proof. induction l; cbn; [reflexivity|]. now rewrite IHl. Qed.

Lemma set_slot_next {A} (dn : list A) v k :
  set_slot (map Some dn ++ repeat None (S k)) (List.length dn) (Some v)
  = Ok (map Some (dn ++ [v]) ++ repeat None k).
Proof.
  unfold set_slot. rewrite length_app, length_map, repeat_length.
  replace (Nat.ltb (List.length dn) (List.length dn + S k)) with true
    by (symmetry; apply Nat.ltb_lt; lia).
  f_equal. rewrite firstn_app, length_map, Nat.sub_diag, firstn_O, app_nil_r.
  rewrite firstn_all2 by (rewrite length_map; lia).
  rewrite skipn_app, length_map. rewrite skipn_all2 by (rewrite length_map; lia).
  replace (S (List.length dn) - List.length dn) with 1 by lia.
  rewrite map_app, <- app_assoc. reflexivity.
Qed.

(** X2: [build_consts] succeeds exactly when every constant builds, and
    its result lists the values of the constants in order; a single
    constant that is not an integer literal makes it fail. *)
Theorem build_consts_all tb cs vs :
  build_consts tb cs = Ok vs <->
  Forall2 (fun c v => ConstBuilder.build tb c = Ok v) cs vs.
Proof.
  rewrite <- map_result_Forall2. unfold build_consts.
  match goal with |- context [rbind (?go 0 cs _) _] =>
    assert (G : forall cs' dn, go (List.length dn) cs' (map Some dn ++ repeat None (List.length cs'))
              = rbind (Codegen.map_result (ConstBuilder.build tb) cs')
                      (fun ws => Ok (map Some (dn ++ ws))));
    [|specialize (G cs []); cbn in G; rewrite G]
  end.
  - induction cs' as [|c cs' IH]; intros dn; cbn -[repeat set_slot map].
    + now rewrite !app_nil_r.
    + destruct (ConstBuilder.build tb c) as [v|e]; cbn -[repeat set_slot map]; [|reflexivity].
      rewrite set_slot_next. cbn -[map].
      replace (S (List.length dn)) with (List.length (dn ++ [v]))
        by (rewrite length_app; cbn; lia).
      rewrite IH. destruct (Codegen.map_result (ConstBuilder.build tb) cs'); cbn;
        [|reflexivity].
      now rewrite <- app_assoc.
  - destruct (Codegen.map_result (ConstBuilder.build tb) cs); cbn;
      [rewrite unwrap_all_some|]; reflexivity.
Qed.

End LiteralProofs.

Module CodegenProofs.
(** The return type of a [FuncType] (the name [ret] is the monad's below). *)
Abbreviation fret f := (ret f) (only parsing).
Import Codegen.
Import Codegen.ExprKind (Expr, mkExpr).

Lemma count_terms_app x y : count_terms (x ++ y) = count_terms x + count_terms y.
Proof. unfold count_terms. now rewrite filter_app, length_app. Qed.

Lemma adds_ret {A} (a : A) : adds_terms (ret a) 0.
Proof. intros n bb a' n' bb' [= _ _ <-]. exists []. now rewrite app_nil_r. Qed.

Lemma adds_emit i : adds_terms (emit i) 0.
Proof. intros n bb a' n' bb' [= _ _ <-]. now exists [Inst n i]. Qed.

Lemma adds_lift {A} (r : result A) : adds_terms (lift r) 0.
Proof.
  intros n bb a' n' bb' H. unfold lift in H. destruct r; [|discriminate].
  injection H as _ _ <-. exists []. now rewrite app_nil_r.
Qed.

Lemma adds_fail {A} msg k : adds_terms (@fail A msg) k.
Proof. intros n bb a' n' bb' H. discriminate. Qed.

Lemma adds_term t : adds_terms (emit_term t) 1.
Proof. intros n bb a' n' bb' [= _ _ <-]. now exists [Term t]. Qed.

Lemma adds_bind {A B} (m : CM A) (f : A -> CM B) k1 k2 :
  adds_terms m k1 -> (forall a, adds_terms (f a) k2) -> adds_terms (bind m f) (k1 + k2).
Proof.
  intros Hm Hf n bb b n' bb' H. unfold bind in H.
  destruct (m n bb) as [[[a n1] bb1]|] eqn:E; [|discriminate].
  destruct (Hm _ _ _ _ _ E) as [e1 [-> H1]].
  destruct (Hf _ _ _ _ _ _ H) as [e2 [-> H2]].
  exists (e1 ++ e2). rewrite app_assoc, count_terms_app. split; [reflexivity|lia].
Qed.

Lemma adds_bind0 {A B} (m : CM A) (f : A -> CM B) k :
  adds_terms m 0 -> (forall a, adds_terms (f a) k) -> adds_terms (bind m f) k.
Proof. intros. apply (adds_bind m f 0 k); auto. Qed.

Ltac adds :=
  repeat first
    [ apply adds_bind0; [solve [eauto using adds_ret, adds_emit, adds_lift, adds_fail]|intro]
    | apply adds_ret | apply adds_emit | apply adds_lift | apply adds_fail | apply adds_term ].

Section Env.
Variable env : Env.

Lemma build_value_adds : forall e, adds_terms (build_value env e) 0.
Proof.
  fix IH 1. intros [t k]. destruct k as [| | | |op x y| |func args| |]; cbn.
  - apply adds_ret.
  - apply adds_fail.
  - unfold lltype. apply adds_bind0; [apply adds_lift|intro].
    destruct (parse_i64 s); [apply adds_ret|apply adds_fail].
  - unfold lltype. adds.
  - apply adds_bind0; [apply IH|intro]. apply adds_bind0; [apply IH|intro].
    destruct op; apply adds_emit.
  - apply adds_emit.
  - unfold irtype. apply adds_bind0; [apply adds_lift|intros fty].
    apply adds_bind0; [destruct fty; try apply adds_fail; apply adds_lift|intro].
    apply adds_bind0; [apply IH|intro].
    apply adds_bind0; [|intro; apply adds_emit].
    induction args as [|arg args IHa]; [apply adds_ret|].
    apply adds_bind0; [apply IH|intro]. apply adds_bind0; [exact IHa|intro].
    apply adds_ret.
  - apply adds_lift.
  - apply adds_ret.
Qed.

Lemma build_value_into_adds e dst : adds_terms (build_value_into env e dst) 0.
Proof.
  unfold build_value_into, irtype. apply adds_bind0; [apply adds_lift|intros T].
  destruct T; apply adds_bind0; try apply build_value_adds; intro; adds.
Qed.

Lemma build_stmt_adds st :
  adds_terms (build_stmt env st) (match st with Return _ => 1 | _ => 0 end).
Proof.
  destruct st as [x y|x|x]; cbn.
  - unfold build_place. apply adds_bind0; [|intro; apply build_value_into_adds].
    destruct (ExprKind.kind x); try apply adds_fail; apply adds_lift.
  - apply adds_bind0; [apply build_value_adds|intro].
    unfold irtype. apply adds_bind0; [apply adds_lift|intros T].
    destruct T; apply adds_term.
  - apply adds_bind0; [|intro; apply build_value_into_adds].
    unfold build_alloca, irtype. apply adds_bind0; [apply adds_lift|intros T].
    destruct T; unfold lltype; adds.
Qed.

Lemma build_stmts_adds ss : adds_terms (build_stmts env ss) (count_returns ss).
Proof.
  induction ss as [|st ss IH]; [apply adds_ret|].
  cbn [build_stmts]. unfold count_returns. cbn [filter].
  replace (List.length (if match st with Return _ => true | _ => false end
                        then st :: filter (fun st => match st with Return _ => true | _ => false end) ss
                        else filter (fun st => match st with Return _ => true | _ => false end) ss))
    with ((match st with Return _ => 1 | _ => 0 end) + count_returns ss)
    by (destruct st; reflexivity).
  apply adds_bind; [apply build_stmt_adds|intro; exact IH].
Qed.

End Env.

Lemma alloca_locals_adds types tys : adds_terms (alloca_locals types tys) 0.
Proof.
  induction tys as [|t tys IH]; cbn; [apply adds_ret|].
  apply adds_bind0; [apply adds_lift|intro]. apply adds_bind0; [apply adds_emit|intro].
  apply adds_bind0; [exact IH|intro]. apply adds_ret.
Qed.

(** X12: the block [codegen.rs]'s [build_func_body] produces holds
    exactly one terminator per [return] statement of the body: none is
    added at the end, and statements after a [return] are still
    lowered. *)
Theorem codegen_terminators funcs types llfuncs body bb :
  build_func_body funcs types llfuncs body = Ok bb ->
  count_terms bb = count_returns (stmts body).
Proof.
  unfold build_func_body. intros H.
  destruct (nth_or_panic funcs (id body)); [|discriminate]. cbn in H.
  destruct (nth_or_panic llfuncs (id body)); [|discriminate]. cbn in H.
  destruct (alloca_locals types (locals body) 0 []) as [[[lcls n] bb0]|] eqn:E1;
    [|discriminate].
  destruct (build_stmts _ (stmts body) n bb0) as [[[u n'] bb1]|] eqn:E2; [|discriminate].
  injection H as <-.
  destruct (alloca_locals_adds _ _ _ _ _ _ _ E1) as [e1 [-> H1]].
  destruct (build_stmts_adds _ _ _ _ _ _ _ E2) as [e2 [-> H2]].
  rewrite !count_terms_app. cbn in *. lia.
Qed.

(** X13: in [codegen.rs] an assignment [x = y] to a local of a non-unit
    type loads [x] and stores that value back into [x]: the right-hand
    side is not lowered at all. *)
Theorem codegen_assign_ignores_rhs env x y i n bb p T l :
  ExprKind.kind x = ExprKind.Local i ->
  nth_error (local_slots env) i = Some p ->
  nth_error (types env) (ExprKind.ty x) = Some T -> T <> Ty.Unit ->
  build_type (type_fuel (types env)) (types env) (ExprKind.ty x) = Ok l ->
  build_stmt env (Assign x y) n bb
  = Ok (tt, S (S n), bb ++ [Inst n (Load l p); Inst (S n) (Store (Reg n) p)]).
Proof.
  intros Hk Hp HT HU Hl. destruct x as [t k].
  cbn [ExprKind.kind ExprKind.ty] in Hk, HT, Hl. subst k.
  unfold build_stmt, build_place. cbn [ExprKind.kind ExprKind.ty].
  unfold build_value_into, irtype, bind, lift, nth_or_panic. rewrite Hp. cbn [ExprKind.ty]. rewrite HT.
  destruct T; try (exfalso; now apply HU);
    cbn [build_value]; unfold lltype, bind, lift, nth_or_panic; rewrite Hl, Hp;
    unfold emit, ret; now rewrite <- app_assoc.
Qed.




Lemma parse_digits_no_sign d z :
  parse_digits d 0 = Some z -> d <> EmptyString ->
  exists c d', d = String.String c d' /\ Ascii.eqb c "+"%char = false /\
               Ascii.eqb c "-"%char = false.
Proof.
  destruct d as [|c d']; [congruence|]. intros H _. exists c, d'. split; [reflexivity|].
  cbn in H. unfold digit in H.
  destruct (Ascii.eqb_spec c "+"%char) as [->|]; [cbn in H; discriminate|].
  destruct (Ascii.eqb_spec c "-"%char) as [->|]; [cbn in H; discriminate|].
  auto.
Qed.

(** X15: in [codegen.rs] an integer literal out of the range of [i64]
    makes [build_value] fail. *)
Theorem codegen_integer_out_of_range env t d z n bb :
  parse_digits d 0 = Some z ->
  ((2 ^ 63 <= z)%Z -> exists e, build_value env (mkExpr t (ExprKind.Integer d)) n bb = Err e) /\
  ((2 ^ 63 < z)%Z ->
   exists e, build_value env (mkExpr t (ExprKind.Integer (String.String "-"%char d))) n bb = Err e).
Proof.
  intros Hd.
  assert (Hne : (0 < z)%Z -> d <> EmptyString) by (intros ? ->; cbn in Hd; injection Hd as <-; lia).
  split; intros Hz; cbn [build_value]; unfold lltype, lift, bind, ret, fail;
    (destruct (build_type (type_fuel (types env)) (types env) t) as [l|e];
     [|now exists e]).
  - destruct (parse_digits_no_sign d z Hd (Hne ltac:(lia))) as (c & d' & -> & H1 & H2).
    cbn [parse_i64]. rewrite H1, H2. rewrite Hd. unfold i64_in_range.
    destruct (Z.ltb_spec z (2 ^ 63)); [lia|]. rewrite andb_false_r. eexists; reflexivity.
  - specialize (Hne ltac:(lia)). cbn [parse_i64]. cbn [Ascii.eqb].
    destruct d as [|c d']; [congruence|]. rewrite Hd. unfold i64_in_range.
    destruct (Z.leb_spec (- 2 ^ 63) (- z)); [lia|]. eexists; reflexivity.
Qed.

Lemma alloca_locals_ok types tys n bb ps n' bb' :
  alloca_locals types tys n bb = Ok (ps, n', bb') ->
  exists ls, map_result (build_type (type_fuel types) types) tys = Ok ls /\
    ps = map Reg (seq n (List.length tys)) /\ n' = n + List.length tys /\
    bb' = bb ++ map (fun '(r, l) => Inst r (Alloca l)) (combine (seq n (List.length ls)) ls).
Proof.
  revert n bb ps n' bb'. induction tys as [|t tys IH]; intros n bb ps n' bb' H; cbn [alloca_locals] in H.
  - injection H as <- <- <-. exists []. cbn. rewrite app_nil_r. repeat split; lia.
  - unfold bind, lift in H.
    destruct (build_type (type_fuel types) types t) as [l|] eqn:El; [|discriminate].
    unfold emit in H. destruct (alloca_locals types tys (S n) (bb ++ [Inst n (Alloca l)]))
      as [[[ps0 n0] bb0]|] eqn:E; [|discriminate].
    injection H as <- <- <-. destruct (IH _ _ _ _ _ E) as (ls & H1 & -> & -> & ->).
    exists (l :: ls). cbn [map_result]. rewrite El, H1. cbn [rbind]. cbn [List.length seq combine map]. rewrite <- app_assoc.
    repeat split; lia.
Qed.

Lemma map_result_length {A B} (f : A -> result B) l vs :
  map_result f l = Ok vs -> List.length vs = List.length l.
Proof.
  revert vs. induction l as [|x l IH]; intros vs H; cbn in H.
  - now injection H as <-.
  - destruct (f x); [|discriminate]. cbn in H.
    destruct (map_result f l) eqn:E; [|discriminate]. cbn in H.
    injection H as <-. cbn. now rewrite (IH _ eq_refl).
Qed.

(** X16: the block of [codegen.rs]'s [build_func_body] starts with the
    allocas of the locals, and the statements are lowered after them with
    the locals in registers [0, 1, ...]. *)
Theorem codegen_entry_allocas funcs types llfuncs body bb :
  build_func_body funcs types llfuncs body = Ok bb ->
  exists ls rest n',
    map_result (build_type (type_fuel types) types) (locals body) = Ok ls /\
    bb = alloca_block ls ++ rest /\
    build_stmts (mkEnv types llfuncs (map Reg (seq 0 (List.length ls)))) (stmts body)
      (List.length ls) (alloca_block ls) = Ok (tt, n', bb).
Proof.
  unfold build_func_body. intros H.
  destruct (nth_or_panic funcs (id body)); [|discriminate]. cbn in H.
  destruct (nth_or_panic llfuncs (id body)); [|discriminate]. cbn in H.
  destruct (alloca_locals types (locals body) 0 []) as [[[lcls n] bb0]|] eqn:E1;
    [|discriminate].
  destruct (build_stmts _ (stmts body) n bb0) as [[[u n'] bb1]|] eqn:E2; [|discriminate].
  injection H as <-. destruct u.
  destruct (alloca_locals_ok _ _ _ _ _ _ _ E1) as (ls & H1 & -> & -> & ->).
  pose proof (map_result_length _ _ _ H1) as HL. rewrite <- HL in E2. cbn in E2.
  destruct (build_stmts_adds _ _ _ _ _ _ _ E2) as [ext [-> _]].
  exists ls, ext, n'. unfold alloca_block. repeat split; try assumption.
Qed.



End CodegenProofs.

Module TypeBuilderProofs.
Import TypeBuilderPasses.

Lemma new_passes types :
  TypeBuilder.new types =
  '(lltypes, named) <-? pass1 types (S (List.length types)) (seq 0 (List.length types)) [] [] ;;
  pass2 types (seq 0 (List.length types)) (TypeBuilder.mk types lltypes named).
Proof.
  unfold TypeBuilder.new.
  match goal with
  | |- rbind (?p1 _ [] []) (fun x => match x with (l, n) => ?p2 _ _ end) = _ =>
    assert (H1 : forall ids acc nm,
               p1 ids acc nm = pass1 types (S (List.length types)) ids acc nm);
    [|assert (H2 : forall ids tb, p2 ids tb = pass2 types ids tb)]
  end.
  - induction ids as [|i ids IH]; intros acc nm; [reflexivity|].
    cbn -[TypeBuilder.build_type].
    destruct (TypeBuilder.build_type _ types acc nm i) as [[l n]|e]; cbn; auto.
  - induction ids as [|i ids IH]; intros tb; [reflexivity|].
    cbn -[TypeBuilder.set_struct_body TypeBuilder.set_enum_body].
    destruct (nth_error types i) as [[]|]; auto;
      match goal with |- rbind ?m _ = rbind ?m _ => destruct m; cbn; auto end.
  - rewrite H1. destruct (pass1 _ _ _ [] []) as [[l n]|e]; cbn; auto.
Qed.

Lemma pass1_steps types fuel k : forall a acc nm acc' nm',
  List.length acc = a ->
  pass1 types fuel (seq a k) acc nm = Ok (acc', nm') ->
  List.length acc' = a + k /\ firstn a acc' = acc /\
  exists N : nat -> named_table, N a = nm /\ N (a + k) = nm' /\
    forall i, a <= i < a + k ->
      TypeBuilder.build_type fuel types (firstn i acc') (N i) i = Ok (nth i acc' LVoid, N (S i)).
Proof.
  induction k as [|k IH]; intros a acc nm acc' nm' Hlen H; cbn in H.
  - injection H as <- <-. rewrite Nat.add_0_r. split; [lia|]. split.
    + rewrite firstn_all2 by lia. reflexivity.
    + exists (fun _ => nm). split; [reflexivity|]. split; [reflexivity|]. intros; lia.
  - destruct (TypeBuilder.build_type fuel types acc nm a) as [[l nm1]|] eqn:E; [|discriminate].
    cbn in H.
    destruct (IH (S a) (acc ++ [l]) nm1 acc' nm' ltac:(rewrite length_app; cbn; lia) H)
      as (L & F & N & N0 & N1 & HN).
    assert (Fa : firstn a acc' = acc).
    { replace a with (Nat.min a (S a)) by lia. rewrite <- firstn_firstn, F.
      rewrite firstn_app, firstn_all2 by lia. replace (a - List.length acc) with 0 by lia.
      now rewrite app_nil_r. }
    assert (Na : nth a acc' LVoid = l).
    { rewrite <- (firstn_skipn (S a) acc'), F, app_nth1 by (rewrite length_app; cbn; lia).
      rewrite app_nth2 by lia. now rewrite Hlen, Nat.sub_diag. }
    split; [lia|]. split; [exact Fa|].
    exists (fun i => if Nat.eqb i a then nm else N i).
    rewrite Nat.eqb_refl. split; [reflexivity|].
    split; [rewrite (proj2 (Nat.eqb_neq _ _)) by lia; now replace (a + S k) with (S a + k) by lia|].
    intros i Hi. destruct (Nat.eqb_spec i a) as [->|Hne].
    + rewrite Fa, Na. rewrite (proj2 (Nat.eqb_neq (S a) a)) by lia. now rewrite N0.
    + rewrite (proj2 (Nat.eqb_neq (S i) a)) by lia. apply HN. lia.
Qed.

Lemma func_type_shape types lltypes f l :
  TypeBuilder.func_type types lltypes f = Ok l -> exists r ps va, l = LFunction r ps va.
Proof.
  unfold TypeBuilder.func_type. intros H.
  destruct (TypeBuilder.func_params _ _ _); [|discriminate]. cbn in H.
  destruct (nth_or_panic types (ret f)) as [T|]; [|discriminate]. cbn in H.
  destruct (kind T); [destruct (nth_or_panic lltypes (ret f)); [|discriminate]|
                      destruct (nth_or_panic lltypes (ret f)); [|discriminate]|];
    cbn in H; injection H as <-; eauto.
Qed.

(** [build_type] only appends named structs. *)
Lemma build_type_ext fuel types acc : forall t nm l nm',
  TypeBuilder.build_type fuel types acc nm t = Ok (l, nm') -> exists ext, nm' = nm ++ ext.
Proof.
  induction fuel as [|f IH]; intros t nm l nm' H; cbn in H; [discriminate|].
  destruct (nth_error acc t) as [l0|].
  { injection H as _ <-. exists []. now rewrite app_nil_r. }
  destruct (nth_or_panic types t) as [T|]; [|discriminate]. cbn in H.
  destruct T;
    try (injection H as _ <-; exists []; now rewrite app_nil_r).
  - destruct (TypeBuilder.build_type f types acc nm t0) as [[l1 nm1]|] eqn:E; [|discriminate].
    cbn in H. injection H as _ <-. eauto.
  - destruct (TypeBuilder.func_type types acc f0); [|discriminate]. cbn in H.
    injection H as _ <-. exists []. now rewrite app_nil_r.
  - injection H as _ <-. eauto.
  - destruct (TypeBuilder.build_type f types acc nm t0) as [[l1 nm1]|] eqn:E; [|discriminate].
    cbn in H. injection H as _ <-. eauto.
  - match type of H with rbind (?go ts nm) _ = _ =>
      assert (G : forall xs nm0 ls nm1, go xs nm0 = Ok (ls, nm1) -> exists ext, nm1 = nm0 ++ ext)
    end.
    { induction xs as [|x xs IHx]; intros nm0 ls nm1 Hg; cbn in Hg.
      - injection Hg as _ <-. exists []. now rewrite app_nil_r.
      - destruct (TypeBuilder.build_type f types acc nm0 x) as [[l1 nm2]|] eqn:E;
          [|discriminate]. cbn in Hg.
        destruct (IH _ _ _ _ E) as [e1 ->].
        match type of Hg with rbind ?m _ = _ => destruct m as [[ls2 nm3]|] eqn:E2 end;
          [|discriminate]. cbn in Hg. injection Hg as _ <-.
        destruct (IHx _ _ _ E2) as [e2 ->]. exists (e1 ++ e2). now rewrite app_assoc. }
    match type of H with rbind ?m _ = _ => destruct m as [[ls nm1]|] eqn:E end;
      [|discriminate]. cbn in H. injection H as _ <-. eauto.
  - injection H as _ <-. eauto.
Qed.

(** An uncached struct or enum type: a fresh opaque named struct. *)
Lemma build_type_named_step f types acc nm i T name :
  nth_error acc i = None -> nth_error types i = Some T -> named_type_name T = Some name ->
  TypeBuilder.build_type (S f) types acc nm i
  = Ok (LNamed (List.length nm), nm ++ [(name, None)]).
Proof.
  intros Ha Ht Hn. cbn. rewrite Ha. unfold nth_or_panic. rewrite Ht. cbn.
  destruct T; try discriminate; injection Hn as <-; reflexivity.
Qed.

(** An uncached pointer to an uncached struct or enum type. *)
Lemma build_type_pointer_step f types acc nm i k T name :
  nth_error acc i = None -> nth_error types i = Some (Ty.Pointer k) ->
  nth_error acc k = None -> nth_error types k = Some T -> named_type_name T = Some name ->
  TypeBuilder.build_type (S (S f)) types acc nm i
  = Ok (LPointer (LNamed (List.length nm)), nm ++ [(name, None)]).
Proof.
  intros Ha Ht Hak Htk Hn.
  pose proof (build_type_named_step f types acc nm k T name Hak Htk Hn) as Hk.
  remember (S f) as g eqn:Hg. cbn. rewrite Ha. unfold nth_or_panic. rewrite Ht. cbn.
  rewrite Hk. reflexivity.
Qed.

(** Only struct and enum types are lowered to a named struct. *)
Lemma build_type_named_inv f types acc nm i k nm' :
  nth_error acc i = None ->
  TypeBuilder.build_type (S f) types acc nm i = Ok (LNamed k, nm') ->
  exists T name, nth_error types i = Some T /\ named_type_name T = Some name /\
    k = List.length nm /\ nm' = nm ++ [(name, None)].
Proof.
  intros Ha H. cbn in H. rewrite Ha in H. unfold nth_or_panic in H.
  destruct (nth_error types i) as [T|] eqn:Ht; [|discriminate]. cbn in H.
  destruct T; try discriminate.
  - match type of H with rbind ?m _ = _ => destruct m as [[]|] end; discriminate.
  - destruct (TypeBuilder.func_type types acc f0) as [l|] eqn:E; [|discriminate].
    cbn in H. injection H as -> _. destruct (func_type_shape _ _ _ _ E) as (? & ? & ? & ?).
    discriminate.
  - injection H as <- <-. eexists _, _. repeat split; eauto.
  - match type of H with rbind ?m _ = _ => destruct m as [[]|] end; discriminate.
  - match type of H with rbind ?m _ = _ => destruct m as [[]|] end; discriminate.
  - injection H as <- <-. eexists _, _. repeat split; eauto.
Qed.

(** A pointer type whose pointee is itself fails (the Rust recursion
    overflows the stack). *)
Lemma build_type_self_pointer types i fuel : nth_error types i = Some (Ty.Pointer i) ->
  forall acc nm, nth_error acc i = None ->
  exists e, TypeBuilder.build_type fuel types acc nm i = Err e.
Proof.
  intros Ht. induction fuel as [|f IH]; intros acc nm Ha; [eexists; reflexivity|].
  cbn. rewrite Ha. unfold nth_or_panic. rewrite Ht.
  cbn. destruct (IH acc nm Ha) as [e ->]. now exists e.
Qed.

Lemma func_params_err types lltypes p ps :
  In p ps -> List.length lltypes <= p ->
  (forall T, nth_error types p = Some T -> kind T <> TypeKind.Unit) ->
  exists e, TypeBuilder.func_params types lltypes ps = Err e.
Proof.
  intros Hin Hl HT. induction ps as [|q ps IH]; [destruct Hin|].
  cbn. unfold nth_or_panic at 1.
  destruct (nth_error types q) as [T|] eqn:Eq; [|eexists; reflexivity]. cbn.
  assert (Hq : nth_or_panic lltypes p = Err "index out of bounds").
  { unfold nth_or_panic. now rewrite (proj2 (nth_error_None lltypes p) Hl). }
  destruct Hin as [<-|Hin].
  - specialize (HT T Eq). destruct (kind T); [rewrite Hq..|]; cbn;
      [eexists; reflexivity..|congruence].
  - destruct (IH Hin) as [e He].
    destruct (kind T); [destruct (nth_or_panic lltypes q)|destruct (nth_or_panic lltypes q)|];
      cbn; rewrite ?He; cbn; eauto.
Qed.

(** A function type naming, as a parameter or its return type, a
    non-unit type whose lowered type is not known yet fails. *)
Lemma func_type_err types lltypes f p :
  In p (ret f :: params f) -> List.length lltypes <= p ->
  (forall T, nth_error types p = Some T -> kind T <> TypeKind.Unit) ->
  exists e, TypeBuilder.func_type types lltypes f = Err e.
Proof.
  intros Hin Hl HT. unfold TypeBuilder.func_type.
  destruct (TypeBuilder.func_params types lltypes (params f)) as [ps|e] eqn:Eps;
    [|now exists e]. cbn.
  destruct Hin as [<-|Hin].
  - unfold nth_or_panic. destruct (nth_error types (ret f)) as [T|] eqn:Et;
      [|eexists; reflexivity]. cbn.
    rewrite (proj2 (nth_error_None lltypes (ret f)) Hl). specialize (HT T eq_refl).
    destruct (kind T); cbn; [eexists; reflexivity..|congruence].
  - destruct (func_params_err types lltypes p (params f) Hin Hl HT) as [e He]. congruence.
Qed.

Lemma set_struct_body_tables tb j sty tb1 :
  TypeBuilder.set_struct_body tb j sty = Ok tb1 ->
  TypeBuilder.types tb1 = TypeBuilder.types tb /\ TypeBuilder.lltypes tb1 = TypeBuilder.lltypes tb.
Proof.
  unfold TypeBuilder.set_struct_body. intros H.
  destruct (TypeBuilder.lltype tb j); [|discriminate]. cbn in H.
  match type of H with rbind ?m _ = _ => destruct m end; [|discriminate]. cbn in H.
  destruct (struct_set_body _ _ _); [|discriminate]. cbn in H. now injection H as <-.
Qed.

Lemma set_enum_body_tables tb j e tb1 :
  TypeBuilder.set_enum_body tb j e = Ok tb1 ->
  TypeBuilder.types tb1 = TypeBuilder.types tb /\ TypeBuilder.lltypes tb1 = TypeBuilder.lltypes tb.
Proof.
  unfold TypeBuilder.set_enum_body. intros H.
  destruct (TypeBuilder.lltype tb j); [|discriminate]. cbn in H.
  destruct (TypeBuilder.enum_largest _ _ _ _) as [[]|]; [|discriminate]. cbn in H.
  destruct (struct_set_body _ _ _); [|discriminate]. cbn in H. now injection H as <-.
Qed.

Lemma pass2_tables types ids : forall tb tb',
  pass2 types ids tb = Ok tb' ->
  TypeBuilder.types tb' = TypeBuilder.types tb /\ TypeBuilder.lltypes tb' = TypeBuilder.lltypes tb.
Proof.
  induction ids as [|i ids IH]; intros tb tb' H; cbn in H; [now injection H as <-|].
  destruct (nth_error types i) as [[]|]; try (now apply IH);
    match type of H with rbind ?m _ = _ => destruct m as [tb1|] eqn:E end;
    try discriminate; cbn in H; destruct (IH _ _ H) as [-> ->];
    [apply (set_struct_body_tables _ _ _ _ E)|apply (set_enum_body_tables _ _ _ _ E)].
Qed.

Lemma struct_set_body_other nm k body nm' m :
  struct_set_body nm (LNamed k) body = Ok nm' -> m <> k -> nth_error nm' m = nth_error nm m.
Proof.
  unfold struct_set_body. destruct (nth_error nm k) as [[n b]|] eqn:E; [|discriminate].
  intros [= <-] Hm.
  assert (Hk : k < List.length nm) by (apply nth_error_Some; congruence).
  destruct (Nat.lt_ge_cases m k) as [Hlt|Hge].
  - rewrite nth_error_app1 by (rewrite length_firstn; lia).
    rewrite nth_error_firstn. now rewrite (proj2 (Nat.ltb_lt m k) Hlt).
  - rewrite nth_error_app2 by (rewrite length_firstn; lia). rewrite length_firstn.
    replace (m - Nat.min k (List.length nm)) with (S (m - S k)) by lia.
    change (nth_error (skipn (S k) nm) (m - S k) = nth_error nm m). rewrite nth_error_skipn. f_equal. lia.
Qed.

Lemma struct_fields_lookups tb fs ls :
  (fix go (fs : list (string * TypeId)) : result (list LLVMTypeRef) :=
     match fs with
     | [] => Ok []
     | (_, ty) :: fs' => l <-? TypeBuilder.lltype tb ty ;; rest <-? go fs' ;; Ok (l :: rest)
     end) fs = Ok ls ->
  lookups (TypeBuilder.lltypes tb) (map snd fs) = Some ls.
Proof.
  revert ls. induction fs as [|[x t] fs IH]; intros ls H; cbn in H.
  - now injection H as <-.
  - unfold TypeBuilder.lltype, nth_or_panic in H. cbn.
    destruct (nth_error (TypeBuilder.lltypes tb) t); [|discriminate]. cbn in H.
    match type of H with rbind ?m _ = _ => destruct m as [r|] eqn:E end; [|discriminate].
    cbn in H. injection H as <-. now rewrite (IH _ E).
Qed.

Lemma set_struct_body_named tb j sty tb1 :
  TypeBuilder.set_struct_body tb j sty = Ok tb1 ->
  exists k ls, nth_error (TypeBuilder.lltypes tb) j = Some (LNamed k) /\
    lookups (TypeBuilder.lltypes tb) (map snd (fields sty)) = Some ls /\
    named_body (TypeBuilder.named tb1) k = Some ls /\
    (forall m, m <> k -> nth_error (TypeBuilder.named tb1) m = nth_error (TypeBuilder.named tb) m).
Proof.
  unfold TypeBuilder.set_struct_body. intros H.
  destruct (TypeBuilder.lltype tb j) as [l|] eqn:El; [|discriminate]. cbn in H.
  match type of H with rbind ?m _ = _ => destruct m as [ls|] eqn:Ef end; [|discriminate].
  cbn in H. destruct (struct_set_body _ l ls) as [nm'|] eqn:Es; [|discriminate].
  cbn in H. injection H as <-. cbn.
  destruct (struct_set_body_ok _ _ _ _ Es) as [k [-> Hb]].
  exists k, ls. unfold TypeBuilder.lltype, nth_or_panic in El.
  destruct (nth_error (TypeBuilder.lltypes tb) j); [|discriminate]. injection El as ->.
  repeat split; auto.
  - exact (struct_fields_lookups _ _ _ Ef).
  - intros m Hm. exact (struct_set_body_other _ _ _ _ _ Es Hm).
Qed.

Lemma set_enum_body_named tb j e tb1 :
  List.length (TypeBuilder.lltypes tb) = List.length (TypeBuilder.types tb) ->
  TypeBuilder.set_enum_body tb j e = Ok tb1 ->
  exists k, nth_error (TypeBuilder.lltypes tb) j = Some (LNamed k) /\
    (forall m, m <> k -> nth_error (TypeBuilder.named tb1) m = nth_error (TypeBuilder.named tb) m).
Proof.
  intros Hlen. unfold TypeBuilder.set_enum_body. intros H.
  destruct (TypeBuilder.lltype tb j) as [l|] eqn:El; [|discriminate]. cbn in H.
  destruct (TypeBuilder.enum_largest _ _ _ _) as [[res nm]|] eqn:Ee; [|discriminate].
  cbn in H. destruct (enum_largest_first_max _ _ _ _ _ _ Hlen Ee) as [-> _].
  destruct (struct_set_body _ l _) as [nm'|] eqn:Es; [|discriminate].
  cbn in H. injection H as <-. cbn.
  destruct (struct_set_body_ok _ _ _ _ Es) as [k [-> _]].
  exists k. unfold TypeBuilder.lltype, nth_or_panic in El.
  destruct (nth_error (TypeBuilder.lltypes tb) j); [|discriminate]. injection El as ->.
  split; [reflexivity|]. intros m Hm. exact (struct_set_body_other _ _ _ _ _ Es Hm).
Qed.

Lemma pass2_other types ids : forall tb tb' m,
  pass2 types ids tb = Ok tb' ->
  TypeBuilder.types tb = types ->
  List.length (TypeBuilder.lltypes tb) = List.length types ->
  (forall j T name, In j ids -> nth_error types j = Some T -> named_type_name T = Some name ->
     nth_error (TypeBuilder.lltypes tb) j <> Some (LNamed m)) ->
  nth_error (TypeBuilder.named tb') m = nth_error (TypeBuilder.named tb) m.
Proof.
  induction ids as [|i ids IH]; intros tb tb' m H Ht Hl Hj; cbn in H; [now injection H as <-|].
  assert (Hj' : forall j T name, In j ids -> nth_error types j = Some T ->
                  named_type_name T = Some name ->
                  nth_error (TypeBuilder.lltypes tb) j <> Some (LNamed m))
    by (intros; eapply Hj; eauto; now right).
  destruct (nth_error types i) as [T|] eqn:Ei; [|now apply (IH tb)].
  destruct T; try (now apply (IH tb)).
  - destruct (TypeBuilder.set_struct_body tb i s) as [tb1|] eqn:E; [|discriminate].
    cbn in H. destruct (set_struct_body_tables _ _ _ _ E) as [E1 E2].
    destruct (set_struct_body_named _ _ _ _ E) as (k & ls & Hk & _ & _ & Ho).
    rewrite (IH tb1 tb' m H) by (rewrite ?E1, ?E2; auto).
    apply Ho. intros ->. apply (Hj i _ (sname s) (or_introl eq_refl) Ei eq_refl Hk).
  - destruct (TypeBuilder.set_enum_body tb i e) as [tb1|] eqn:E; [|discriminate].
    cbn in H. destruct (set_enum_body_tables _ _ _ _ E) as [E1 E2].
    destruct (set_enum_body_named tb i e tb1 ltac:(congruence) E) as (k & Hk & Ho).
    rewrite (IH tb1 tb' m H) by (rewrite ?E1, ?E2; auto).
    apply Ho. intros ->. apply (Hj i _ (ename e) (or_introl eq_refl) Ei eq_refl Hk).
Qed.

Lemma pass2_struct types ids : forall tb tb' j sty k,
  pass2 types ids tb = Ok tb' ->
  TypeBuilder.types tb = types ->
  List.length (TypeBuilder.lltypes tb) = List.length types ->
  NoDup ids -> In j ids ->
  nth_error types j = Some (Ty.Struct sty) ->
  nth_error (TypeBuilder.lltypes tb) j = Some (LNamed k) ->
  (forall j', j' <> j -> nth_error (TypeBuilder.lltypes tb) j' <> Some (LNamed k)) ->
  exists ls, lookups (TypeBuilder.lltypes tb) (map snd (fields sty)) = Some ls /\
             named_body (TypeBuilder.named tb') k = Some ls.
Proof.
  induction ids as [|i ids IH]; intros tb tb' j sty k H Ht Hl Hnd Hin Hj Hk Hu;
    [destruct Hin|].
  apply NoDup_cons_iff in Hnd as [Hni Hnd']. cbn in H.
  destruct Hin as [<-|Hin].
  - rewrite Hj in H.
    destruct (TypeBuilder.set_struct_body tb i sty) as [tb1|] eqn:E; [|discriminate].
    cbn in H. destruct (set_struct_body_tables _ _ _ _ E) as [E1 E2].
    destruct (set_struct_body_named _ _ _ _ E) as (k' & ls & Hk' & Hls & Hb & _).
    rewrite Hk in Hk'. injection Hk' as <-. exists ls. split; [exact Hls|].
    unfold named_body in *.
    rewrite (pass2_other types ids tb1 tb' k H) by (rewrite ?E1, ?E2; auto;
      intros j' T name Hj' _ _; apply Hu; intros ->; contradiction).
    exact Hb.
  - assert (Hne : i <> j) by (intros ->; contradiction).
    destruct (nth_error types i) as [T|] eqn:Ei; [|now apply (IH tb tb' j sty k)].
    destruct T; try (now apply (IH tb tb' j sty k)).
    + destruct (TypeBuilder.set_struct_body tb i s) as [tb1|] eqn:E; [|discriminate].
      cbn in H. destruct (set_struct_body_tables _ _ _ _ E) as [E1 E2].
      rewrite <- E2. apply (IH tb1 tb' j sty k); rewrite ?E1, ?E2; auto.
    + destruct (TypeBuilder.set_enum_body tb i e) as [tb1|] eqn:E; [|discriminate].
      cbn in H. destruct (set_enum_body_tables _ _ _ _ E) as [E1 E2].
      rewrite <- E2. apply (IH tb1 tb' j sty k); rewrite ?E1, ?E2; auto.
Qed.

(** The run of [new]: the lowered types, one per type id, each built
    from the ones before it, and the named structs as they grow. *)
Lemma new_run types tb :
  TypeBuilder.new types = Ok tb ->
  TypeBuilder.types tb = types /\
  List.length (TypeBuilder.lltypes tb) = List.length types /\
  exists nm (N : nat -> named_table),
    pass2 types (seq 0 (List.length types)) (TypeBuilder.mk types (TypeBuilder.lltypes tb) nm)
      = Ok tb /\
    N 0 = [] /\ N (List.length types) = nm /\
    forall i, i < List.length types ->
      TypeBuilder.build_type (S (List.length types)) types
        (firstn i (TypeBuilder.lltypes tb)) (N i) i
      = Ok (nth i (TypeBuilder.lltypes tb) LVoid, N (S i)).
Proof.
  rewrite new_passes. intros H.
  destruct (pass1 types _ _ [] []) as [[acc nm]|] eqn:E1; [|discriminate]. cbn in H.
  destruct (pass1_steps types (S (List.length types)) (List.length types) 0 [] [] acc nm
              eq_refl E1) as (L & _ & N & N0 & N1 & HN).
  destruct (pass2_tables _ _ _ _ H) as [T1 T2]. cbn in T1, T2.
  rewrite T1, T2. split; [reflexivity|]. split; [lia|].
  exists nm, N. repeat split; auto. intros i Hi. apply HN. lia.
Qed.

Lemma N_ext types (N : nat -> named_table) lltypes :
  (forall i, i < List.length types ->
      TypeBuilder.build_type (S (List.length types)) types (firstn i lltypes) (N i) i
      = Ok (nth i lltypes LVoid, N (S i))) ->
  forall a b, a <= b <= List.length types -> exists ext, N b = N a ++ ext.
Proof.
  intros HN a b [Hab Hb]. induction Hab as [|b Hab IH].
  - exists []. now rewrite app_nil_r.
  - destruct (IH ltac:(lia)) as [e1 He1].
    destruct (build_type_ext _ _ _ _ _ _ _ (HN b ltac:(lia))) as [e2 He2].
    exists (e1 ++ e2). now rewrite He2, He1, app_assoc.
Qed.

Lemma N_length types N lltypes a b :
  (forall i, i < List.length types ->
      TypeBuilder.build_type (S (List.length types)) types (firstn i lltypes) (N i) i
      = Ok (nth i lltypes LVoid, N (S i))) ->
  a <= b <= List.length types -> List.length (N a) <= List.length (N b).
Proof.
  intros HN Hab. destruct (N_ext types N lltypes HN a b Hab) as [e ->].
  rewrite length_app. lia.
Qed.

Lemma N_prefix types N lltypes a b m :
  (forall i, i < List.length types ->
      TypeBuilder.build_type (S (List.length types)) types (firstn i lltypes) (N i) i
      = Ok (nth i lltypes LVoid, N (S i))) ->
  a <= b <= List.length types -> m < List.length (N a) ->
  nth_error (N b) m = nth_error (N a) m.
Proof.
  intros HN Hab Hm. destruct (N_ext types N lltypes HN a b Hab) as [e ->].
  now apply nth_error_app1.
Qed.

Lemma firstn_nth_none {A} (l : list A) i k : i <= k -> nth_error (firstn i l) k = None.
Proof. intros H. apply nth_error_None. rewrite length_firstn. lia. Qed.

(** The type ids lowered to a named struct: struct and enum types, each
    to the struct it created at its step. *)
Lemma lowered_named types N lltypes j k :
  List.length lltypes = List.length types ->
  (forall i, i < List.length types ->
      TypeBuilder.build_type (S (List.length types)) types (firstn i lltypes) (N i) i
      = Ok (nth i lltypes LVoid, N (S i))) ->
  nth_error lltypes j = Some (LNamed k) ->
  exists T name, j < List.length types /\ nth_error types j = Some T /\
    named_type_name T = Some name /\ k = List.length (N j) /\ N (S j) = N j ++ [(name, None)].
Proof.
  intros Hl HN Hj.
  assert (Hlt : j < List.length types) by (rewrite <- Hl; apply nth_error_Some; congruence).
  specialize (HN j Hlt). rewrite (nth_error_nth _ _ LVoid Hj) in HN.
  destruct (build_type_named_inv _ _ _ _ _ _ _ (firstn_nth_none lltypes j j (le_n j)) HN)
    as (T & name & H1 & H2 & H3 & H4).
  exists T, name. auto.
Qed.

Lemma lowered_named_lt types N lltypes j1 j2 k1 k2 :
  List.length lltypes = List.length types ->
  (forall i, i < List.length types ->
      TypeBuilder.build_type (S (List.length types)) types (firstn i lltypes) (N i) i
      = Ok (nth i lltypes LVoid, N (S i))) ->
  nth_error lltypes j1 = Some (LNamed k1) -> nth_error lltypes j2 = Some (LNamed k2) ->
  j1 < j2 -> k1 < k2.
Proof.
  intros Hl HN H1 H2 Hlt.
  destruct (lowered_named _ _ _ _ _ Hl HN H1) as (T1 & n1 & L1 & _ & _ & -> & E1).
  destruct (lowered_named _ _ _ _ _ Hl HN H2) as (T2 & n2 & L2 & _ & _ & -> & _).
  pose proof (N_length types N lltypes (S j1) j2 HN ltac:(lia)) as Hle.
  rewrite E1, length_app in Hle. cbn in Hle. lia.
Qed.

Lemma build_type_cached f types acc nm k l :
  nth_error acc k = Some l -> TypeBuilder.build_type (S f) types acc nm k = Ok (l, nm).
Proof. intros H. cbn. now rewrite H. Qed.


(** X4: after [TypeBuilder::new] every struct type id lowers to a named
    struct of its own, whose body is the lowered types of its fields, in
    order. *)
Theorem new_struct_body types tb j sty :
  TypeBuilder.new types = Ok tb ->
  nth_error types j = Some (Ty.Struct sty) ->
  exists k ls,
    nth_error (TypeBuilder.lltypes tb) j = Some (LNamed k) /\
    lookups (TypeBuilder.lltypes tb) (map snd (fields sty)) = Some ls /\
    named_body (TypeBuilder.named tb) k = Some ls /\
    (forall j', j' <> j -> nth_error (TypeBuilder.lltypes tb) j' <> Some (LNamed k)).
Proof.
  intros Hnew Hj. destruct (new_run _ _ Hnew) as (Ht & Hl & nm & N & H2 & N0 & N1 & HN).
  assert (Hlt : j < List.length types) by (apply nth_error_Some; congruence).
  pose proof (HN j Hlt) as Hs.
  rewrite (build_type_named_step _ types _ (N j) j (Ty.Struct sty) (sname sty)
             (firstn_nth_none (TypeBuilder.lltypes tb) j j (le_n j)) Hj eq_refl) in Hs.
  injection Hs as Hs _.
  assert (Hk : nth_error (TypeBuilder.lltypes tb) j = Some (LNamed (List.length (N j)))).
  { rewrite (nth_error_nth' _ LVoid) by lia. now rewrite <- Hs. }
  assert (Hu : forall j', j' <> j ->
            nth_error (TypeBuilder.lltypes tb) j' <> Some (LNamed (List.length (N j)))).
  { intros j' Hne Hj'. destruct (proj1 (Nat.lt_gt_cases j' j) Hne) as [Hc|Hc];
      [pose proof (lowered_named_lt _ _ _ _ _ _ _ Hl HN Hj' Hk Hc) as Hc'
      |pose proof (lowered_named_lt _ _ _ _ _ _ _ Hl HN Hk Hj' Hc) as Hc'];
      lia. }
  destruct (pass2_struct types (seq 0 (List.length types)) _ tb j sty _ H2 eq_refl Hl
              (seq_NoDup _ _) ltac:(apply in_seq; lia) Hj Hk Hu) as (ls & H3 & H4).
  exists (List.length (N j)), ls. auto.
Qed.

(** X5: [TypeBuilder::new] on a pointer type: a pointer to an earlier
    type points to that type's lowering; a pointer to a later struct or
    enum points to a fresh opaque named struct of the same name, which no
    type id lowers to and which stays opaque. *)
Theorem new_pointer types tb i k :
  TypeBuilder.new types = Ok tb ->
  nth_error types i = Some (Ty.Pointer k) ->
  (k < i -> exists l, nth_error (TypeBuilder.lltypes tb) k = Some l /\
                      nth_error (TypeBuilder.lltypes tb) i = Some (LPointer l)) /\
  (i < k -> forall T name, nth_error types k = Some T -> named_type_name T = Some name ->
   exists m, nth_error (TypeBuilder.lltypes tb) i = Some (LPointer (LNamed m)) /\
     nth_error (TypeBuilder.named tb) m = Some (name, None) /\
     forall j, nth_error (TypeBuilder.lltypes tb) j <> Some (LNamed m)).
Proof.
  intros Hnew Hi. destruct (new_run _ _ Hnew) as (Ht & Hl & nm & N & H2 & N0 & N1 & HN).
  assert (Hlt : i < List.length types) by (apply nth_error_Some; congruence).
  pose proof (HN i Hlt) as Hs. split.
  - intros Hki.
    destruct (nth_error (TypeBuilder.lltypes tb) k) as [l|] eqn:Hk;
      [|apply nth_error_None in Hk; lia].
    exists l. split; [reflexivity|].
    destruct (List.length types) as [|len] eqn:Hlen; [lia|].
    destruct len as [|len]; [lia|].
    cbn in Hs. rewrite (firstn_nth_none (TypeBuilder.lltypes tb) i i (le_n i)) in Hs.
    unfold nth_or_panic in Hs. rewrite Hi in Hs. cbn in Hs.
    rewrite nth_error_firstn, (proj2 (Nat.ltb_lt k i) Hki), Hk in Hs.
    cbn in Hs. injection Hs as Hs _.
    rewrite (nth_error_nth' _ LVoid) by lia. now rewrite <- Hs.
  - intros Hik T name Hk Hn.
    assert (Hklt : k < List.length types) by (apply nth_error_Some; congruence).
    assert (Hs' : TypeBuilder.build_type (S (List.length types)) types
                    (firstn i (TypeBuilder.lltypes tb)) (N i) i
                  = Ok (LPointer (LNamed (List.length (N i))), N i ++ [(name, None)])).
    { destruct (List.length types) as [|len] eqn:Hlen; [lia|].
      destruct len as [|len]; [lia|].
      apply (build_type_pointer_step (S len) types _ (N i) i k T name
               (firstn_nth_none (TypeBuilder.lltypes tb) i i (le_n i)) Hi
               (firstn_nth_none (TypeBuilder.lltypes tb) i k ltac:(lia)) Hk Hn). }
    rewrite Hs' in Hs. injection Hs as Hs HNi.
    set (m := List.length (N i)) in *.
    assert (Hno : forall j, nth_error (TypeBuilder.lltypes tb) j <> Some (LNamed m)).
    { intros j Hj.
      destruct (lowered_named _ _ _ _ _ Hl HN Hj) as (T' & name' & Lj & Tj & Nj & Hm & ENj).
      destruct (Nat.lt_total j i) as [Hc|[->|Hc]].
      - pose proof (N_length types N _ (S j) i HN ltac:(lia)) as Hc'.
        rewrite ENj, length_app in Hc'. cbn in Hc'. fold m in Hc'. lia.
      - rewrite Hi in Tj. injection Tj as <-. discriminate.
      - pose proof (N_length types N _ (S i) j HN ltac:(lia)) as Hc'.
        rewrite <- HNi, length_app in Hc'. cbn in Hc'. fold m in Hc'. lia. }
    exists m. split; [|split; [|exact Hno]].
    + rewrite (nth_error_nth' _ LVoid) by lia. now rewrite <- Hs.
    + rewrite (pass2_other types _ _ tb m H2 eq_refl Hl
                 (fun j T0 name0 _ _ _ => Hno j)).
      cbn [TypeBuilder.named]. rewrite <- N1.
      rewrite (N_prefix types N _ (S i) (List.length types) m HN ltac:(lia))
        by (rewrite <- HNi, length_app; cbn; lia).
      rewrite <- HNi, nth_error_app2 by lia. now rewrite Nat.sub_diag.
Qed.


(** X6: [TypeBuilder::new] fails on a pointer type that points to
    itself. *)
Theorem new_self_pointer types i :
  nth_error types i = Some (Ty.Pointer i) -> forall tb, TypeBuilder.new types <> Ok tb.
Proof.
  intros Hi tb Hnew. destruct (new_run _ _ Hnew) as (Ht & Hl & nm & N & H2 & N0 & N1 & HN).
  assert (Hlt : i < List.length types) by (apply nth_error_Some; congruence).
  destruct (build_type_self_pointer types i (S (List.length types)) Hi
              (firstn i (TypeBuilder.lltypes tb)) (N i)
              (firstn_nth_none _ i i (le_n i))) as [e He].
  rewrite (HN i Hlt) in He. discriminate.
Qed.

(** X7: [TypeBuilder::new] fails on a function type whose return type or
    a parameter type is a non-unit type with an id not below its own. *)
Theorem new_func_forward types i f p :
  nth_error types i = Some (Ty.Func f) ->
  In p (ret f :: params f) -> i <= p ->
  (forall T, nth_error types p = Some T -> kind T <> TypeKind.Unit) ->
  forall tb, TypeBuilder.new types <> Ok tb.
Proof.
  intros Hi Hin Hp HT tb Hnew.
  destruct (new_run _ _ Hnew) as (Ht & Hl & nm & N & H2 & N0 & N1 & HN).
  assert (Hlt : i < List.length types) by (apply nth_error_Some; congruence).
  pose proof (HN i Hlt) as Hs. cbn in Hs.
  rewrite (firstn_nth_none _ i i (le_n i)) in Hs. unfold nth_or_panic in Hs.
  rewrite Hi in Hs. cbn in Hs.
  destruct (func_type_err types (firstn i (TypeBuilder.lltypes tb)) f p Hin
              ltac:(rewrite length_firstn; lia) HT) as [e He].
  rewrite He in Hs. discriminate.
Qed.

End TypeBuilderProofs.

Module FuncBodyProofs.
Abbreviation fret f := (ret f) (only parsing).
Abbreviation body_locals fb := (locals fb) (only parsing).
Import StmtBuilder StmtFacts StmtProofs.

Lemma alloca_locals_run tb tys n out ps n' out' :
  alloca_locals tb tys n out = Ok (ps, n', out') ->
  exists ls, lookups (TypeBuilder.lltypes tb) tys = Some ls /\
    ps = map VReg (seq n (List.length tys)) /\ n' = n + List.length tys /\
    out' = out ++ combine (seq n (List.length ls)) (map Alloca ls).
Proof.
  revert n out ps n' out'.
  induction tys as [|t tys IH]; intros n out ps n' out' H; cbn [alloca_locals] in H.
  - injection H as <- <- <-. exists []. cbn. rewrite app_nil_r. repeat split; lia.
  - unfold StmtBuilder.bind, StmtBuilder.lift, TypeBuilder.lltype, nth_or_panic in H.
    destruct (nth_error (TypeBuilder.lltypes tb) t) as [l|] eqn:El; [|discriminate].
    unfold StmtBuilder.emit in H.
    destruct (alloca_locals tb tys (S n) (out ++ [(n, Alloca l)])) as [[[ps0 n0] o0]|] eqn:E;
      [|discriminate].
    injection H as <- <- <-. destruct (IH _ _ _ _ _ E) as (ls & H1 & -> & -> & ->).
    exists (l :: ls). cbn [lookups]. rewrite El, H1. cbn [List.length seq combine map].
    rewrite <- app_assoc. repeat split; lia.
Qed.

Lemma insts_allocas ls :
  insts (combine (seq 0 (List.length ls)) (map Alloca ls)) = alloca_items ls.
Proof.
  unfold insts, alloca_items. generalize 0. induction ls as [|l ls IH]; intros k; cbn; auto.
  now rewrite IH.
Qed.

Lemma lookups_length {A} (l : list A) xs ls : lookups l xs = Some ls -> List.length ls = List.length xs.
Proof.
  revert ls. induction xs as [|x xs IH]; intros ls H; cbn in H.
  - now injection H as <-.
  - destruct (nth_error l x), (lookups l xs) eqn:E; try discriminate.
    injection H as <-. cbn. now rewrite (IH _ eq_refl).
Qed.

Lemma func_type_aggregate types lltypes f R t :
  nth_error types (fret f) = Some R -> kind R = TypeKind.Aggregate ->
  TypeBuilder.func_type types lltypes f = Ok t ->
  exists ps r, t = LFunction LVoid (ps ++ [LPointer r]) (var_args f) /\
               nth_error lltypes (fret f) = Some r /\ last_param t = VParam (List.length ps).
Proof.
  intros HR HK H. unfold TypeBuilder.func_type in H.
  destruct (TypeBuilder.func_params _ _ _) as [ps|]; [|discriminate]. cbn in H.
  unfold nth_or_panic at 1 in H. rewrite HR in H. cbn in H. rewrite HK in H.
  unfold nth_or_panic in H. destruct (nth_error lltypes (fret f)) as [r|]; [|discriminate].
  cbn in H. injection H as <-. exists ps, r. repeat split.
  cbn. rewrite length_app. cbn. f_equal. lia.
Qed.

(** X8: [build_func_body] lowers the statements of the body from the
    entry block holding the allocas of the locals, with the locals in
    registers [0, 1, ...]; the return slot is the last parameter when the
    return type is an aggregate, and there is none otherwise. *)
Theorem func_body_env tb llfuncs llconsts func fb s :
  func_body_state tb llfuncs llconsts func fb = Ok s ->
  exists env ls R,
    lookups (TypeBuilder.lltypes tb) (body_locals fb) = Some ls /\
    nth_error (TypeBuilder.types tb) (fret (fty func)) = Some R /\
    build_block env (body fb) (mkState [alloca_items ls] 0 (List.length ls) [] []) = Ok s /\
    tybld env = tb /\ StmtBuilder.llfuncs env = llfuncs /\ StmtBuilder.llconsts env = llconsts /\
    StmtBuilder.locals env = map VReg (seq 0 (List.length ls)) /\
    match kind R with
    | TypeKind.Aggregate =>
        exists ps r,
          TypeBuilder.func_type (TypeBuilder.types tb) (TypeBuilder.lltypes tb) (fty func)
            = Ok (LFunction LVoid (ps ++ [LPointer r]) (var_args (fty func))) /\
          nth_error (TypeBuilder.lltypes tb) (fret (fty func)) = Some r /\
          sret env = Some (VParam (List.length ps))
    | _ => sret env = None
    end.
Proof.
  unfold func_body_state. intros H.
  apply rbind_ok in H as (? & _ & H).
  apply rbind_ok in H as (lt & Hlt & H).
  apply rbind_ok in H as (R & HR & H).
  destruct (alloca_locals tb (body_locals fb) 0 []) as [[[lcls n] out]|e] eqn:Ea; [|discriminate].
  destruct (alloca_locals_run _ _ _ _ _ _ _ Ea) as (ls & Hls & -> & -> & ->).
  cbn in H. rewrite insts_allocas in H.
  unfold TypeBuilder.irtype, nth_or_panic in HR.
  destruct (nth_error (TypeBuilder.types tb) (fret (fty func))) as [R'|] eqn:ER; [|discriminate].
  injection HR as <-.
  replace (List.length (body_locals fb)) with (List.length ls) in H by exact (lookups_length _ _ _ Hls).
  eexists _, ls, R'. split; [exact Hls|]. split; [reflexivity|]. split; [exact H|]. repeat split.
  destruct (kind R') eqn:HK; cbn; try reflexivity.
  destruct (func_type_aggregate _ _ _ _ _ ER HK Hlt) as (ps & r & -> & Hr & Hp).
  exists ps, r. repeat split; auto. now rewrite Hp.
Qed.

(** X9: the first block [build_func_body] appends starts with the
    allocas of the locals, in order. *)
Theorem build_func_body_entry tb llfuncs llconsts func fb bbs :
  build_func_body tb llfuncs llconsts func fb = Ok bbs ->
  exists ls suf, lookups (TypeBuilder.lltypes tb) (body_locals fb) = Some ls /\
    nth 0 bbs [] = alloca_items ls ++ suf.
Proof.
  unfold build_func_body. intros H.
  apply rbind_ok in H as (s & Hs & H). injection H as <-.
  destruct (func_body_env _ _ _ _ _ _ Hs) as (env & ls & R & Hls & _ & E & _).
  assert (F : Forall (frame_ok env) (body fb))
    by (apply Forall_forall; intros; apply build_stmt_frame).
  destruct (build_block_frame env _ F (mkState [alloca_items ls] 0 (List.length ls) [] []) _ (le_n 1) E) as (W & _).
  assert (W' : wframe (mkState [alloca_items ls] 0 (List.length ls) [] [])
                 (match get_terminator (current s) with
                  | None => build_term RetVoid s
                  | Some _ => s
                  end))
    by (destruct (get_terminator (current s)); [exact W|now apply wframe_term]).
  destruct W' as (_ & _ & _ & _ & _ & [suf P]).
  exists ls, suf. split; [exact Hls|]. exact P.
Qed.


End FuncBodyProofs.

Module ModuleProofs.



End ModuleProofs.

(** * Settled claims *)

Lemma func_type_abi_witness :
  Forall (fun t => t < List.length call_types /\ t < List.length (TypeBuilder.lltypes call_tb))
    (ret (mkFuncType [1; 3] 0 false) :: params (mkFuncType [1; 3] 0 false)) /\
  exists t, TypeBuilder.func_type call_types (TypeBuilder.lltypes call_tb)
              (mkFuncType [1; 3] 0 false) = Ok t /\
            abi_signature call_types (TypeBuilder.lltypes call_tb)
              (mkFuncType [1; 3] 0 false) = Some t.
Proof.
  assert (H : Forall (fun t => t < List.length call_types /\
                               t < List.length (TypeBuilder.lltypes call_tb))
                (ret (mkFuncType [1; 3] 0 false) :: params (mkFuncType [1; 3] 0 false)))
    by (vm_compute; repeat constructor; lia).
  split; [exact H|]. exact (func_type_abi _ _ _ H).
Defined.

Lemma set_enum_body_layout_witness :
  List.length (TypeBuilder.lltypes ex_tb0) = List.length (TypeBuilder.types ex_tb0) /\
  TypeBuilder.set_enum_body ex_tb0 0 ex_enum = Ok ex_tb /\
  exists k, nth_error (TypeBuilder.lltypes ex_tb0) 0 = Some (LNamed k) /\
            named_body (TypeBuilder.named ex_tb) k = Some [LStruct [LInt 32]; LInt 8].
Proof.
  assert (H1 : List.length (TypeBuilder.lltypes ex_tb0) =
               List.length (TypeBuilder.types ex_tb0)) by reflexivity.
  assert (H2 : TypeBuilder.set_enum_body ex_tb0 0 ex_enum = Ok ex_tb) by (vm_compute; reflexivity).
  split; [exact H1|]. split; [exact H2|].
  destruct (set_enum_body_layout ex_tb0 0 ex_enum ex_tb H1 H2) as (k & Hk & _).
  exists k. split; [exact Hk|].
  vm_compute in Hk. injection Hk as <-. vm_compute. reflexivity.
Defined.

(** C2 fails as stated: every variant of [enum N { A, B }] lacks
    arguments, yet its body keeps a payload field, the empty record. *)
Lemma nullary_enum_payload :
  TypeBuilder.new [Ty.Enum nullary_enum] =
  Ok (TypeBuilder.mk [Ty.Enum nullary_enum] [LNamed 0] [("N", Some [LStruct []; LInt 8])]) /\
  named_body [("N", Some [LStruct []; LInt 8])] 0 <> Some [LInt 8].
Proof. split; [vm_compute; reflexivity | discriminate]. Qed.

Lemma build_expr_call_sret_witness :
  ExprKind.kind call_e = ExprKind.Call (mkExpr 2 (ExprKind.Func 0))
                           [mkExpr 1 (ExprKind.Integer "5"); mkExpr 3 ExprKind.Unit] /\
  exists out', StmtBuilder.build_expr call_env 10 call_e None 0 [] =
                 Ok (Value.Aggregate (VReg 0), 2, out') /\
    exists pre r fnty fv la, out' = pre ++ [(r, Call fnty fv (la ++ [VReg 0]))].
Proof.
  split; [reflexivity|].
  assert (H : StmtBuilder.build_expr call_env 10 call_e None 0 [] =
    Ok (Value.Aggregate (VReg 0), 2,
        [(0, Alloca (LStruct [LInt 32; LInt 32]));
         (1, Call (LFunction LVoid [LInt 32; LPointer (LStruct [LInt 32; LInt 32])] false)
                  (VFunc 0) [VConstIntOfString (LInt 32) "5"; VReg 0])]))
    by (vm_compute; reflexivity).
  eexists. split; [exact H|].
  destruct (ExprProofs.build_expr_call_sret call_env 10 call_e _ _ None 0 [] _ _ _
              (Ty.Tuple [1; 1]) eq_refl eq_refl eq_refl H)
    as (p & fnty & fv & vals & n2 & o2 & n3 & o3 & Hv & _ & _ & Hout & _).
  injection Hv as <-.
  exists o3, n3, fnty, fv, (arg_slots vals). exact Hout.
Defined.

(** C1 fails: in [enum E { A, B(i32) }] the body is [{ {i32}, i8 }];
    constructing [A], a variant without arguments, stores its tag at
    field 0 (the payload), while the tag read loads field 1.  After
    [x = B(7); x = A;] the tag read returns 1, the ordinal of [B], and
    not 0, the ordinal of [A]. *)
Theorem enum_nullary_tag_misplaced :
  TypeBuilder.named ex_tb = [("E", Some [LStruct [LInt 32]; LInt 8])] /\
  run_body ex_tb 4 [0] enum_tag_body = Some (Some (RInt 8 1)).
Proof. split; vm_compute; reflexivity. Qed.

(** C5 (as the code has it): lowering a cast succeeds exactly on the
    matrix [spec_cast] (identity on each integer and float type, sign
    extension to a wider integer, truncation to a narrower one, i32 to
    f32 and f64, f32 to i32, f32 to f64 and back, pointer to pointer)
    and fails on every other pair; i32 300 cast to i8 gives 44, and i8
    -1 (the byte 0xFF) cast to i32 gives 0xFFFFFFFF, that is -1. *)
Theorem cast_matrix :
  (forall src dst,
     match spec_cast src dst with
     | Some o => cast_op src dst = Ok o
     | None => cast_op src dst = Err "unimplemented cast"
     end) /\
  run_body ex_tb 4 [] (cast_body "300" 1 4) = Some (Some (RInt 8 44)) /\
  run_body ex_tb 1 [] (cast_body "-1" 4 1) = Some (Some (RInt 32 4294967295)) /\
  wrap 8 (-1) = 255%Z /\ signed 32 4294967295 = (-1)%Z.
Proof.
  split; [|repeat split; vm_compute; reflexivity].
  intros [] []; reflexivity.
Qed.

(** C5 fails as stated: the conversion from f64 to i32 is not in the
    code's matrix, nor is the identity on bool; lowering
    [return (1.5 : f64) as i32;] fails. *)
Lemma cast_f64_i32_rejected :
  cast_op Ty.F64 Ty.I32 = Err "unimplemented cast" /\
  cast_op Ty.Bool Ty.Bool = Err "unimplemented cast" /\
  build_func_body f64_tb [VFunc 0] [] (ex_fd 1) (mkFuncBody 0 [] f64_to_i32_body)
    = Err "unimplemented cast".
Proof. repeat split; vm_compute; reflexivity. Qed.

(** C9 fails: an integer literal is lowered to [LLVMConstIntOfString]
    without any check of its text.  [return 300 : i8;] is lowered and
    returns 44; [return abc : i8;] is lowered too. *)
Theorem integer_literal_unchecked :
  build_func_body ex_tb [VFunc 0] [] (ex_fd 4)
    (mkFuncBody 0 [] [Return (mkExpr 4 (ExprKind.Integer "abc"))])
    = Ok [[Term (Ret (VConstIntOfString (LInt 8) "abc"))]] /\
  build_func_body ex_tb [VFunc 0] [] (ex_fd 4)
    (mkFuncBody 0 [] [Return (mkExpr 4 (ExprKind.Integer "300"))])
    = Ok [[Term (Ret (VConstIntOfString (LInt 8) "300"))]] /\
  run_body ex_tb 4 [] [Return (mkExpr 4 (ExprKind.Integer "300"))] = Some (Some (RInt 8 44)).
Proof. repeat split; vm_compute; reflexivity. Qed.

(** Witness of C6 on [while (true) { break; }] from a one-block state:
    the body is lowered with the done block 3 on the break stack. *)
Lemma break_continue_innermost_witness :
  StmtBuilder.build_stmt ex_env ex_while ex_s0 = Ok ex_while_state /\
  exists s8 s9, StmtBuilder.build_block ex_env [Break] s8 = Ok s9 /\
    StmtBuilder.break_dest s8 = [3].
Proof.
  assert (B : StmtBuilder.block ex_s0 < List.length (StmtBuilder.blocks ex_s0))
    by (simpl; lia).
  assert (E : StmtBuilder.build_stmt ex_env ex_while ex_s0 = Ok ex_while_state)
    by (vm_compute; reflexivity).
  split; [exact E|].
  destruct (proj1 (proj2 (proj2 (proj2 StmtProofs.break_continue_innermost)))
              ex_env ex_true [Break] ex_s0 ex_while_state B E) as (s8 & s9 & E9 & D8 & _).
  exists s8, s9. split; [exact E9|]. rewrite D8. vm_compute. reflexivity.
Defined.

(** Witness of C7: [if (true) { return; }] in a [fn()]. *)
Lemma build_func_body_terminated_witness :
  build_func_body ex_tb [VFunc 0] [] (ex_fd 2) (mkFuncBody 0 [] if_return_body)
    = Ok if_return_blocks /\
  forallb terminated_once if_return_blocks = true.
Proof.
  assert (E : build_func_body ex_tb [VFunc 0] [] (ex_fd 2) (mkFuncBody 0 [] if_return_body)
                = Ok if_return_blocks) by (vm_compute; reflexivity).
  split; [exact E|].
  apply (StmtProofs.build_func_body_terminated ex_tb [VFunc 0] [] (ex_fd 2)
           (mkFuncBody 0 [] if_return_body)); [vm_compute; reflexivity|exact E].
Defined.

(** C7: [return; return;] in a [fn()] gives one block with two
    terminators. *)
Lemma dead_return_two_terminators :
  build_func_body ex_tb [VFunc 0] [] (ex_fd 2) (mkFuncBody 0 [] dead_return_body)
    = Ok [[Term RetVoid; Term RetVoid]] /\
  terminated_once [Term RetVoid; Term RetVoid] = false.
Proof. split; vm_compute; reflexivity. Qed.

(** Witness of C8: from a one-block state, [while (true) { break; }]
    resumes in block 3 and [for (;true;) { continue; }] in block 4. *)
Lemma loop_shapes_witness :
  StmtBuilder.build_stmt ex_env ex_while ex_s0 = Ok ex_while_state /\
  StmtBuilder.build_stmt ex_env ex_for ex_s0 = Ok ex_for_state /\
  StmtBuilder.block ex_while_state = 3 /\ StmtBuilder.block ex_for_state = 4.
Proof.
  assert (B : StmtBuilder.block ex_s0 < List.length (StmtBuilder.blocks ex_s0))
    by (simpl; lia).
  assert (E1 : StmtBuilder.build_stmt ex_env ex_while ex_s0 = Ok ex_while_state)
    by (vm_compute; reflexivity).
  assert (E2 : StmtBuilder.build_stmt ex_env ex_for ex_s0 = Ok ex_for_state)
    by (vm_compute; reflexivity).
  split; [exact E1|]. split; [exact E2|].
  pose proof (proj1 StmtProofs.loop_shapes ex_env ex_true [Break] ex_s0 ex_while_state B E1)
    as W1.
  cbv zeta in W1.
  destruct W1 as (c & n & out & s8 & s9 & _ & _ & _ & _ & _ & _ & _ & _ & _ & _ & K1 & _).
  pose proof (proj2 StmtProofs.loop_shapes ex_env [] ex_true [] [Continue] ex_s0 ex_for_state
                B E2) as W2.
  destruct W2 as (s1 & c' & n' & out' & s10 & s11 & s14 & s15 & I1 & W2).
  cbv zeta in W2.
  destruct W2 as (_ & _ & _ & _ & _ & _ & _ & _ & _ & _ & _ & _ & _ & _ & _ & _ & _ & K2 & _).
  cbn in I1. injection I1 as <-.
  rewrite K1, K2. split; reflexivity.
Defined.

(** Witness of C10: the empty body of a function of type [fn() -> i32]
    (type 1 of [ex_types]) gets [ret void]. *)
Lemma build_func_body_implicit_ret_witness :
  func_body_state ex_tb [VFunc 0] [] (ex_fd 1) (mkFuncBody 0 [] []) = Ok empty_i32_state /\
  build_func_body ex_tb [VFunc 0] [] (ex_fd 1) (mkFuncBody 0 [] []) = Ok [[Term RetVoid]].
Proof.
  assert (E : func_body_state ex_tb [VFunc 0] [] (ex_fd 1) (mkFuncBody 0 [] [])
                = Ok empty_i32_state) by (vm_compute; reflexivity).
  split; [exact E|].
  destruct (StmtProofs.build_func_body_implicit_ret _ _ _ _ _ _ E) as [_ R];
    [vm_compute; reflexivity|].
  rewrite R. vm_compute. reflexivity.
Defined.

(** * Witnesses of the properties of the whole program *)

(** The constants of [ex_module]: the literal [7] on i32. *)
Lemma build_consts_all_witness :
  build_consts (TypeBuilder.mk [Ty.I32] [LInt 32] []) [mkConst (mkExpr 0 (ExprKind.Integer "7"))]
    = Ok [VConstIntOfString (LInt 32) "7"] /\
  Forall2 (fun c v => ConstBuilder.build (TypeBuilder.mk [Ty.I32] [LInt 32] []) c = Ok v)
    [mkConst (mkExpr 0 (ExprKind.Integer "7"))] [VConstIntOfString (LInt 32) "7"].
Proof.
  assert (E : build_consts (TypeBuilder.mk [Ty.I32] [LInt 32] [])
                [mkConst (mkExpr 0 (ExprKind.Integer "7"))]
              = Ok [VConstIntOfString (LInt 32) "7"]) by (vm_compute; reflexivity).
  split; [exact E|]. apply (proj1 (LiteralProofs.build_consts_all _ _ _)). exact E.
Defined.


Lemma new_struct_body_witness :
  TypeBuilder.new fwd_types = Ok fwd_tb /\ nth_error fwd_types 1 = Some (Ty.Struct fwd_struct) /\
  exists k ls, nth_error (TypeBuilder.lltypes fwd_tb) 1 = Some (LNamed k) /\
    named_body (TypeBuilder.named fwd_tb) k = Some ls.
Proof.
  assert (E : TypeBuilder.new fwd_types = Ok fwd_tb) by (vm_compute; reflexivity).
  assert (E1 : nth_error fwd_types 1 = Some (Ty.Struct fwd_struct)) by reflexivity.
  split; [exact E|]. split; [exact E1|].
  destruct (TypeBuilderProofs.new_struct_body _ _ _ _ E E1) as (k & ls & H1 & _ & H3 & _).
  exists k, ls. split; assumption.
Defined.

Lemma new_pointer_witness :
  TypeBuilder.new fwd_types = Ok fwd_tb /\ nth_error fwd_types 0 = Some (Ty.Pointer 1) /\
  exists m, nth_error (TypeBuilder.lltypes fwd_tb) 0 = Some (LPointer (LNamed m)) /\
    nth_error (TypeBuilder.named fwd_tb) m = Some ("S", None).
Proof.
  assert (E : TypeBuilder.new fwd_types = Ok fwd_tb) by (vm_compute; reflexivity).
  assert (E1 : nth_error fwd_types 0 = Some (Ty.Pointer 1)) by reflexivity.
  split; [exact E|]. split; [exact E1|].
  destruct (proj2 (TypeBuilderProofs.new_pointer _ _ _ _ E E1) ltac:(lia)
              (Ty.Struct fwd_struct) "S" eq_refl eq_refl) as (m & H1 & H2 & _).
  exists m. split; assumption.
Defined.

Lemma new_self_pointer_witness :
  nth_error self_ptr_types 0 = Some (Ty.Pointer 0) /\
  forall tb, TypeBuilder.new self_ptr_types <> Ok tb.
Proof.
  assert (E : nth_error self_ptr_types 0 = Some (Ty.Pointer 0)) by reflexivity.
  split; [exact E|]. exact (TypeBuilderProofs.new_self_pointer _ _ E).
Defined.

Lemma new_func_forward_witness :
  nth_error later_ret_types 0 = Some (Ty.Func later_ret) /\
  forall tb, TypeBuilder.new later_ret_types <> Ok tb.
Proof.
  assert (E : nth_error later_ret_types 0 = Some (Ty.Func later_ret)) by reflexivity.
  split; [exact E|].
  apply (TypeBuilderProofs.new_func_forward later_ret_types 0 later_ret 1 E).
  - left. reflexivity.
  - lia.
  - intros T HT. vm_compute in HT. injection HT as <-. discriminate.
Defined.

(** [g_body]: the return type [(i32, i32)] is an aggregate, returned
    through the slot after the one parameter. *)
Lemma func_body_env_witness :
  func_body_state call_tb [VFunc 0] [] g_decl g_body = Ok g_state /\
  exists env ls, lookups (TypeBuilder.lltypes call_tb) (locals g_body) = Some ls /\
    StmtBuilder.sret env = Some (VParam 1).
Proof.
  assert (E : func_body_state call_tb [VFunc 0] [] g_decl g_body = Ok g_state)
    by (vm_compute; reflexivity).
  split; [exact E|].
  destruct (FuncBodyProofs.func_body_env _ _ _ _ _ _ E) as (env & ls & R & H1 & H2 & _ & _ & _ & _ & _ & H8).
  vm_compute in H2. injection H2 as <-. cbn in H8.
  destruct H8 as (ps & r & F & _ & S).
  vm_compute in F. injection F as F. apply (f_equal (@List.length _)) in F.
  rewrite length_app in F. cbn in F.
  exists env, ls. split; [exact H1|]. rewrite S. do 2 f_equal. lia.
Defined.

Lemma build_func_body_entry_witness :
  build_func_body call_tb [VFunc 0] [] g_decl g_body = Ok g_blocks /\
  exists suf, nth 0 g_blocks [] = (alloca_items [LInt 32] ++ suf)%list.
Proof.
  assert (E : build_func_body call_tb [VFunc 0] [] g_decl g_body = Ok g_blocks)
    by (vm_compute; reflexivity).
  split; [exact E|].
  destruct (FuncBodyProofs.build_func_body_entry _ _ _ _ _ _ E) as (ls & suf & H1 & H2).
  vm_compute in H1. injection H1 as <-. exists suf. exact H2.
Defined.



Module CodegenWitnesses.
Import Codegen CodegenExamples.
Import Codegen.ExprKind (Expr, mkExpr).

Lemma codegen_terminators_witness :
  build_func_body cg_funcs cg_types [FuncV 0] cg_body = Ok cg_block /\
  count_terms cg_block = 1.
Proof.
  assert (E : build_func_body cg_funcs cg_types [FuncV 0] cg_body = Ok cg_block)
    by (vm_compute; reflexivity).
  split; [exact E|]. exact (CodegenProofs.codegen_terminators _ _ _ _ _ E).
Defined.

(** [x = 5;]: the [5] is never read. *)
Lemma codegen_assign_ignores_rhs_witness :
  build_stmt cg_env (Assign cg_x cg_five) 1 []
  = Ok (tt, 3, [Inst 1 (Load (LInt 32) (Reg 0)); Inst 2 (Store (Reg 1) (Reg 0))]).
Proof.
  exact (CodegenProofs.codegen_assign_ignores_rhs cg_env cg_x cg_five 0 1 [] (Reg 0) Ty.I32
           (LInt 32) eq_refl eq_refl eq_refl ltac:(discriminate) ltac:(vm_compute; reflexivity)).
Defined.


Lemma codegen_integer_out_of_range_witness :
  parse_digits i64_past_max 0 = Some (2 ^ 63)%Z /\
  exists e, build_value cg_env (mkExpr 0 (ExprKind.Integer i64_past_max)) 0 [] = Err e.
Proof.
  assert (E : parse_digits i64_past_max 0 = Some (2 ^ 63)%Z) by (vm_compute; reflexivity).
  split; [exact E|].
  apply (proj1 (CodegenProofs.codegen_integer_out_of_range cg_env 0 _ _ 0 [] E)). lia.
Defined.

Lemma codegen_entry_allocas_witness :
  build_func_body cg_funcs cg_types [FuncV 0] cg_body = Ok cg_block /\
  exists rest, cg_block = (alloca_block [LInt 32] ++ rest)%list.
Proof.
  assert (E : build_func_body cg_funcs cg_types [FuncV 0] cg_body = Ok cg_block)
    by (vm_compute; reflexivity).
  split; [exact E|].
  destruct (CodegenProofs.codegen_entry_allocas _ _ _ _ _ E) as (ls & rest & n' & L & B & _).
  vm_compute in L. injection L as <-. exists rest. exact B.
Defined.


End CodegenWitnesses.
